(** * Deal aggregation and change detection of the deal monitor

    A shallow embedding of [DealMonitorBot.scrape_and_process],
    [DealMonitorBot.process_deal] and [DealMonitorBot.notify_change]
    (discord_bot.py), together with the properties of the aggregation and
    change-detection pipeline.

    Python dictionaries with string keys are finite maps [gmap string _];
    the run-scoped accumulator [collected], whose iteration order drives the
    reconciliation loop, is an insertion-ordered association list.  The
    MongoDB collection, the Discord channel, the clock and the logger are
    fields of an explicit [world] threaded through a state-and-exception
    monad. *)

From Stdlib Require Import ZArith String Ascii PrimFloat.
From stdpp Require Import gmap strings list sorting fin_maps.

Local Open Scope Z_scope.

(** ** Python values *)

(** The values a deal or a stored document holds: [None], a [str], a list of
    category labels, a [datetime], or a MongoDB [ObjectId]. *)
Inductive value :=
  | VNone
  | VStr (s : string)
  | VList (l : list string)
  | VTime (t : Z)
  | VOid (n : nat).

Global Instance value_eq_dec : EqDecision value.
Proof. solve_decision. Defined.

(** A deal as parsed by the scraper: every field is a string. *)
Abbreviation raw_deal := (gmap string string).
(** An aggregated deal, and a document of the [deals] collection. *)
Abbreviation deal := (gmap string value).

(** [d.get(k)], with [None] for a missing key. *)
Definition py_get (d : deal) (k : string) : value := default VNone (d !! k).

(** [d.get(k, dflt)]. *)
Definition py_get_default (d : deal) (k : string) (dflt : value) : value :=
  default dflt (d !! k).

(** Python truthiness. *)
Definition truthy (v : value) : bool :=
  match v with
  | VNone => false
  | VStr s => negb (String.eqb s EmptyString)
  | VList l => match l with [] => false | _ => true end
  | VTime _ => true
  | VOid _ => true
  end.

(** The placeholder the scraper writes for an unknown field. *)
Definition NA : string := "N/A".

(** [value and value != "N/A"] on a scraped field. *)
Definition present (s : string) : bool :=
  negb (String.eqb s EmptyString) && negb (String.eqb s NA).

(** ** Sets of labels and [sorted] *)

Definition str_le (a b : string) : Prop := String.leb a b = true.

Global Instance str_le_dec : RelDecision str_le.
Proof. intros a b. unfold str_le. apply _. Defined.

(** [sorted(s)] for a set of strings.  Python orders [str] by code point,
    which on UTF-8 text is the byte-wise order of [String.leb]. *)
Definition py_sorted (s : gset string) : list string :=
  merge_sort str_le (elements s).

(** The one-character strings of a [str], which is what iterating it yields. *)
Fixpoint chars (s : string) : list string :=
  match s with
  | EmptyString => []
  | String c s' => String c EmptyString :: chars s'
  end.

(** Exceptions the modelled code can meet. *)
Inductive exn :=
  | KeyError
  | TypeError
  | StoreError
  | HTTPException (status : Z)
  | OtherError.

Global Instance exn_eq_dec : EqDecision exn.
Proof. solve_decision. Defined.

Inductive outcome (A : Type) :=
  | Ret (a : A)
  | Raise (e : exn).
Arguments Ret {A} a.
Arguments Raise {A} e.

(** [set(v)]: a list gives its elements, a string its characters, anything
    else is not iterable. *)
Definition py_set (v : value) : outcome (gset string) :=
  match v with
  | VList l => Ret (list_to_set l)
  | VStr s => Ret (list_to_set (chars s))
  | _ => Raise TypeError
  end.

(** ** The world of one bot process *)

(** [DealChange]: the classification and the watched fields that changed,
    each with its (old, new) pair. *)
Record DealChange := {
  change_type : string;
  changed_fields : gmap string (value * value);
}.

Global Instance DealChange_eq_dec : EqDecision DealChange.
Proof. solve_decision. Defined.

(** What is handed to the channel: the embed rendered from a deal and its
    change.  Its layout plays no part in delivery, so it is kept as the pair
    it is rendered from. *)
Record embed := {
  embed_deal : deal;
  embed_change : DealChange;
}.

(** Warnings and errors written to the logger; progress messages at info and
    debug level are left out. *)
Inductive log_msg :=
  | NoSitesConfigured
  | NoCategoriesConfigured (site_name : string)
  | ScrapeFailed (site_name category : string)
  | ProcessFailed (asin : value) (e : exn)
  | ChannelNotReady
  | RateLimited.

Inductive event :=
  | Log (m : log_msg)
  | Sleep (ms : Z)
  | SendAttempt (e : embed) (failure : option exn).

Record world := {
  (** the documents of the [deals] collection, in natural order *)
  deals_coll : list deal;
  (** the next [ObjectId] the store hands out *)
  next_oid : nat;
  (** whether each coming store call fails; none fails once it is used up *)
  store_faults : list bool;
  (** [self.deals_channel] is set *)
  deals_channel : bool;
  (** how each coming [send] ends; all succeed once it is used up *)
  send_faults : list (option exn);
  (** the embeds the channel accepted, oldest first *)
  delivered : list embed;
  (** the clock, in milliseconds *)
  clock : Z;
  (** log records, sleeps and send attempts, oldest first *)
  trace : list event;
}.

Definition set_deals_coll (ds : list deal) (n : nat) (w : world) : world :=
  {| deals_coll := ds; next_oid := n; store_faults := store_faults w;
     deals_channel := deals_channel w; send_faults := send_faults w;
     delivered := delivered w; clock := clock w; trace := trace w |}.

Definition set_store_faults (fs : list bool) (w : world) : world :=
  {| deals_coll := deals_coll w; next_oid := next_oid w; store_faults := fs;
     deals_channel := deals_channel w; send_faults := send_faults w;
     delivered := delivered w; clock := clock w; trace := trace w |}.

Definition set_send_faults (fs : list (option exn)) (w : world) : world :=
  {| deals_coll := deals_coll w; next_oid := next_oid w;
     store_faults := store_faults w; deals_channel := deals_channel w;
     send_faults := fs; delivered := delivered w; clock := clock w;
     trace := trace w |}.

Definition add_delivered (e : embed) (w : world) : world :=
  {| deals_coll := deals_coll w; next_oid := next_oid w;
     store_faults := store_faults w; deals_channel := deals_channel w;
     send_faults := send_faults w; delivered := delivered w ++ [e];
     clock := clock w; trace := trace w |}.

Definition add_event (ev : event) (w : world) : world :=
  {| deals_coll := deals_coll w; next_oid := next_oid w;
     store_faults := store_faults w; deals_channel := deals_channel w;
     send_faults := send_faults w; delivered := delivered w;
     clock := clock w; trace := trace w ++ [ev] |}.

Definition advance_clock (ms : Z) (w : world) : world :=
  {| deals_coll := deals_coll w; next_oid := next_oid w;
     store_faults := store_faults w; deals_channel := deals_channel w;
     send_faults := send_faults w; delivered := delivered w;
     clock := clock w + ms; trace := trace w |}.

(** ** State and exceptions *)

Definition M (A : Type) : Type := world → outcome A * world.

Definition ret {A} (a : A) : M A := λ w, (Ret a, w).
Definition raise {A} (e : exn) : M A := λ w, (Raise e, w).

Definition bind {A B} (m : M A) (k : A → M B) : M B :=
  λ w, match m w with
       | (Ret a, w') => k a w'
       | (Raise e, w') => (Raise e, w')
       end.

(** [try: m except Exception as exc: h exc] *)
Definition try_except {A} (m : M A) (h : exn → M A) : M A :=
  λ w, match m w with
       | (Ret a, w') => (Ret a, w')
       | (Raise e, w') => h e w'
       end.

Notation "x <-- m ;; k" := (bind m (λ x, k))
  (at level 100, m at next level, right associativity,
   format "'[v' x  <--  m  ;;  '/' k ']'").
Notation "m ;;; k" := (bind m (λ _, k))
  (at level 100, right associativity).

Definition lift {A} (o : outcome A) : M A := λ w, (o, w).

Definition log (m : log_msg) : M unit := λ w, (Ret tt, add_event (Log m) w).

(** [await asyncio.sleep(ms / 1000)] *)
Definition sleep (ms : Z) : M unit :=
  λ w, (Ret tt, advance_clock ms (add_event (Sleep ms) w)).

(** [datetime.now(timezone.utc)] *)
Definition now : M Z := λ w, (Ret (clock w), w).

(** ** The [deals] collection

    The store is MongoDB, reached through [find_one], [insert_one] and
    [update_one].  A call may fail as a whole ([store_faults]); a failed call
    leaves the collection as it was. *)

Definition store_call : M unit :=
  λ w, let w' := set_store_faults (tail (store_faults w)) w in
       match head (store_faults w) with
       | Some true => (Raise StoreError, w')
       | _ => (Ret tt, w')
       end.

(** A document matches a query when it carries every queried field with the
    queried value. *)
Definition matches (query : deal) (doc : deal) : bool :=
  bool_decide (query ⊆ doc).

(** [find_one(query)]: the first matching document, or [None]. *)
Definition find_one (query : deal) : M (option deal) :=
  store_call ;;;
  λ w, (Ret (List.find (matches query) (deals_coll w)), w).

Definition has_id (id : value) (doc : deal) : bool :=
  bool_decide (doc !! "_id" = Some id).

(** [insert_one(document)]: the document is appended, under a fresh
    [ObjectId] unless it brings its own [_id], which must then be unused. *)
Definition insert_one (document : deal) : M unit :=
  store_call ;;;
  λ w, match document !! "_id" with
       | None =>
           (Ret tt,
            set_deals_coll
              (deals_coll w ++ [<["_id" := VOid (next_oid w)]> document])
              (S (next_oid w)) w)
       | Some id =>
           if existsb (has_id id) (deals_coll w)
           then (Raise StoreError, w)
           else (Ret tt,
                 set_deals_coll (deals_coll w ++ [document])
                   (match id with
                    | VOid n => Nat.max (next_oid w) (S n)
                    | _ => next_oid w
                    end) w)
       end.

(** [$set]: the fields of [upd] are written over those of the first document
    whose [_id] is [id]. *)
Fixpoint set_first (id : value) (upd : deal) (docs : list deal) : list deal :=
  match docs with
  | [] => []
  | d :: ds =>
      if has_id id d then (upd ∪ d) :: ds else d :: set_first id upd ds
  end.

(** [update_one({"_id": id}, {"$set": upd})].  A matched document whose
    [_id] the update would change is a write error. *)
Definition update_one (id : value) (upd : deal) : M unit :=
  store_call ;;;
  λ w, if existsb (has_id id) (deals_coll w) then
         match upd !! "_id" with
         | Some id' =>
             if decide (id' = id)
             then (Ret tt,
                   set_deals_coll (set_first id upd (deals_coll w))
                     (next_oid w) w)
             else (Raise StoreError, w)
         | None =>
             (Ret tt,
              set_deals_coll (set_first id upd (deals_coll w))
                (next_oid w) w)
         end
       else (Ret tt, w).

(** ** [process_deal] *)

(** [d[k]] *)
Definition py_index (d : deal) (k : string) : M value :=
  match d !! k with
  | Some v => ret v
  | None => raise KeyError
  end.

(** The query built from [asin] and, when truthy, [marketplace_id] and
    [site]. *)
Definition build_query (asin marketplace_id site_name : value) : deal :=
  let query : deal := {["asin" := asin]} in
  let query :=
    if truthy marketplace_id
    then <["marketplace_id" := marketplace_id]> query else query in
  if truthy site_name then <["site" := site_name]> query else query.

(** [if existing]: found, and not an empty document. *)
Definition doc_truthy (existing : option deal) : bool :=
  match existing with
  | Some d => negb (bool_decide (d = ∅))
  | None => false
  end.

(** [categories.add(label)].  Labels are strings; a list is unhashable and a
    [datetime] or [ObjectId] does not order against a [str] in [sorted], so
    any other truthy label is a [TypeError]. *)
Definition add_label (label : value) (categories : gset string)
  : outcome (gset string) :=
  match label with
  | VStr s => Ret ({[s]} ∪ categories)
  | _ => Raise TypeError
  end.

Definition fields_to_watch : list string := ["current_price"].

(** The loop over [fields_to_watch]. *)
Definition diff_watched (existing d : deal) : gmap string (value * value) :=
  foldl (λ changed field,
           let old_value := py_get existing field in
           let new_value := py_get d field in
           if decide (old_value ≠ new_value)
           then <[field := (old_value, new_value)]> changed
           else changed)
        ∅ fields_to_watch.

Definition process_deal (d : deal) : M (option DealChange * bool) :=
  let marketplace_id := py_get d "marketplace_id" in
  let site_name := py_get d "site" in
  asin <-- py_index d "asin" ;;
  let query := build_query asin marketplace_id site_name in
  existing <-- find_one query ;;
  now_ <-- now ;;
  categories <--
    (if doc_truthy existing
     then lift (py_set (py_get_default (default ∅ existing) "categories"
                          (VList [])))
     else ret ∅) ;;
  let direct_category := py_get d "category" in
  categories <--
    (if truthy direct_category
     then lift (add_label direct_category categories)
     else ret categories) ;;
  let extra_categories := py_get_default d "categories" (VList []) in
  let categories :=
    match extra_categories with
    | VList l => categories ∪ list_to_set l
    | _ => categories
    end in
  let document : deal :=
    <["last_seen" := VTime now_]>
      (<["categories" := VList (py_sorted categories)]> d) in
  if negb (doc_truthy existing) then
    let document := <["first_seen" := VTime now_]> document in
    insert_one document ;;;
    ret (Some {| change_type := "New deal"; changed_fields := ∅ |}, true)
  else
    let existing := default ∅ existing in
    let changed := diff_watched existing d in
    id <-- py_index existing "_id" ;;
    update_one id document ;;;
    if negb (bool_decide (changed = ∅))
    then ret (Some {| change_type := "Updated deal";
                      changed_fields := changed |}, false)
    else ret (None, false).

(** ** [notify_change] *)

(** [await self.deals_channel.send(embed=embed)] *)
Definition send (e : embed) : M unit :=
  λ w, let w' := set_send_faults (tail (send_faults w)) w in
       match head (send_faults w) with
       | Some (Some err) => (Raise err, add_event (SendAttempt e (Some err)) w')
       | _ => (Ret tt, add_event (SendAttempt e None) (add_delivered e w'))
       end.

Definition channel_ready : M bool := λ w, (Ret (deals_channel w), w).

Definition notify_change (d : deal) (change : DealChange) : M unit :=
  ready <-- channel_ready ;;
  if negb ready then log ChannelNotReady
  else
    let e := {| embed_deal := d; embed_change := change |} in
    try_except (send e)
      (λ exc,
         match exc with
         | HTTPException status =>
             if decide (status = 429)
             then log RateLimited ;;; sleep 5000 ;;; send e
             else raise exc
         | _ => raise exc
         end) ;;;
    sleep 500.

(** ** The run accumulator [collected] *)

Abbreviation collected_t := (list (string * deal)).

(** [collected.get(key)] *)
Fixpoint alist_get (key : string) (c : collected_t) : option deal :=
  match c with
  | [] => None
  | (k, v) :: c' => if decide (k = key) then Some v else alist_get key c'
  end.

(** [collected[key] = v]: a known key keeps its place, a new one goes last. *)
Fixpoint alist_set (key : string) (v : deal) (c : collected_t) : collected_t :=
  match c with
  | [] => [(key, v)]
  | (k, v') :: c' =>
      if decide (k = key) then (k, v) :: c' else (k, v') :: alist_set key v c'
  end.

(** [f"{marketplace_id}:{site_name}:{asin}"] *)
Definition deal_key (marketplace_id site_name asin : string) : string :=
  marketplace_id +:+ ":" +:+ site_name +:+ ":" +:+ asin.

(** [not asin or asin == "N/A"] *)
Definition asin_missing (asin : option string) : bool :=
  match asin with
  | None => true
  | Some a => String.eqb a EmptyString || String.eqb a NA
  end.

(** The loop over [deal.items()] that refreshes a stored entry. *)
Definition refresh_fields (d : raw_deal) (stored : deal) : deal :=
  map_fold (λ field value stored,
              if decide (field = "categories") then stored
              else if present value then <[field := VStr value]> stored
              else stored)
           stored d.

(** The entry made at the first sighting of a key. *)
Definition deal_copy (marketplace_id site_name base_url category_name : string)
    (d : raw_deal) : deal :=
  <["base_url" := VStr base_url]>
    (<["site" := VStr site_name]>
       (<["marketplace_id" := VStr marketplace_id]>
          (<["categories" := VList [category_name]]> (VStr <$> d)))).

(** The body of [for deal in scraper.deals]. *)
Definition merge_listing (marketplace_id site_name base_url : string)
    (d : raw_deal) (collected : collected_t) : outcome collected_t :=
  let asin := d !! "asin" in
  if asin_missing asin then Ret collected
  else
    let key := deal_key marketplace_id site_name (default EmptyString asin) in
    let stored := alist_get key collected in
    let category_name := default "Unknown" (d !! "category") in
    if doc_truthy stored then
      let stored := default ∅ stored in
      match py_set (py_get_default stored "categories" (VList [])) with
      | Raise e => Raise e
      | Ret categories_set =>
          let categories_set := {[category_name]} ∪ categories_set in
          let stored :=
            <["categories" := VList (py_sorted categories_set)]> stored in
          Ret (alist_set key (refresh_fields d stored) collected)
      end
    else
      Ret (alist_set key
             (deal_copy marketplace_id site_name base_url category_name d)
             collected).

Fixpoint merge_deals (marketplace_id site_name base_url : string)
    (deals : list raw_deal) (collected : collected_t) : outcome collected_t :=
  match deals with
  | [] => Ret collected
  | d :: deals' =>
      match merge_listing marketplace_id site_name base_url d collected with
      | Raise e => Raise e
      | Ret collected' =>
          merge_deals marketplace_id site_name base_url deals' collected'
      end
  end.

(** ** [scrape_and_process] *)

(** A site of the configuration, after [normalize_config]. *)
Record site := {
  name : string;
  base_url : string;
  marketplace_id : string;
  categories : list string;
  scrape_all : bool;
}.

(** [AmazonDealsScraper.CATEGORIES] *)
Definition CATEGORIES : list string :=
  [ "Featured Deals"; "Trending Deals"; "Lightning Deals"; "Deals under 20€";
    "Amazon Devices"; "Prime Exclusive"; "Computer & Software";
    "TV, Movies & Home Cinema"; "Fashion, Shoes & Bags"; "Home & Kitchen";
    "Phone & Accessories"; "Personal Care & Grooming";
    "Headphones, Speakers & Music"; "Sports & Fitness";
    "Gaming & Accessories"; "Pet products"; "Beauty"; "DIY & Tools"; "Toys";
    "Baby"; "Office & School Supplies"; "Cameras"; "Food & Drinks";
    "Watches & Jewellery"; "Furniture"; "Luggage & Backpack";
    "Car & Motorbike"; "Garden & Outdoors"; "Books"; "Vouchers"; "Outlet" ].

(** The scraper is an outside collaborator: for a category of a site it
    either leaves its deals in [scraper.deals] or raises, and within one
    cycle it answers the same way each time.  Arguments are in the order of
    the constructor call: category, marketplace id, base URL, site name. *)
Definition scraper : Type :=
  string → string → string → string → outcome (list raw_deal).

(** The body of [for idx, category in enumerate(categories, start=1)]. *)
Definition scrape_category (web : scraper) (s : site) (category : string)
    (collected : collected_t) : M collected_t :=
  match web category (marketplace_id s) (base_url s) (name s) with
  | Raise exc =>
      log (ScrapeFailed (name s) category) ;;;
      ret collected
  | Ret deals =>
      collected <--
        lift (merge_deals (marketplace_id s) (name s) (base_url s)
                deals collected) ;;
      sleep 2000 ;;;
      ret collected
  end.

Fixpoint scrape_categories (web : scraper) (s : site)
    (cats : list string) (collected : collected_t) : M collected_t :=
  match cats with
  | [] => ret collected
  | category :: cats' =>
      collected <-- scrape_category web s category collected ;;
      scrape_categories web s cats' collected
  end.

(** The categories to visit on a site. *)
Definition site_categories (s : site) : list string :=
  if scrape_all s then CATEGORIES else categories s.

(** The body of [for site_idx, site in enumerate(sites, start=1)]. *)
Definition scrape_site (web : scraper) (s : site) (collected : collected_t)
  : M collected_t :=
  match site_categories s with
  | [] => log (NoCategoriesConfigured (name s)) ;;; ret collected
  | cats => scrape_categories web s cats collected
  end.

Fixpoint scrape_sites (web : scraper) (sites : list site)
    (collected : collected_t) : M collected_t :=
  match sites with
  | [] => ret collected
  | s :: sites' =>
      collected <-- scrape_site web s collected ;;
      scrape_sites web sites' collected
  end.

Abbreviation notifications_t := (list (deal * DealChange)).

(** The loop [for deal in collected.values()]: a deal whose processing
    raises is logged and passed over.  The tally of new deals per site feeds
    info-level logging alone and is left out. *)
Fixpoint process_deals (deals : list deal) (notifications : notifications_t)
  : M notifications_t :=
  match deals with
  | [] => ret notifications
  | d :: deals' =>
      r <-- try_except
              (r <-- process_deal d ;; ret (Some r))
              (λ exc, log (ProcessFailed (py_get d "asin") exc) ;;;
                      ret None) ;;
      match r with
      | None => process_deals deals' notifications
      | Some (change, is_new) =>
          match change with
          | Some ch => process_deals deals' (notifications ++ [(d, ch)])
          | None => process_deals deals' notifications
          end
      end
  end.

(** The loop [for deal, change in notifications]. *)
Fixpoint notify_all (notifications : notifications_t) : M unit :=
  match notifications with
  | [] => ret tt
  | (d, change) :: rest => notify_change d change ;;; notify_all rest
  end.

Definition scrape_and_process (web : scraper) (sites : list site) : M unit :=
  match sites with
  | [] => log NoSitesConfigured
  | _ =>
      collected <-- scrape_sites web sites [] ;;
      match collected with
      | [] => ret tt
      | _ =>
          notifications <-- process_deals (collected.*2) [] ;;
          match notifications with
          | [] => ret tt
          | _ => notify_all notifications
          end
      end
  end.

(** ** The sightings of a cycle *)

(** One sighting: a scraped deal with the site it was scraped on. *)
Record observation := {
  obs_marketplace_id : string;
  obs_site_name : string;
  obs_base_url : string;
  obs_deal : raw_deal;
}.

Definition observe (o : observation) (collected : collected_t)
  : outcome collected_t :=
  merge_listing (obs_marketplace_id o) (obs_site_name o) (obs_base_url o)
    (obs_deal o) collected.

(** The accumulator after a run of sightings, taken in order. *)
Fixpoint aggregate (obs : list observation) (collected : collected_t)
  : outcome collected_t :=
  match obs with
  | [] => Ret collected
  | o :: obs' =>
      match observe o collected with
      | Raise e => Raise e
      | Ret collected' => aggregate obs' collected'
      end
  end.

(** The key a sighting is filed under; none when its [asin] is unusable. *)
Definition obs_key (o : observation) : option string :=
  let asin := obs_deal o !! "asin" in
  if asin_missing asin then None
  else Some (deal_key (obs_marketplace_id o) (obs_site_name o)
               (default EmptyString asin)).

(** The category label a sighting contributes. *)
Definition obs_category (o : observation) : string :=
  default "Unknown" (obs_deal o !! "category").

(** The identity of a sighting: marketplace, site and item. *)
Definition obs_triple (o : observation) : string * string * option string :=
  (obs_marketplace_id o, obs_site_name o, obs_deal o !! "asin").

(** The sightings with key [k], in order. *)
Definition sightings (k : string) (obs : list observation)
  : list observation :=
  filter (λ o, obs_key o = Some k) obs.

(** The labels held by an entry's [categories] list. *)
Definition label_set (stored : deal) : gset string :=
  match stored !! "categories" with
  | Some (VList l) => list_to_set l
  | _ => ∅
  end.

Definition opt_label_set (e : option deal) : gset string :=
  from_option label_set ∅ e.

(** What one sighting makes of the entry under its key. *)
Definition entry_merge (stored : option deal) (o : observation) : deal :=
  match stored with
  | Some st =>
      refresh_fields (obs_deal o)
        (<["categories" :=
             VList (py_sorted ({[obs_category o]} ∪ label_set st))]> st)
  | None =>
      deal_copy (obs_marketplace_id o) (obs_site_name o) (obs_base_url o)
        (obs_category o) (obs_deal o)
  end.

Definition entry_fold (stored : option deal) (os : list observation)
  : option deal :=
  foldl (λ e o, Some (entry_merge e o)) stored os.

(** The fields the first sighting takes from the site, not from the deal. *)
Definition stamped_fields : list string :=
  ["categories"; "marketplace_id"; "site"; "base_url"].

(** The latest present value of field [f] in a run of scraped deals. *)
Definition last_present (f : string) (ds : list raw_deal) : option string :=
  foldl (λ acc d,
           match d !! f with
           | Some v => if present v then Some v else acc
           | None => acc
           end)
        None ds.

(** The sightings a cycle feeds to the accumulator: those of every scrape
    that did not fail, site by site and category by category. *)
Definition observed_category (web : scraper) (s : site) (category : string)
  : list observation :=
  match web category (marketplace_id s) (base_url s) (name s) with
  | Ret deals =>
      (λ d, {| obs_marketplace_id := marketplace_id s;
               obs_site_name := name s;
               obs_base_url := base_url s;
               obs_deal := d |}) <$> deals
  | Raise _ => []
  end.

Definition observed_site (web : scraper) (s : site) : list observation :=
  site_categories s ≫= observed_category web s.

Definition observed (web : scraper) (sites : list site) : list observation :=
  sites ≫= observed_site web.

(** Every entry of the accumulator lists its categories. *)
Definition agg_wf (c : collected_t) : Prop :=
  ∀ k e, alist_get k c = Some e → ∃ l, e !! "categories" = Some (VList l).

(** The [categories] value of the entry under key [k], if there is one. *)
Definition entry_categories (c : collected_t) (k : string) : option value :=
  alist_get k c ≫= (.!! "categories").

(** The value of field [f] of the entry under key [k]. *)
Definition entry_field (r : outcome collected_t) (k f : string)
  : option value :=
  match r with
  | Ret c => alist_get k c ≫= (.!! f)
  | Raise _ => None
  end.

(** [s] holds no colon. *)
Fixpoint no_colon (s : string) : bool :=
  match s with
  | EmptyString => true
  | String c s' => negb (Ascii.eqb c ":") && no_colon s'
  end.

(** ** What a reconciliation writes *)

(** None of the next [n] store calls fails. *)
Definition no_fault (n : nat) (w : world) : bool :=
  forallb negb (take n (store_faults w)).

(** The label [process_deal] takes from the deal's own [category]. *)
Definition direct_labels (d : deal) : gset string :=
  match py_get d "category" with
  | VStr s => if String.eqb s EmptyString then ∅ else {[s]}
  | _ => ∅
  end.

(** The deal's [category] is a string, or falsy. *)
Definition label_ok (d : deal) : bool :=
  match py_get d "category" with
  | VStr _ => true
  | v => negb (truthy v)
  end.

(** The document built from a deal, the reconciled labels and the time. *)
Definition new_document (d : deal) (labels : gset string) (t : Z) : deal :=
  <["last_seen" := VTime t]> (<["categories" := VList (py_sorted labels)]> d).

Definition deal_query (d : deal) (asin : value) : deal :=
  build_query asin (py_get d "marketplace_id") (py_get d "site").

(** The store lookup [process_deal] makes for a deal. *)
Definition lookup_deal (d : deal) (w : world) : option deal :=
  match d !! "asin" with
  | Some asin => List.find (matches (deal_query d asin)) (deals_coll w)
  | None => None
  end.

(** The change computed for a stored document and a deal. *)
Definition detect_change (existing d : deal) : option DealChange :=
  let changed := diff_watched existing d in
  if negb (bool_decide (changed = ∅))
  then Some {| change_type := "Updated deal"; changed_fields := changed |}
  else None.

(** The labels a reconciliation writes: the deal's own category, those
    already stored, and the deal's category list. *)
Definition reconciled_labels (d : deal) (stored : gset string) : gset string :=
  direct_labels d ∪ stored ∪ label_set d.

(** The record a reconciliation leaves for a stored document: the fields of
    the new document written over the stored ones. *)
Definition reconciled (d existing : deal) (t : Z) : deal :=
  new_document d (label_set existing ∪ label_set d) t ∪ existing.

(** What the accumulator guarantees of each of its entries: an [asin], and a
    sorted duplicate-free [categories] list that holds the entry's own
    [category]. *)
Definition aggregated_listing (d : deal) : Prop :=
  ∃ l, d !! "categories" = Some (VList l) ∧
       py_sorted (list_to_set l) = l ∧
       direct_labels d ⊆ list_to_set l ∧
       label_ok d = true ∧
       is_Some (d !! "asin").

(** The fields [process_deal] sets itself when it creates a record. *)
Definition record_fields : list string :=
  ["categories"; "last_seen"; "first_seen"; "_id"].

(** Two worlds that differ at most in the store and its fault schedule. *)
Definition same_outside_store (w w' : world) : Prop :=
  deals_channel w' = deals_channel w ∧ send_faults w' = send_faults w ∧
  delivered w' = delivered w ∧ clock w' = clock w ∧ trace w' = trace w.

(** ** The store as the bot keeps it *)

(** What MongoDB and [process_deal] guarantee of the collection: [_id]s are
    present and unique, generated ones lie below [next_oid], and every
    document lists its categories. *)
Definition store_wf (w : world) : Prop :=
  NoDup ((.!! "_id") <$> deals_coll w) ∧
  (∀ doc, doc ∈ deals_coll w →
     is_Some (doc !! "_id") ∧ ∃ l, doc !! "categories" = Some (VList l)) ∧
  (∀ doc n, doc ∈ deals_coll w → doc !! "_id" = Some (VOid n) →
     (n < next_oid w)%nat).

(** From [w] to [w'] every document is still there, at its place and under
    its [_id], with at least the categories it had. *)
Definition store_grows (w w' : world) : Prop :=
  store_wf w →
  store_wf w' ∧
  ∀ i doc, deals_coll w !! i = Some doc →
    ∃ doc', deals_coll w' !! i = Some doc' ∧
            doc' !! "_id" = doc !! "_id" ∧
            label_set doc ⊆ label_set doc'.

(** The store is the same in both worlds. *)
Definition same_store (w w' : world) : Prop :=
  deals_coll w' = deals_coll w ∧ next_oid w' = next_oid w.

(** [Q] holds of the outcome and final world of running [m] from [w]. *)
Definition post {A} (m : M A) (w : world) (Q : outcome A → world → Prop)
  : Prop :=
  Q (m w).1 (m w).2.

(** A computation that leaves the store alone, however it ends. *)
Definition keeps_store {A} (m : M A) : Prop := ∀ w, same_store w (m w).2.

(** A computation that leaves the channel and its coming answers alone. *)
Definition keeps_channel {A} (m : M A) : Prop :=
  ∀ w, send_faults (m w).2 = send_faults w ∧
       deals_channel (m w).2 = deals_channel w.

(** A computation under which the store only grows, however it ends. *)
Definition grows_store {A} (m : M A) : Prop := ∀ w, store_grows w (m w).2.

(** Between two cycles the surroundings may change: what the store and the
    channel will do next, whether the channel is there, and the time. *)
Definition rearm (store_fs : list bool) (send_fs : list (option exn))
    (channel : bool) (t : Z) (w : world) : world :=
  {| deals_coll := deals_coll w; next_oid := next_oid w;
     store_faults := store_fs; deals_channel := channel;
     send_faults := send_fs; delivered := delivered w; clock := t;
     trace := trace w |}.

(** [w'] is reached from [w] by some number of cycles. *)
Inductive after_cycles : world → world → Prop :=
  | no_cycle w : after_cycles w w
  | one_more_cycle w w1 w2 store_fs send_fs channel t web sites r :
      after_cycles w w1 →
      scrape_and_process web sites (rearm store_fs send_fs channel t w1)
        = (r, w2) →
      after_cycles w w2.

(** ** Reading a world *)

(** The log records of a world, oldest first. *)
Definition logged (w : world) : list log_msg :=
  omap (λ ev, match ev with Log m => Some m | _ => None end) (trace w).

(** The [asin]s of the stored documents and of the delivered embeds. *)
Definition stored_asins (w : world) : list value :=
  (λ doc, py_get doc "asin") <$> deals_coll w.

Definition delivered_asins (w : world) : list value :=
  (λ e, py_get (embed_deal e) "asin") <$> delivered w.

(** ** Sample data *)

Module Sample.

Definition spain : site :=
  {| name := "Amazon Spain";
     base_url := "https://www.amazon.es/-/en/deals";
     marketplace_id := "A1RKKUPIHCS9HS";
     categories := ["Beauty"; "Books"; "Gaming"];
     scrape_all := false |}.

Definition listing (asin category price : string) : raw_deal :=
  {[ "asin" := asin; "category" := category; "current_price" := price;
     "title" := "Item " +:+ asin ]}.

Definition sighting (asin category price : string) : observation :=
  {| obs_marketplace_id := marketplace_id spain;
     obs_site_name := name spain;
     obs_base_url := base_url spain;
     obs_deal := listing asin category price |}.

Definition key_of (asin : string) : string :=
  deal_key (marketplace_id spain) (name spain) asin.

Definition world0 : world :=
  {| deals_coll := []; next_oid := 0; store_faults := [];
     deals_channel := true; send_faults := []; delivered := [];
     clock := 1000; trace := [] |}.

End Sample.

Module Scenario.

(** A deal as the accumulator hands it to [process_deal]. *)
Definition aggregated (asin price : string) (labels : list string) : deal :=
  {[ "asin" := VStr asin; "category" := VStr "Beauty";
     "current_price" := VStr price; "title" := VStr "Item";
     "categories" := VList labels;
     "marketplace_id" := VStr "A1RKKUPIHCS9HS";
     "site" := VStr "Amazon Spain";
     "base_url" := VStr "https://www.amazon.es/-/en/deals" ]}.

(** The document stored for it at time 400. *)
Definition stored (oid : nat) (asin price : string) (labels : list string)
  : deal :=
  <["_id" := VOid oid]>
    (<["first_seen" := VTime 400]>
       (<["last_seen" := VTime 400]> (aggregated asin price labels))).

Definition world_with (docs : list deal) : world :=
  {| deals_coll := docs; next_oid := length docs; store_faults := [];
     deals_channel := true; send_faults := []; delivered := [];
     clock := 1000; trace := [] |}.

(** The document now stored under the given [_id]. *)
Definition stored_field (r : outcome (option DealChange * bool) * world)
    (oid : nat) (f : string) : option value :=
  List.find (has_id (VOid oid)) (deals_coll r.2) ≫= (.!! f).

End Scenario.

Module Cycle.

(** A site on which "Beauty" shows deal "A", "Gaming" shows deal "B" and
    the scrape of "Books" fails. *)
Definition web : scraper :=
  λ category _ _ _,
    if String.eqb category "Beauty"
    then Ret [Sample.listing "A" "Beauty" "10.00"]
    else if String.eqb category "Books" then Raise OtherError
    else if String.eqb category "Gaming"
    then Ret [Sample.listing "B" "Gaming" "20.00"]
    else Ret [].

(** The same site with nothing failing. *)
Definition calm_web : scraper :=
  λ category _ _ _,
    if String.eqb category "Beauty"
    then Ret [Sample.listing "A" "Beauty" "10.00"]
    else if String.eqb category "Gaming"
    then Ret [Sample.listing "B" "Gaming" "20.00"]
    else Ret [].

Definition world_faulty (store_fs : list bool)
    (send_fs : list (option exn)) : world :=
  {| deals_coll := []; next_oid := 0; store_faults := store_fs;
     deals_channel := true; send_faults := send_fs; delivered := [];
     clock := 1000; trace := [] |}.

End Cycle.

Module Collision.

(** Two sightings of different identity whose keys read the same. *)
Definition left_colon : observation :=
  {| obs_marketplace_id := "A"; obs_site_name := "B:C";
     obs_base_url := "https://www.amazon.es/-/en/deals";
     obs_deal := Sample.listing "X" "Beauty" "10.00" |}.

Definition right_colon : observation :=
  {| obs_marketplace_id := "A:B"; obs_site_name := "C";
     obs_base_url := "https://www.amazon.es/-/en/deals";
     obs_deal := Sample.listing "X" "Gaming" "20.00" |}.

End Collision.

(** ** Decoded JSON *)

(** What [json.load] and [response.json()] return: [None], a [bool], an
    [int], a [float], a [str], a list, or a dict with string keys. *)
#[warnings="-register-all"]
Inductive json :=
  | JNull
  | JBool (b : bool)
  | JInt (z : Z)
  | JFloat (f : float)
  | JStr (s : string)
  | JArr (l : list json)
  | JObj (m : gmap string json).

(** Python truthiness of a decoded value. *)
Definition jtruthy (v : json) : bool :=
  match v with
  | JNull => false
  | JBool b => b
  | JInt z => negb (Z.eqb z 0)
  | JFloat f => negb (PrimFloat.eqb f 0)
  | JStr s => negb (String.eqb s EmptyString)
  | JArr l => match l with [] => false | _ => true end
  | JObj m => negb (bool_decide (dom m = ∅))
  end.

(** [x or y] *)
Definition py_or (x y : json) : json := if jtruthy x then x else y.

(** ** [normalize_config] *)

Definition DEFAULT_BASE_URL : string := "https://www.amazon.es/-/en/deals".
Definition DEFAULT_MARKETPLACE_ID : string := "A1RKKUPIHCS9HS".

(** [DEFAULT_CONFIG["sites"][0]["categories"]] *)
Definition DEFAULT_CATEGORIES : json :=
  JArr [JStr "Beauty"; JStr "Computer & Software";
        JStr "Gaming & Accessories"].

Definition DEFAULT_CONFIG : json :=
  JObj {[ "sites" :=
    JArr [JObj {[ "name" := JStr "Amazon Spain";
                  "base_url" := JStr DEFAULT_BASE_URL;
                  "marketplace_id" := JStr DEFAULT_MARKETPLACE_ID;
                  "categories" := DEFAULT_CATEGORIES;
                  "scrape_all" := JBool false ]}] ]}.

(** The single site built from a configuration without a usable site list. *)
Definition fallback_site (data : gmap string json) : json :=
  JObj {[ "name" := default (JStr "Amazon Spain") (data !! "name");
          "base_url" := default (JStr DEFAULT_BASE_URL) (data !! "base_url");
          "marketplace_id" :=
            default (JStr DEFAULT_MARKETPLACE_ID) (data !! "marketplace_id");
          "categories" := default DEFAULT_CATEGORIES (data !! "categories");
          "scrape_all" := default (JBool false) (data !! "scrape_all") ]}.

(** The dict appended for one site of the list. *)
Definition normalize_site (site : gmap string json) : json :=
  JObj {[ "name" := py_or (default JNull (site !! "name")) (JStr "Amazon Site");
          "base_url" := default (JStr DEFAULT_BASE_URL) (site !! "base_url");
          "marketplace_id" :=
            default (JStr DEFAULT_MARKETPLACE_ID) (site !! "marketplace_id");
          "categories" := default DEFAULT_CATEGORIES (site !! "categories");
          "scrape_all" := default (JBool false) (site !! "scrape_all") ]}.

(** The loop over [sites]: entries that are not dicts are passed over. *)
Definition normalize_sites (sites : list json) : list json :=
  omap (λ site, match site with
                | JObj m => Some (normalize_site m)
                | _ => None
                end) sites.

Definition normalize_config (data : json) : json :=
  match data with
  | JObj d =>
      match default JNull (d !! "sites") with
      | JArr ((_ :: _) as sites) =>
          match normalize_sites sites with
          | [] => DEFAULT_CONFIG
          | normalized_sites => JObj {[ "sites" := JArr normalized_sites ]}
          end
      | _ => JObj {[ "sites" := JArr [fallback_site d] ]}
      end
  | _ => DEFAULT_CONFIG
  end.

(** The keys every site of a normalized configuration carries. *)
Definition site_keys : gset string :=
  {[ "name"; "base_url"; "marketplace_id"; "categories"; "scrape_all" ]}.

(** A site dict with exactly the five keys. *)
Definition is_site (v : json) : Prop :=
  ∃ m, v = JObj m ∧ dom m = site_keys.

(** The [name] of a site dict is truthy. *)
Definition named (v : json) : Prop :=
  ∃ m n, v = JObj m ∧ m !! "name" = Some n ∧ jtruthy n = true.

(** ** [ensure_env_vars] *)

(** [not value] on what [os.getenv] returned. *)
Definition env_unset (value : option string) : bool :=
  match value with
  | None => true
  | Some s => String.eqb s EmptyString
  end.

(** [ensure_env_vars], on the environment left by [load_dotenv].  The result
    is the returned tuple, or the message of the [RuntimeError] raised.
    [py_int] is Python's [int] on a string, [None] for a [ValueError]. *)
Definition ensure_env_vars (py_int : string → option Z)
    (env : gmap string string) : string + (string * Z * string * string) :=
  let token := env !! "DISCORD_TOKEN" in
  let channel_id_raw := env !! "DISCORD_CHANNEL_ID" in
  let mongo_uri := env !! "MONGODB_URI" in
  let mongo_db := default "amazon_deals" (env !! "MONGODB_DB") in
  let missing :=
    omap (λ '(name, value), if env_unset value then Some name else None)
      [("DISCORD_TOKEN", token); ("DISCORD_CHANNEL_ID", channel_id_raw);
       ("MONGODB_URI", mongo_uri)] in
  match missing with
  | _ :: _ =>
      inl ("Missing required environment variables: " +:+
           String.concat ", " missing)
  | [] =>
      match py_int (default EmptyString channel_id_raw) with
      | None => inl "DISCORD_CHANNEL_ID must be an integer"
      | Some channel_id =>
          inr (default EmptyString token, channel_id,
               default EmptyString mongo_uri, mongo_db)
      end
  end.

(** ** [AmazonDealsScraper]: hosts *)

(** [s[n:]] *)
Fixpoint str_drop (n : nat) (s : string) : string :=
  match n, s with
  | O, _ => s
  | S n', String _ s' => str_drop n' s'
  | S _, EmptyString => EmptyString
  end.

(** [s.replace(old, new, 1)]: the leftmost occurrence is replaced. *)
Fixpoint replace_first (old new s : string) : string :=
  if String.prefix old s then new +:+ str_drop (String.length old) s
  else match s with
       | EmptyString => EmptyString
       | String c s' => String c (replace_first old new s')
       end.

(** [x or dflt] on an optional string argument. *)
Definition str_or (x : option string) (dflt : string) : string :=
  match x with
  | Some s => if String.eqb s EmptyString then dflt else s
  | None => dflt
  end.

(** The host the promotions API is served from, for the lower-cased host of
    the deals page. *)
Definition api_host_of (host : string) : string :=
  if String.prefix "data." host then host
  else if String.prefix "www." host then "data." +:+ str_drop 4 host
  else "data." +:+ host.

(** [self.domain_host] *)
Definition domain_host_of (host : string) : string :=
  if negb (String.prefix "data." host) then host
  else replace_first "data." "www." host.

(** The attributes of a scraper and the deals it has gathered. *)
Record scraper_state := {
  sc_marketplace_id : string;
  sc_category : option string;
  sc_base_url : string;
  sc_domain_host : string;
  sc_site_name : string;
  sc_api_url : string;
  sc_deals : list (gmap string json);
}.

(** [AmazonDealsScraper.__init__].  [hostname] is [urlparse(url).hostname]
    and [lower] is [str.lower]. *)
Definition new_scraper (hostname : string → option string)
    (lower : string → string)
    (marketplace_id category base_url site_name : option string)
  : scraper_state :=
  let marketplace_id := str_or marketplace_id DEFAULT_MARKETPLACE_ID in
  let base_url := str_or base_url DEFAULT_BASE_URL in
  let host := lower (str_or (hostname base_url) "www.amazon.es") in
  let api_host := api_host_of host in
  let domain_host := domain_host_of host in
  {| sc_marketplace_id := marketplace_id;
     sc_category := category;
     sc_base_url := base_url;
     sc_domain_host := domain_host;
     sc_site_name := str_or site_name domain_host;
     sc_api_url :=
       "https://" +:+ api_host +:+ "/api/marketplaces/" +:+ marketplace_id
       +:+ "/promotions";
     sc_deals := [] |}.

(** ** [parse_promotion] *)

(** [v.get(k, dflt)]; an [AttributeError] unless [v] is a dict. *)
Definition jget (v : json) (k : string) (dflt : json) : option json :=
  match v with
  | JObj m => Some (default dflt (m !! k))
  | _ => None
  end.

(** [v[0]] on a truthy [v]: the first element of a list, the first character
    of a string, an error on anything else. *)
Definition jfirst (v : json) : option json :=
  match v with
  | JArr (x :: _) => Some x
  | JStr (String c _) => Some (JStr (String c EmptyString))
  | _ => None
  end.

(** [v == "N/A"] *)
Definition is_na (v : json) : bool :=
  match v with
  | JStr s => String.eqb s NA
  | _ => false
  end.

(** [price_info.get(key, {})] rendered as a price: "N/A" unless it is a dict
    with a truthy [moneyValueOrRange.value.amount]. *)
Definition price_text (py_str : json → string) (price_info : json)
    (key : string) : option string :=
  p ← jget price_info key (JObj ∅);
  match p with
  | JObj _ =>
      range ← jget p "moneyValueOrRange" (JObj ∅);
      value ← jget range "value" (JObj ∅);
      amount ← jget value "amount" JNull;
      Some (if jtruthy amount then "€" +:+ py_str amount else NA)
  | _ => Some NA
  end.

Definition discount_text (py_str : json → string) (price_info : json)
  : option string :=
  savings ← jget price_info "savings" (JObj ∅);
  match savings with
  | JObj _ =>
      percentage ← jget savings "percentage" (JObj ∅);
      value ← jget percentage "value" JNull;
      Some (if jtruthy value then py_str value +:+ "%" else NA)
  | _ => Some NA
  end.

(** The title: [title.entity.displayString] where both are dicts. *)
Definition title_text (title_data : json) : json :=
  match title_data with
  | JObj td =>
      match default (JObj ∅) (td !! "entity") with
      | JObj entity => default (JStr NA) (entity !! "displayString")
      | _ => JStr NA
      end
  | _ => JStr NA
  end.

(** The three price fields of the first buying option. *)
Definition pricing (py_str : json → string) (buying_options : json)
  : option (string * string * string) :=
  if jtruthy buying_options then
    first ← jfirst buying_options;
    price ← jget first "price" (JObj ∅);
    price_info ← jget price "entity" (JObj ∅);
    current_price ← price_text py_str price_info "priceToPay";
    original_price ← price_text py_str price_info "basisPrice";
    discount ← discount_text py_str price_info;
    Some (current_price, original_price, discount)
  else Some (NA, NA, NA).

(** The badge text of the first buying option. *)
Definition badge_text (buying_options : json) : option json :=
  if jtruthy buying_options then
    first ← jfirst buying_options;
    deal_badge ← jget first "dealBadge" (JObj ∅);
    match deal_badge with
    | JObj _ =>
        entity ← jget deal_badge "entity" (JObj ∅);
        label ← jget entity "label" (JObj ∅);
        match label with
        | JObj _ =>
            content ← jget label "content" (JObj ∅);
            fragments ← jget content "fragments" (JArr []);
            if jtruthy fragments
            then fragment ← jfirst fragments; jget fragment "text" (JStr NA)
            else Some (JStr NA)
        | _ => Some (JStr NA)
        end
    | _ => Some (JStr NA)
    end
  else Some (JStr NA).

Definition image_text (py_str : json → string) (product : json)
  : option string :=
  product_images ← jget product "productImages" (JObj ∅);
  entity ← jget product_images "entity" (JObj ∅);
  images ← jget entity "images" (JArr []);
  if jtruthy images then
    first ← jfirst images;
    low_res ← jget first "lowRes" (JObj ∅);
    image_id ← jget low_res "physicalId" JNull;
    Some (if jtruthy image_id
          then "https://m.media-amazon.com/images/I/" +:+ py_str image_id
               +:+ "._AC_SF226,226_QL85_.jpg"
          else NA)
  else Some NA.

(** The address of the product page, "N/A" when the [asin] is. *)
Definition product_url_text (py_str : json → string) (self : scraper_state)
    (asin : json) : string :=
  let product_host := str_or (Some (sc_domain_host self)) "www.amazon.es" in
  let product_url_base :=
    if negb (String.prefix "http" product_host)
    then "https://" +:+ product_host else product_host in
  if negb (is_na asin) then product_url_base +:+ "/dp/" +:+ py_str asin
  else NA.

(** [parse_promotion]: the deal read from one promotion, or [None] when
    anything in the [try] block raised.  [py_str] is the text an f-string
    gives for a value. *)
Definition parse_promotion (py_str : json → string) (self : scraper_state)
    (promo : json) : option (gmap string json) :=
  outer ← jget promo "product" (JObj ∅);
  product ← jget outer "entity" (JObj ∅);
  asin ← jget product "asin" (JStr NA);
  title_data ← jget product "title" (JObj ∅);
  buying_options ← jget product "buyingOptions" (JArr []);
  prices ← pricing py_str buying_options;
  deal_label ← badge_text buying_options;
  image_url ← image_text py_str product;
  brand_id ← jget promo "brandId" (JStr NA);
  Some {[ "title" := title_text title_data;
          "asin" := asin;
          "product_url" := JStr (product_url_text py_str self asin);
          "discount" := JStr prices.2;
          "current_price" := JStr prices.1.1;
          "original_price" := JStr prices.1.2;
          "deal_badge" := deal_label;
          "category" := JStr (str_or (sc_category self) "All Categories");
          "brand_id" := brand_id;
          "image_url" := JStr image_url;
          "marketplace_id" := JStr (sc_marketplace_id self);
          "site" := JStr (sc_site_name self);
          "base_url" := JStr (sc_base_url self) ]}.

(** The keys of a parsed deal. *)
Definition deal_keys : gset string :=
  {[ "title"; "asin"; "product_url"; "discount"; "current_price";
     "original_price"; "deal_badge"; "category"; "brand_id"; "image_url";
     "marketplace_id"; "site"; "base_url" ]}.


(** ** [intercept_api_calls] *)

(** [needle in s] on strings. *)
Fixpoint contains (needle s : string) : bool :=
  String.prefix needle s ||
  match s with
  | EmptyString => false
  | String _ s' => contains needle s'
  end.

(** [needle in v]: a key of a dict, an element of a list, a part of a
    string; a [TypeError] on anything else. *)
Definition py_contains (needle : string) (v : json) : option bool :=
  match v with
  | JObj m => Some (bool_decide (needle ∈ dom m))
  | JArr l =>
      Some (existsb (λ x, match x with
                          | JStr s => String.eqb s needle
                          | _ => false
                          end) l)
  | JStr s => Some (contains needle s)
  | _ => None
  end.

(** [v[key]] for a string key: only a dict holding the key answers. *)
Definition py_getitem (v : json) (key : string) : option json :=
  match v with
  | JObj m => m !! key
  | _ => None
  end.

(** What [len(v)] and [for x in v] accept: the elements of a list, the
    characters of a string, the keys of a dict. *)
Definition py_iter (v : json) : option (list json) :=
  match v with
  | JArr l => Some l
  | JStr s => Some (JStr <$> chars s)
  | JObj m => Some (JStr <$> (map_to_list m).*1)
  | _ => None
  end.

(** The deals read from the body of one response; [None] when the [try]
    block raised before its loop. *)
Definition intercepted (py_str : json → string) (self : scraper_state)
    (data : json) : option (list (gmap string json)) :=
  py_contains "entity" data ≫= λ has_entity : bool,
  if has_entity then
    entity ← py_getitem data "entity";
    py_contains "rankedPromotions" entity ≫= λ has_ranked : bool,
    if has_ranked then
      promotions ← py_getitem entity "rankedPromotions";
      py_iter promotions ≫= λ promos : list json,
      Some (omap (parse_promotion py_str self) promos)
    else Some []
  else Some [].

(** A response as the handler sees it: [body] is [None] when
    [response.json()] raises. *)
Record response := {
  resp_url : string;
  resp_status : Z;
  resp_body : option json;
}.

Definition with_deals (self : scraper_state) (deals : list (gmap string json))
  : scraper_state :=
  {| sc_marketplace_id := sc_marketplace_id self;
     sc_category := sc_category self;
     sc_base_url := sc_base_url self;
     sc_domain_host := sc_domain_host self;
     sc_site_name := sc_site_name self;
     sc_api_url := sc_api_url self;
     sc_deals := deals |}.

(** [handle_response] *)
Definition handle_response (py_str : json → string) (self : scraper_state)
    (r : response) : scraper_state :=
  if contains (sc_api_url self) (resp_url r) && (resp_status r =? 200) then
    match resp_body r ≫= intercepted py_str self with
    | Some deals => with_deals self (sc_deals self ++ deals)
    | None => self
    end
  else self.

(** ** [scrape]: the loading loop *)

(** The counters of the loop. *)
Record scroll := {
  page_num : nat;
  previous_count : nat;
  no_new_products_count : nat;
}.

Definition max_no_new_attempts : nat := 3.

(** [max_pages and page_num > max_pages] *)
Definition page_limit_hit (max_pages : option Z) (page_num : nat) : bool :=
  match max_pages with
  | Some m => negb (m =? 0) && (m <? Z.of_nat page_num)
  | None => false
  end.

(** One pass of the [while True] body once more deals were asked for, on the
    number of deals then gathered: the counters to go on with ([inl]), or
    those at the [break] ([inr]). *)
Definition scroll_step (max_pages : option Z) (current_count : nat)
    (s : scroll) : scroll + scroll :=
  let no_new :=
    if (current_count =? previous_count s)%nat
    then S (no_new_products_count s) else O in
  if (current_count =? previous_count s)%nat
     && (max_no_new_attempts <=? no_new)%nat
  then inr {| page_num := page_num s; previous_count := previous_count s;
              no_new_products_count := no_new |}
  else
    let s' := {| page_num := S (page_num s); previous_count := current_count;
                 no_new_products_count := no_new |} in
    if page_limit_hit max_pages (page_num s') then inr s' else inl s'.

(** The loop, at most [fuel] passes of it.  [count_at p] is [len(self.deals)]
    as read in the pass that starts with [page_num = p]. *)
Fixpoint scroll_loop (fuel : nat) (max_pages : option Z)
    (count_at : nat → nat) (s : scroll) : option scroll :=
  match fuel with
  | O => None
  | S fuel' =>
      match scroll_step max_pages (count_at (page_num s)) s with
      | inr s' => Some s'
      | inl s' => scroll_loop fuel' max_pages count_at s'
      end
  end.

(** The counters at the start of the loop. *)
Definition scroll_start (count : nat) : scroll :=
  {| page_num := 1; previous_count := count; no_new_products_count := 0 |}.

(** What a second normalization makes of a site: a falsy name becomes
    "Amazon Site". *)
Definition rename_site (v : json) : json :=
  match v with
  | JObj m =>
      JObj (<["name" := py_or (default JNull (m !! "name"))
                          (JStr "Amazon Site")]> m)
  | _ => v
  end.


(** A deal carries the identity of the scraper that read it. *)
Definition stamped (self : scraper_state) (deal : gmap string json) : Prop :=
  dom deal = deal_keys ∧
  deal !! "marketplace_id" = Some (JStr (sc_marketplace_id self)) ∧
  deal !! "site" = Some (JStr (sc_site_name self)) ∧
  deal !! "base_url" = Some (JStr (sc_base_url self)) ∧
  deal !! "category" =
    Some (JStr (str_or (sc_category self) "All Categories")).

(** The handler run on the responses of a page, in the order in which their
    bodies arrive. *)
Definition handle_responses (py_str : json → string) (self : scraper_state)
    (rs : list response) : scraper_state :=
  foldl (handle_response py_str) self rs.

(** A scraper for the default marketplace, one promotion as the API serves
    them, and the promotion that names no product. *)
Module Promo.
Definition self : scraper_state :=
  new_scraper (λ _, Some "www.amazon.es") id None (Some "Gaming") None None.

Definition py_str (v : json) : string :=
  match v with
  | JStr s => s
  | _ => "19.99"
  end.

Definition priced : json :=
  JObj {[ "brandId" := JStr "B1";
          "product" := JObj {[ "entity" := JObj {[
            "asin" := JStr "B0TEST";
            "title" := JObj {[ "entity" :=
                                 JObj {[ "displayString" := JStr "Mouse" ]} ]};
            "buyingOptions" := JArr [ JObj {[ "price" := JObj {[ "entity" :=
              JObj {[ "priceToPay" := JObj {[ "moneyValueOrRange" :=
                JObj {[ "value" :=
                          JObj {[ "amount" := JStr "19.99" ]} ]} ]} ]} ]} ]} ]
          ]} ]} ]}.

Definition priced_deal : gmap string json :=
  {[ "title" := JStr "Mouse"; "asin" := JStr "B0TEST";
     "product_url" := JStr "https://www.amazon.es/dp/B0TEST";
     "discount" := JStr "N/A"; "current_price" := JStr "€19.99";
     "original_price" := JStr "N/A"; "deal_badge" := JStr "N/A";
     "category" := JStr "Gaming"; "brand_id" := JStr "B1";
     "image_url" := JStr "N/A"; "marketplace_id" := JStr "A1RKKUPIHCS9HS";
     "site" := JStr "www.amazon.es";
     "base_url" := JStr DEFAULT_BASE_URL ]}.

Definition bare_deal : raw_deal :=
  {[ "title" := "N/A"; "asin" := "N/A"; "product_url" := "N/A";
     "discount" := "N/A"; "current_price" := "N/A";
     "original_price" := "N/A"; "deal_badge" := "N/A";
     "category" := "Gaming"; "brand_id" := "N/A"; "image_url" := "N/A";
     "marketplace_id" := "A1RKKUPIHCS9HS"; "site" := "www.amazon.es";
     "base_url" := DEFAULT_BASE_URL ]}.
End Promo.


(** ** What the scrape phase leaves behind *)

(** The scrape of a category of a site raised. *)
Definition scrape_failed (web : scraper) (s : site) (category : string)
  : bool :=
  match web category (marketplace_id s) (base_url s) (name s) with
  | Raise _ => true
  | Ret _ => false
  end.

(** The scrapes of a site that came back, and the warnings a site gives
    rise to. *)
Definition site_pauses (web : scraper) (s : site) : nat :=
  length (filter (λ category, scrape_failed web s category = false)
            (site_categories s)).

Definition site_log (web : scraper) (s : site) : list log_msg :=
  match site_categories s with
  | [] => [NoCategoriesConfigured (name s)]
  | cats =>
      ScrapeFailed (name s)
        <$> filter (λ category, scrape_failed web s category = true) cats
  end.

(** From [w] to [w'] there were [n] pauses of two seconds and the warnings
    [msgs], and nothing else changed. *)
Definition scrape_effect (n : nat) (msgs : list log_msg) (w w' : world)
  : Prop :=
  clock w' = clock w + 2000 * Z.of_nat n ∧
  logged w' = logged w ++ msgs ∧
  deals_coll w' = deals_coll w ∧ next_oid w' = next_oid w ∧
  store_faults w' = store_faults w ∧ deals_channel w' = deals_channel w ∧
  send_faults w' = send_faults w ∧ delivered w' = delivered w.


(** A computation that delivers nothing, however it ends. *)
Definition keeps_delivered {A} (m : M A) : Prop :=
  ∀ w, delivered (m w).2 = delivered w.

(** The embed [notify_change] renders for a notification. *)
Definition embed_of (n : deal * DealChange) : embed :=
  {| embed_deal := n.1; embed_change := n.2 |}.


(** ** The scraper behind the bot *)

(** A scraped deal whose fields are all text, as the decoded values they
    are. *)
Definition as_json (d : raw_deal) : gmap string json := JStr <$> d.

(** A sighting whose deal names the marketplace and the site it was scraped
    on. *)
Definition self_stamped (o : observation) : Prop :=
  obs_deal o !! "marketplace_id" = Some (obs_marketplace_id o) ∧
  obs_deal o !! "site" = Some (obs_site_name o) ∧
  present (obs_marketplace_id o) = true ∧
  present (obs_site_name o) = true.

(** An entry filed under the key of its own [marketplace_id], [site] and
    [asin], none of them empty or "N/A". *)
Definition keyed_by_fields (k : string) (e : deal) : Prop :=
  ∃ marketplace_id site_name asin,
    e !! "marketplace_id" = Some (VStr marketplace_id) ∧
    e !! "site" = Some (VStr site_name) ∧
    e !! "asin" = Some (VStr asin) ∧
    present marketplace_id = true ∧ present site_name = true ∧
    present asin = true ∧
    k = deal_key marketplace_id site_name asin.

(** The deals are those an [AmazonDealsScraper] made with these arguments
    holds after some run of responses. *)
Definition scraped_by (py_str : json → string)
    (hostname : string → option string) (lower : string → string)
    (category marketplace_id base_url site_name : string)
    (deals : list raw_deal) : Prop :=
  ∃ rs,
    as_json <$> deals =
      sc_deals
        (handle_responses py_str
           (new_scraper hostname lower (Some marketplace_id) (Some category)
              (Some base_url) (Some site_name))
           rs).

(** A marketplace that serves the promotion [Promo.priced] for every
    category. *)
Module Served.
Definition hostname (url : string) : option string := Some "www.amazon.es".

Definition scraper_for (category marketplace_id base_url site_name : string)
  : scraper_state :=
  new_scraper hostname id (Some marketplace_id) (Some category)
    (Some base_url) (Some site_name).

Definition page (self : scraper_state) : response :=
  {| resp_url := sc_api_url self;
     resp_status := 200;
     resp_body :=
       Some (JObj {[ "entity" :=
                       JObj {[ "rankedPromotions" :=
                                 JArr [Promo.priced] ]} ]}) |}.

Definition listing (self : scraper_state) : raw_deal :=
  {[ "title" := "Mouse"; "asin" := "B0TEST";
     "product_url" := product_url_text Promo.py_str self (JStr "B0TEST");
     "discount" := "N/A"; "current_price" := "€19.99";
     "original_price" := "N/A"; "deal_badge" := "N/A";
     "category" := str_or (sc_category self) "All Categories";
     "brand_id" := "B1"; "image_url" := "N/A";
     "marketplace_id" := sc_marketplace_id self;
     "site" := sc_site_name self;
     "base_url" := sc_base_url self ]}.

Definition web : scraper :=
  λ category marketplace_id base_url site_name,
    Ret [listing (scraper_for category marketplace_id base_url site_name)].
End Served.


(** ** Counting what was stored *)

(** The notifications of newly found deals. *)
Definition new_deals (ns : notifications_t) : notifications_t :=
  filter (λ n, change_type n.2 = "New deal") ns.

(** What [process_deal] may report: a new deal, or an update that names at
    least one changed field. *)
Definition well_formed_change (ch : DealChange) : Prop :=
  ch = {| change_type := "New deal"; changed_fields := ∅ |} ∨
  change_type ch = "Updated deal" ∧ changed_fields ch ≠ ∅.

(** * Properties *)

(** ** [sorted] on label sets *)

Global Instance str_le_total : Total str_le.
Proof. intros a b. apply String.leb_total. Qed.

Lemma py_sorted_perm (s : gset string) : py_sorted s ≡ₚ elements s.
Proof. apply merge_sort_Permutation. Qed.

Lemma elem_of_py_sorted (s : gset string) (x : string) :
  x ∈ py_sorted s ↔ x ∈ s.
Proof. rewrite py_sorted_perm. apply elem_of_elements. Qed.

Lemma py_sorted_Sorted (s : gset string) : Sorted str_le (py_sorted s).
Proof. apply (Sorted_merge_sort str_le). Qed.

Lemma py_sorted_NoDup (s : gset string) : NoDup (py_sorted s).
Proof. rewrite py_sorted_perm. apply NoDup_elements. Qed.

Lemma list_to_set_py_sorted (s : gset string) :
  list_to_set (py_sorted s) = s.
Proof.
  apply set_eq. intros x.
  rewrite elem_of_list_to_set. apply elem_of_py_sorted.
Qed.

Lemma py_sorted_singleton (c : string) : py_sorted {[c]} = [c].
Proof.
  unfold py_sorted. rewrite elements_singleton. reflexivity.
Qed.

(** ** Lookups in the accumulator *)

Lemma alist_get_set_eq key v c : alist_get key (alist_set key v c) = Some v.
Proof.
  induction c as [|[k v'] c IH]; simpl.
  - rewrite decide_True by done. done.
  - destruct (decide (k = key)) as [->|Hne]; simpl.
    + rewrite decide_True by done. done.
    + rewrite decide_False by done. done.
Qed.

Lemma alist_get_set_ne key key' v c :
  key ≠ key' → alist_get key' (alist_set key v c) = alist_get key' c.
Proof.
  intros Hne. induction c as [|[k v'] c IH]; simpl.
  - rewrite decide_False by done. done.
  - destruct (decide (k = key)) as [->|Hk]; simpl.
    + rewrite !decide_False by done. done.
    + destruct (decide (k = key')); done.
Qed.

(** ** The field refresh of a repeated sighting *)

Lemma refresh_fields_lookup (d : raw_deal) (stored : deal) (f : string) :
  refresh_fields d stored !! f =
    if decide (f = "categories") then stored !! f
    else match d !! f with
         | Some v => if present v then Some (VStr v) else stored !! f
         | None => stored !! f
         end.
Proof.
  unfold refresh_fields.
  apply (map_fold_weak_ind
    (λ (r : deal) (m : raw_deal),
       r !! f =
         if decide (f = "categories") then stored !! f
         else match m !! f with
              | Some v => if present v then Some (VStr v) else stored !! f
              | None => stored !! f
              end)).
  - rewrite lookup_empty. destruct (decide (f = "categories")); done.
  - intros i x m r Hi IH.
    destruct (decide (i = "categories")) as [->|Hic].
    + rewrite IH. destruct (decide (f = "categories")) as [|Hf]; [done|].
      rewrite lookup_insert_ne by done. done.
    + destruct (decide (i = f)) as [->|Hif].
      * rewrite decide_False by done. rewrite lookup_insert_eq.
        destruct (present x); [by rewrite lookup_insert_eq|].
        rewrite IH, decide_False by done. by rewrite Hi.
      * rewrite (lookup_insert_ne m) by done.
        destruct (present x); [rewrite lookup_insert_ne by done|]; exact IH.
Qed.

(** ** One sighting, entry by entry *)

Lemma entry_merge_categories (stored : option deal) (o : observation) :
  entry_merge stored o !! "categories" =
    Some (VList (match stored with
                 | Some st => py_sorted ({[obs_category o]} ∪ label_set st)
                 | None => [obs_category o]
                 end)).
Proof.
  destruct stored as [st|]; simpl.
  - rewrite refresh_fields_lookup. rewrite decide_True by done.
    by rewrite lookup_insert_eq.
  - unfold deal_copy. rewrite !lookup_insert_ne by done.
    by rewrite lookup_insert_eq.
Qed.

Lemma py_set_labels (st : deal) (l : list string) :
  st !! "categories" = Some (VList l) →
  py_set (py_get_default st "categories" (VList [])) = Ret (label_set st).
Proof.
  intros H. unfold py_get_default, label_set. rewrite H. reflexivity.
Qed.

Lemma doc_truthy_Some (st : deal) (k : string) (v : value) :
  st !! k = Some v → doc_truthy (Some st) = true.
Proof.
  intros H. simpl. rewrite bool_decide_eq_false_2; [done|].
  intros ->. by rewrite lookup_empty in H.
Qed.

Lemma observe_keyless (o : observation) (c : collected_t) :
  obs_key o = None → observe o c = Ret c.
Proof.
  unfold obs_key, observe, merge_listing.
  destruct (asin_missing (obs_deal o !! "asin")); [done|discriminate].
Qed.

Lemma observe_keyed (o : observation) (c : collected_t) (k : string) :
  agg_wf c → obs_key o = Some k →
  observe o c = Ret (alist_set k (entry_merge (alist_get k c) o) c).
Proof.
  intros Hwf. unfold obs_key, observe, merge_listing.
  destruct (asin_missing (obs_deal o !! "asin")); [discriminate|].
  intros [= <-].
  set (key := deal_key _ _ _).
  destruct (alist_get key c) as [st|] eqn:Hget; [|done].
  destruct (Hwf _ _ Hget) as [l Hl].
  rewrite (doc_truthy_Some _ _ _ Hl). simpl.
  rewrite (py_set_labels _ _ Hl). reflexivity.
Qed.

Lemma agg_wf_set (c : collected_t) (k : string) (e : deal) (l : list string) :
  agg_wf c → e !! "categories" = Some (VList l) → agg_wf (alist_set k e c).
Proof.
  intros Hwf He k' e'. destruct (decide (k = k')) as [<-|Hne].
  - rewrite alist_get_set_eq. intros [= <-]. eauto.
  - rewrite alist_get_set_ne by done. apply Hwf.
Qed.

Lemma agg_wf_nil : agg_wf [].
Proof. intros k e. discriminate. Qed.

Lemma sightings_cons (k : string) (o : observation) (obs : list observation) :
  sightings k (o :: obs) =
    if decide (obs_key o = Some k) then o :: sightings k obs
    else sightings k obs.
Proof. unfold sightings. rewrite filter_cons. reflexivity. Qed.

(** The accumulator never fails, and the entry under each key is the fold of
    that key's sightings alone. *)
Lemma aggregate_lookup (obs : list observation) (c : collected_t) :
  agg_wf c →
  ∃ c', aggregate obs c = Ret c' ∧ agg_wf c' ∧
        ∀ k, alist_get k c' = entry_fold (alist_get k c) (sightings k obs).
Proof.
  revert c. induction obs as [|o obs IH]; intros c Hwf.
  - exists c. by repeat split.
  - simpl. destruct (obs_key o) as [ko|] eqn:Hko.
    + rewrite (observe_keyed _ _ _ Hwf Hko).
      destruct (IH (alist_set ko (entry_merge (alist_get ko c) o) c))
        as (c' & Hagg & Hwf' & Hlook).
      { eapply agg_wf_set; [done|]. apply entry_merge_categories. }
      exists c'. split; [done|]. split; [done|].
      intros k. rewrite Hlook, sightings_cons, Hko.
      destruct (decide (Some ko = Some k)) as [[= ->]|Hne].
      * by rewrite alist_get_set_eq.
      * rewrite alist_get_set_ne by congruence. done.
    + rewrite (observe_keyless _ _ Hko).
      destruct (IH c Hwf) as (c' & Hagg & Hwf' & Hlook).
      exists c'. split; [done|]. split; [done|].
      intros k. rewrite Hlook, sightings_cons, Hko.
      by rewrite decide_False.
Qed.

(** ** The labels of an entry *)

Lemma label_set_entry_merge (stored : option deal) (o : observation) :
  label_set (entry_merge stored o) = {[obs_category o]} ∪ opt_label_set stored.
Proof.
  unfold label_set at 1. rewrite entry_merge_categories.
  destruct stored as [st|]; simpl.
  - apply list_to_set_py_sorted.
  - set_solver.
Qed.

Lemma entry_merge_sorted (stored : option deal) (o : observation) :
  entry_merge stored o !! "categories" =
    Some (VList (py_sorted ({[obs_category o]} ∪ opt_label_set stored))).
Proof.
  rewrite entry_merge_categories. destruct stored as [st|]; simpl; [done|].
  by rewrite (right_id_L ∅ (∪)), py_sorted_singleton.
Qed.

Lemma entry_fold_snoc (e : option deal) (os : list observation) o :
  entry_fold e (os ++ [o]) = Some (entry_merge (entry_fold e os) o).
Proof. unfold entry_fold. by rewrite foldl_app. Qed.

Lemma entry_fold_labels (e : option deal) (os : list observation) :
  opt_label_set (entry_fold e os) =
    opt_label_set e ∪ list_to_set (obs_category <$> os).
Proof.
  induction os as [|o os IH] using rev_ind.
  - simpl. set_solver.
  - rewrite entry_fold_snoc. simpl.
    rewrite label_set_entry_merge, IH, fmap_app, list_to_set_app_L.
    simpl. set_solver.
Qed.

(** After at least one sighting the [categories] list of an entry is the
    sorted set of every label it has met. *)
Lemma entry_fold_categories (e : option deal) (os : list observation) :
  os ≠ [] →
  ∃ d, entry_fold e os = Some d ∧
       d !! "categories" =
         Some (VList (py_sorted
                        (opt_label_set e ∪ list_to_set (obs_category <$> os)))).
Proof.
  destruct os as [|o os _] using rev_ind; [done|]. intros _.
  rewrite entry_fold_snoc. eexists. split; [done|].
  rewrite entry_merge_sorted, entry_fold_labels, fmap_app, list_to_set_app_L.
  simpl. do 2 f_equal. f_equal. set_solver.
Qed.

(** ** The fields of an entry *)

Lemma last_present_snoc (f : string) (ds : list raw_deal) (d : raw_deal) :
  last_present f (ds ++ [d]) =
    match d !! f with
    | Some v => if present v then Some v else last_present f ds
    | None => last_present f ds
    end.
Proof. unfold last_present. by rewrite foldl_app. Qed.

Lemma entry_merge_field (st : deal) (o : observation) (f : string) :
  f ≠ "categories" →
  entry_merge (Some st) o !! f =
    match obs_deal o !! f with
    | Some v => if present v then Some (VStr v) else st !! f
    | None => st !! f
    end.
Proof.
  intros Hf. simpl. rewrite refresh_fields_lookup, decide_False by done.
  by rewrite lookup_insert_ne.
Qed.

(** Once an entry exists, each of its fields holds the latest present value
    among the later sightings, or its earlier value when none is present. *)
Lemma entry_fold_field (st : deal) (os : list observation) (f : string) :
  f ≠ "categories" →
  ∃ d, entry_fold (Some st) os = Some d ∧
       d !! f = match last_present f (obs_deal <$> os) with
                | Some v => Some (VStr v)
                | None => st !! f
                end.
Proof.
  intros Hf. induction os as [|o os (d & Hd & IH)] using rev_ind.
  - by exists st.
  - rewrite entry_fold_snoc, Hd. eexists. split; [done|].
    rewrite entry_merge_field, fmap_app by done.
    change (obs_deal <$> [o]) with [obs_deal o].
    rewrite last_present_snoc, IH.
    destruct (obs_deal o !! f) as [v|]; [|done].
    destruct (present v); done.
Qed.

(** The entry a whole run leaves under key [k]. *)
Lemma aggregate_entry (obs : list observation) :
  ∃ c, aggregate obs [] = Ret c ∧
       ∀ k, match sightings k obs with
            | [] => alist_get k c = None
            | o1 :: rest =>
                ∃ e, alist_get k c = Some e ∧
                     ∀ f, e !! f =
                       if decide (f = "categories") then
                         Some (VList
                           (py_sorted
                              (list_to_set (obs_category <$> o1 :: rest))))
                       else
                         match last_present f (obs_deal <$> rest) with
                         | Some v => Some (VStr v)
                         | None => entry_merge None o1 !! f
                         end
            end.
Proof.
  destruct (aggregate_lookup obs [] agg_wf_nil) as (c & Hc & _ & Hlook).
  exists c. split; [done|]. intros k. rewrite Hlook. simpl.
  destruct (sightings k obs) as [|o1 rest]; [done|].
  destruct (entry_fold_categories None (o1 :: rest)) as (e & He & Hcat);
    [done|].
  exists e. split; [done|]. intros f.
  destruct (decide (f = "categories")) as [->|Hf].
  - rewrite Hcat. simpl. do 2 f_equal. f_equal. set_solver.
  - destruct (entry_fold_field (entry_merge None o1) rest f Hf)
      as (e' & He' & Hfield).
    change (entry_fold None (o1 :: rest))
      with (entry_fold (Some (entry_merge None o1)) rest) in He.
    rewrite He in He'. by injection He' as ->.
Qed.

Lemma last_present_cons (f : string) (d : raw_deal) (ds : list raw_deal) :
  last_present f (d :: ds) =
    match last_present f ds with
    | Some v => Some v
    | None => match d !! f with
              | Some v => if present v then Some v else None
              | None => None
              end
    end.
Proof.
  induction ds as [|x ds IH] using rev_ind.
  - unfold last_present. simpl. destruct (d !! f) as [v|]; [|done].
    by destruct (present v).
  - rewrite app_comm_cons, !last_present_snoc, IH.
    destruct (x !! f) as [v|]; [|done]. by destruct (present v).
Qed.

Lemma deal_copy_field (m s b cat : string) (d : raw_deal) (f : string) :
  f ∉ stamped_fields → deal_copy m s b cat d !! f = VStr <$> d !! f.
Proof.
  unfold stamped_fields. rewrite !not_elem_of_cons. intros (?&?&?&?&_).
  unfold deal_copy. rewrite !lookup_insert_ne by done. apply lookup_fmap.
Qed.

(** C2. In the per-cycle fold a repeated sighting of a key replaces the
    stored category list by the sorted union of the old labels and the new
    one, and writes every other field only when the incoming value is
    present; so after a whole run each field holds the latest present value
    sighted.  Sighting "X" in "Beauty" at "10.00" and then in "Gaming" with
    no price leaves categories ["Beauty"; "Gaming"] and price "10.00". *)
Theorem merge_rule_latest_present
    (m s b a : string) (d : raw_deal) (c : collected_t)
    (stored : deal) (l : list string) :
  d !! "asin" = Some a →
  asin_missing (Some a) = false →
  alist_get (deal_key m s a) c = Some stored →
  stored !! "categories" = Some (VList l) →
  (∃ stored',
     merge_listing m s b d c = Ret (alist_set (deal_key m s a) stored' c) ∧
     stored' !! "categories" =
       Some (VList (py_sorted
                      (list_to_set l ∪ {[default "Unknown" (d !! "category")]})))
     ∧ ∀ f, f ≠ "categories" →
            stored' !! f = match d !! f with
                           | Some v =>
                               if present v then Some (VStr v) else stored !! f
                           | None => stored !! f
                           end)
  ∧ (∀ obs, ∃ c',
       aggregate obs [] = Ret c' ∧
       ∀ k o1 rest, sightings k obs = o1 :: rest →
         ∃ e, alist_get k c' = Some e ∧
              (∀ f, f ≠ "categories" →
                 e !! f = match last_present f (obs_deal <$> rest) with
                          | Some v => Some (VStr v)
                          | None => entry_merge None o1 !! f
                          end) ∧
              (∀ f v, f ∉ stamped_fields →
                 last_present f (obs_deal <$> o1 :: rest) = Some v →
                 e !! f = Some (VStr v)))
  ∧ match aggregate [Sample.sighting "X" "Beauty" "10.00";
                     Sample.sighting "X" "Gaming" "N/A"] [] with
    | Ret [(k, e)] =>
        k = Sample.key_of "X" ∧
        e !! "categories" = Some (VList ["Beauty"; "Gaming"]) ∧
        e !! "current_price" = Some (VStr "10.00")
    | _ => False
    end.
Proof.
  intros Ha Hmiss Hget Hl. split; [|split].
  - unfold merge_listing. rewrite Ha, Hmiss. simpl. rewrite Hget.
    rewrite (doc_truthy_Some _ _ _ Hl). simpl.
    rewrite (py_set_labels _ _ Hl). eexists. split; [done|].
    split.
    + rewrite refresh_fields_lookup, decide_True by done.
      rewrite lookup_insert_eq. unfold label_set. rewrite Hl.
      do 2 f_equal. f_equal. set_solver.
    + intros f Hf. rewrite refresh_fields_lookup, decide_False by done.
      by rewrite lookup_insert_ne.
  - intros obs. destruct (aggregate_entry obs) as (c' & Hc' & Hent).
    exists c'. split; [done|]. intros k o1 rest Hs.
    specialize (Hent k). rewrite Hs in Hent.
    destruct Hent as (e & He & Hfields). exists e. split; [done|].
    split.
    + intros f Hf. rewrite Hfields. by rewrite decide_False.
    + intros f v Hf. rewrite fmap_cons, last_present_cons, Hfields.
      rewrite decide_False
        by (intros ->; apply Hf; unfold stamped_fields; set_solver).
      destruct (last_present f (obs_deal <$> rest)) as [v'|].
      * by intros [= ->].
      * simpl. rewrite deal_copy_field by done.
        destruct (obs_deal o1 !! f) as [v1|]; [|done].
        destruct (present v1); [|done]. by intros [= ->].
  - vm_compute. done.
Qed.

Lemma merge_rule_latest_present_witness :
  ∃ stored',
    merge_listing "A1RKKUPIHCS9HS" "Amazon Spain" "https://www.amazon.es"
      (Sample.listing "X" "Gaming" "N/A")
      [(Sample.key_of "X",
        {[ "categories" := VList ["Beauty"];
           "current_price" := VStr "10.00" ]})]
    = Ret (alist_set (Sample.key_of "X") stored'
             [(Sample.key_of "X",
               {[ "categories" := VList ["Beauty"];
                  "current_price" := VStr "10.00" ]})]) ∧
    stored' !! "current_price" = Some (VStr "10.00").
Proof.
  destruct (merge_rule_latest_present
              "A1RKKUPIHCS9HS" "Amazon Spain" "https://www.amazon.es" "X"
              (Sample.listing "X" "Gaming" "N/A")
              [(Sample.key_of "X",
                {[ "categories" := VList ["Beauty"];
                   "current_price" := VStr "10.00" ]})]
              {[ "categories" := VList ["Beauty"];
                 "current_price" := VStr "10.00" ]}
              ["Beauty"])
    as [(stored' & Hrun & _ & Hfields) _];
    [reflexivity | reflexivity | reflexivity | reflexivity |].
  exists stored'. split; [exact Hrun|].
  rewrite (Hfields "current_price") by discriminate. reflexivity.
Defined.

(** ** Order of the sightings *)

Lemma sightings_perm (k : string) (obs obs' : list observation) :
  obs ≡ₚ obs' → sightings k obs ≡ₚ sightings k obs'.
Proof. intros H. unfold sightings. by rewrite H. Qed.

Lemma aggregate_categories (obs : list observation) :
  ∃ c, aggregate obs [] = Ret c ∧
       ∀ k, entry_categories c k =
              match sightings k obs with
              | [] => None
              | os => Some (VList (py_sorted
                                     (list_to_set (obs_category <$> os))))
              end.
Proof.
  destruct (aggregate_entry obs) as (c & Hc & Hent).
  exists c. split; [done|]. intros k. specialize (Hent k).
  unfold entry_categories.
  destruct (sightings k obs) as [|o1 rest].
  - by rewrite Hent.
  - destruct Hent as (e & -> & Hf). simpl. rewrite Hf.
    by rewrite decide_True.
Qed.

(** C7. Permuting the sightings of a cycle leaves the category list of every
    key unchanged: it is the sorted set of all labels the key was sighted
    under.  The other fields depend on the order, the last present value
    winning: sighting "X" at "10.00" and then at "8.00" ends at "8.00", the
    other way round at "10.00". *)
Theorem categories_order_independent (obs obs' : list observation) :
  obs ≡ₚ obs' →
  (∃ c c',
     aggregate obs [] = Ret c ∧ aggregate obs' [] = Ret c' ∧
     ∀ k, entry_categories c k = entry_categories c' k ∧
          entry_categories c k =
            match sightings k obs with
            | [] => None
            | os => Some (VList (py_sorted
                                   (list_to_set (obs_category <$> os))))
            end)
  ∧ (∃ c, aggregate obs [] = Ret c ∧
          ∀ k o1 rest f v,
            sightings k obs = o1 :: rest → f ≠ "categories" →
            last_present f (obs_deal <$> rest) = Some v →
            alist_get k c ≫= (.!! f) = Some (VStr v))
  ∧ (let first := Sample.sighting "X" "Beauty" "10.00" in
     let second := Sample.sighting "X" "Gaming" "8.00" in
     [first; second] ≡ₚ [second; first] ∧
     entry_field (aggregate [first; second] []) (Sample.key_of "X")
       "current_price" = Some (VStr "8.00") ∧
     entry_field (aggregate [second; first] []) (Sample.key_of "X")
       "current_price" = Some (VStr "10.00")).
Proof.
  intros Hperm. split; [|split].
  - destruct (aggregate_categories obs) as (c & Hc & Hcat).
    destruct (aggregate_categories obs') as (c' & Hc' & Hcat').
    exists c, c'. split; [done|]. split; [done|]. intros k.
    split; [|apply Hcat]. rewrite Hcat, Hcat'.
    pose proof (sightings_perm k _ _ Hperm) as Hs.
    destruct (sightings k obs) as [|o os] eqn:E.
    + apply Permutation_nil_l in Hs. by rewrite <- Hs.
    + destruct (sightings k obs') as [|o' os'] eqn:E'.
      * by apply Permutation_nil_r in Hs.
      * do 2 f_equal. f_equal. apply list_to_set_perm_L.
        by apply fmap_Permutation.
  - destruct (aggregate_entry obs) as (c & Hc & Hent).
    exists c. split; [done|]. intros k o1 rest f v Hs Hf Hlast.
    specialize (Hent k). rewrite Hs in Hent.
    destruct Hent as (e & -> & Hfields). simpl.
    by rewrite Hfields, decide_False, Hlast.
  - split; [apply perm_swap|]. split; vm_compute; reflexivity.
Qed.

Lemma categories_order_independent_witness :
  ∃ c c',
    aggregate [Sample.sighting "X" "Beauty" "10.00";
               Sample.sighting "X" "Gaming" "N/A"] [] = Ret c ∧
    aggregate [Sample.sighting "X" "Gaming" "N/A";
               Sample.sighting "X" "Beauty" "10.00"] [] = Ret c' ∧
    entry_categories c (Sample.key_of "X") =
      entry_categories c' (Sample.key_of "X").
Proof.
  destruct (categories_order_independent
              [Sample.sighting "X" "Beauty" "10.00";
               Sample.sighting "X" "Gaming" "N/A"]
              [Sample.sighting "X" "Gaming" "N/A";
               Sample.sighting "X" "Beauty" "10.00"])
    as [(c & c' & Hc & Hc' & Hk) _]; [apply perm_swap|].
  exists c, c'. split; [exact Hc|]. split; [exact Hc'|].
  exact (proj1 (Hk (Sample.key_of "X"))).
Defined.

(** ** Running [process_deal] *)

Lemma store_call_ok (n : nat) (w : world) :
  no_fault (S n) w = true →
  store_call w = (Ret tt, set_store_faults (tail (store_faults w)) w) ∧
  no_fault n (set_store_faults (tail (store_faults w)) w) = true.
Proof.
  unfold no_fault, store_call. destruct (store_faults w) as [|[] fs]; simpl.
  - by destruct n.
  - done.
  - done.
Qed.

Lemma find_one_ok (n : nat) (query : deal) (w : world) :
  no_fault (S n) w = true →
  find_one query w =
    (Ret (List.find (matches query) (deals_coll w)),
     set_store_faults (tail (store_faults w)) w) ∧
  no_fault n (set_store_faults (tail (store_faults w)) w) = true.
Proof.
  intros H. destruct (store_call_ok n w H) as [Hc Hn]. split; [|done].
  unfold find_one, bind. by rewrite Hc.
Qed.

Lemma direct_label_step (d : deal) (labels : gset string) :
  label_ok d = true →
  (if truthy (py_get d "category")
   then lift (add_label (py_get d "category") labels)
   else ret labels) = ret (direct_labels d ∪ labels).
Proof.
  unfold label_ok, direct_labels.
  destruct (py_get d "category") as [|s|l|t|n]; simpl;
    try (intros _; by rewrite (left_id_L ∅ (∪))).
  - intros _. destruct (String.eqb s EmptyString); simpl; [|done].
    by rewrite (left_id_L ∅ (∪)).
  - destruct l; [|done]. intros _. by rewrite (left_id_L ∅ (∪)).
  - done.
  - done.
Qed.

Lemma extra_labels_step (d : deal) (labels : gset string) :
  match py_get_default d "categories" (VList []) with
  | VList l => labels ∪ list_to_set l
  | _ => labels
  end = labels ∪ label_set d.
Proof.
  unfold py_get_default, label_set.
  destruct (d !! "categories") as [[]|]; simpl;
    rewrite ?(right_id_L ∅ (∪)); done.
Qed.

Lemma process_deal_update (d : deal) (w : world) (asin id : value)
    (existing : deal) (labels : gset string) :
  d !! "asin" = Some asin →
  no_fault 2 w = true →
  lookup_deal d w = Some existing →
  existing !! "_id" = Some id →
  py_set (py_get_default existing "categories" (VList [])) = Ret labels →
  label_ok d = true →
  (d !! "_id" = None ∨ d !! "_id" = Some id) →
  ∃ w',
    process_deal d w = (Ret (detect_change existing d, false), w') ∧
    deals_coll w' =
      set_first id (new_document d (reconciled_labels d labels) (clock w))
        (deals_coll w) ∧
    next_oid w' = next_oid w ∧
    store_faults w' = drop 2 (store_faults w) ∧
    same_outside_store w w'.
Proof.
  intros Hasin Hnf Hfind Hid Hset Hlab Hdid.
  unfold lookup_deal in Hfind. rewrite Hasin in Hfind.
  unfold process_deal, py_index. rewrite Hasin.
  unfold bind at 1. unfold ret at 1.
  unfold bind at 1.
  destruct (find_one_ok 1 (deal_query d asin) w Hnf) as [Hf Hnf1].
  unfold deal_query in Hf, Hfind. rewrite Hf, Hfind.
  rewrite (doc_truthy_Some _ _ _ Hid). simpl default. rewrite Hset, Hid.
  unfold bind at 1. unfold now at 1.
  unfold bind at 1. unfold lift at 1.
  rewrite direct_label_step by done.
  unfold bind at 1. unfold ret at 1.
  rewrite extra_labels_step. simpl negb. cbv iota.
  unfold bind at 1. unfold ret at 1.
  fold (new_document d (direct_labels d ∪ labels ∪ label_set d)
          (clock (set_store_faults (tail (store_faults w)) w))).
  fold (reconciled_labels d labels).
  set (w1 := set_store_faults (tail (store_faults w)) w) in *.
  set (doc := new_document d (reconciled_labels d labels) (clock w1)).
  destruct (store_call_ok 0 w1 Hnf1) as [Hc _].
  assert (Hex : existsb (has_id id) (deals_coll w1) = true).
  { apply existsb_exists. exists existing. split.
    - apply find_some in Hfind. apply Hfind.
    - unfold has_id. by apply bool_decide_eq_true_2. }
  assert (Hdoc : doc !! "_id" = d !! "_id").
  { unfold doc, new_document. by rewrite !lookup_insert_ne. }
  cbv beta iota delta [bind ret update_one negb]. rewrite Hc.
  cbv beta iota.
  change (deals_coll (set_store_faults (tail (store_faults w1)) w1))
    with (deals_coll w1).
  rewrite Hex, Hdoc.
  assert (Hdrop : tail (tail (store_faults w)) = drop 2 (store_faults w)).
  { by destruct (store_faults w) as [|? [|? ?]]. }
  unfold detect_change, negb.
  destruct Hdid as [-> | ->]; rewrite ?decide_True by done;
    (eexists; split;
     [destruct (bool_decide (diff_watched existing d = ∅)); reflexivity
     |simpl; by rewrite Hdrop]).
Qed.

Lemma process_deal_insert (d : deal) (w : world) (asin : value) :
  d !! "asin" = Some asin →
  no_fault 2 w = true →
  lookup_deal d w = None →
  label_ok d = true →
  d !! "_id" = None →
  ∃ w',
    process_deal d w =
      (Ret (Some {| change_type := "New deal"; changed_fields := ∅ |}, true),
       w') ∧
    deals_coll w' =
      deals_coll w ++
        [<["_id" := VOid (next_oid w)]>
           (<["first_seen" := VTime (clock w)]>
              (new_document d (reconciled_labels d ∅) (clock w)))] ∧
    next_oid w' = S (next_oid w) ∧
    store_faults w' = drop 2 (store_faults w) ∧
    same_outside_store w w'.
Proof.
  intros Hasin Hnf Hfind Hlab Hdid.
  unfold lookup_deal in Hfind. rewrite Hasin in Hfind.
  unfold process_deal, py_index. rewrite Hasin.
  unfold bind at 1. unfold ret at 1.
  unfold bind at 1.
  destruct (find_one_ok 1 (deal_query d asin) w Hnf) as [Hf Hnf1].
  unfold deal_query in Hf, Hfind. rewrite Hf, Hfind.
  change (doc_truthy None) with false. cbv iota.
  unfold bind at 1. unfold now at 1.
  unfold bind at 1. unfold ret at 1.
  rewrite direct_label_step by done.
  unfold bind at 1. unfold ret at 1.
  rewrite extra_labels_step. simpl negb. cbv iota.
  fold (new_document d (direct_labels d ∪ ∅ ∪ label_set d)
          (clock (set_store_faults (tail (store_faults w)) w))).
  fold (reconciled_labels d ∅).
  set (w1 := set_store_faults (tail (store_faults w)) w) in *.
  set (doc := new_document d (reconciled_labels d ∅) (clock w1)).
  destruct (store_call_ok 0 w1 Hnf1) as [Hc _].
  assert (Hdoc : (<["first_seen" := VTime (clock w1)]> doc) !! "_id" = None).
  { unfold doc, new_document. by rewrite !lookup_insert_ne. }
  cbv beta iota delta [bind ret insert_one negb]. rewrite Hc.
  cbv beta iota. rewrite Hdoc.
  assert (Hdrop : tail (tail (store_faults w)) = drop 2 (store_faults w)).
  { by destruct (store_faults w) as [|? [|? ?]]. }
  eexists. split; [reflexivity|]. simpl. by rewrite Hdrop.
Qed.

(** ** The store under unique [_id]s *)

Lemma set_first_at (id : value) (upd : deal) (docs : list deal)
    (i : nat) (existing : deal) :
  NoDup ((.!! "_id") <$> docs) →
  docs !! i = Some existing →
  existing !! "_id" = Some id →
  set_first id upd docs = <[i := upd ∪ existing]> docs.
Proof.
  revert i. induction docs as [|doc docs IH]; intros i Hnd Hi Hid; [done|].
  rewrite fmap_cons in Hnd. apply NoDup_cons in Hnd as [Hnotin Hnd].
  simpl. unfold has_id. destruct i as [|i]; simpl in *.
  - injection Hi as ->. by rewrite bool_decide_eq_true_2.
  - rewrite bool_decide_eq_false_2.
    + f_equal. by apply IH.
    + intros Hdoc. apply Hnotin. rewrite Hdoc, <- Hid.
      apply list_elem_of_fmap. exists existing. split; [done|].
      by eapply list_elem_of_lookup_2.
Qed.

Lemma find_lookup {A} (p : A → bool) (l : list A) (x : A) :
  List.find p l = Some x → ∃ i, l !! i = Some x ∧ p x = true.
Proof.
  induction l as [|y l IH]; simpl; [done|].
  destruct (p y) eqn:Hp.
  - intros [= ->]. by exists 0%nat.
  - intros H. destruct (IH H) as (i & Hi & Hx). by exists (S i).
Qed.

(** ** The watched fields *)

Lemma diff_watched_price (existing d : deal) :
  diff_watched existing d =
    if decide (py_get existing "current_price" ≠ py_get d "current_price")
    then {[ "current_price" :=
              (py_get existing "current_price", py_get d "current_price") ]}
    else ∅.
Proof.
  unfold diff_watched, fields_to_watch. simpl.
  destruct (decide (py_get existing "current_price" ≠
                    py_get d "current_price")); done.
Qed.

Lemma detect_change_price (existing d : deal) :
  detect_change existing d =
    if decide (py_get existing "current_price" ≠ py_get d "current_price")
    then Some {| change_type := "Updated deal";
                 changed_fields :=
                   {[ "current_price" :=
                        (py_get existing "current_price",
                         py_get d "current_price") ]} |}
    else None.
Proof.
  unfold detect_change. rewrite diff_watched_price.
  destruct (decide (py_get existing "current_price" ≠
                    py_get d "current_price")).
  - rewrite bool_decide_eq_false_2; [done|].
    intros H. apply (f_equal (.!! "current_price")) in H.
    by rewrite lookup_singleton_eq, lookup_empty in H.
  - by rewrite bool_decide_eq_true_2.
Qed.

(** C3. For a deal whose record is in the store, [process_deal] returns an
    "Updated deal" event exactly when a watched field, the watched fields
    being the current price alone, differs between the stored and the
    aggregated value, and the event maps the field to its (old, new) pair.
    With "10.00" stored and "8.00" aggregated the event is
    {current_price: ("10.00", "8.00")} and "8.00" is what the store then
    holds. *)
Theorem updated_iff_watched_differs (d : deal) (w : world) (asin id : value)
    (existing : deal) (labels : gset string) :
  d !! "asin" = Some asin →
  no_fault 2 w = true →
  lookup_deal d w = Some existing →
  existing !! "_id" = Some id →
  py_set (py_get_default existing "categories" (VList [])) = Ret labels →
  label_ok d = true →
  (d !! "_id" = None ∨ d !! "_id" = Some id) →
  fields_to_watch = ["current_price"] ∧
  (∃ change w',
     process_deal d w = (Ret (change, false), w') ∧
     ((∃ ch, change = Some ch) ↔
        ∃ f, f ∈ fields_to_watch ∧ py_get existing f ≠ py_get d f) ∧
     (∀ ch, change = Some ch →
        change_type ch = "Updated deal" ∧
        ∀ f, changed_fields ch !! f =
               if decide (f ∈ fields_to_watch ∧
                          py_get existing f ≠ py_get d f)
               then Some (py_get existing f, py_get d f)
               else None))
  ∧ (let run := process_deal (Scenario.aggregated "X" "8.00" ["Beauty"])
                  (Scenario.world_with
                     [Scenario.stored 0 "X" "10.00" ["Beauty"]]) in
     run.1 = Ret (Some {| change_type := "Updated deal";
                          changed_fields :=
                            {[ "current_price" :=
                                 (VStr "10.00", VStr "8.00") ]} |}, false) ∧
     Scenario.stored_field run 0 "current_price" = Some (VStr "8.00")).
Proof.
  intros Hasin Hnf Hfind Hid Hset Hlab Hdid.
  split; [done|]. split.
  - destruct (process_deal_update d w asin id existing labels)
      as (w' & Hrun & _); try done.
    exists (detect_change existing d), w'. split; [done|].
    rewrite detect_change_price. unfold fields_to_watch.
    destruct (decide (py_get existing "current_price" ≠
                      py_get d "current_price")) as [Hne|Heq].
    + split.
      * split; [|by eauto]. intros _. exists "current_price".
        split; [set_solver|done].
      * intros ch [= <-]. split; [done|]. intros f. simpl.
        destruct (decide (f = "current_price")) as [->|Hf].
        -- rewrite lookup_singleton_eq, decide_True; [done|].
           split; [set_solver|done].
        -- rewrite lookup_singleton_ne by done. rewrite decide_False; [done|].
           intros [Hin _]. set_solver.
    + split; [|done]. split; [by intros [? ?]|].
      intros (f & Hin & Hne). apply list_elem_of_singleton in Hin as ->.
      done.
  - vm_compute. done.
Qed.

Lemma updated_iff_watched_differs_witness :
  ∃ change w',
    process_deal (Scenario.aggregated "X" "8.00" ["Beauty"])
      (Scenario.world_with [Scenario.stored 0 "X" "10.00" ["Beauty"]])
    = (Ret (change, false), w') ∧
    ∃ ch, change = Some ch.
Proof.
  destruct (updated_iff_watched_differs
              (Scenario.aggregated "X" "8.00" ["Beauty"])
              (Scenario.world_with [Scenario.stored 0 "X" "10.00" ["Beauty"]])
              (VStr "X") (VOid 0)
              (Scenario.stored 0 "X" "10.00" ["Beauty"])
              (list_to_set ["Beauty"]))
    as (_ & (change & w' & Hrun & Hiff & _) & _).
  - reflexivity.
  - reflexivity.
  - vm_compute. reflexivity.
  - reflexivity.
  - vm_compute. reflexivity.
  - reflexivity.
  - left. reflexivity.
  - exists change, w'. split; [exact Hrun|]. apply Hiff.
    exists "current_price". split; [apply list_elem_of_here|].
    vm_compute. discriminate.
Defined.

(** ** A first sighting *)

Lemma reconciled_labels_listing (d : deal) (l : list string)
    (stored : gset string) :
  d !! "categories" = Some (VList l) →
  direct_labels d ⊆ list_to_set l →
  reconciled_labels d stored = stored ∪ list_to_set l.
Proof.
  intros Hl Hsub. unfold reconciled_labels, label_set. rewrite Hl.
  set_solver.
Qed.

(** C4. For a deal with no record in the store, [process_deal] appends a new
    document whose categories are the aggregated categories, whose other
    fields are those of the aggregated deal, and whose [first_seen] and
    [last_seen] are both the current time; it returns the "New deal" event
    with no changed fields, flagged as new. *)
Theorem first_sighting_creates_record (d : deal) (w : world) :
  aggregated_listing d →
  d !! "_id" = None →
  no_fault 2 w = true →
  lookup_deal d w = None →
  ∃ w' doc,
    process_deal d w =
      (Ret (Some {| change_type := "New deal"; changed_fields := ∅ |}, true),
       w') ∧
    deals_coll w' = deals_coll w ++ [doc] ∧
    doc !! "categories" = d !! "categories" ∧
    doc !! "first_seen" = Some (VTime (clock w)) ∧
    doc !! "last_seen" = Some (VTime (clock w)) ∧
    doc !! "first_seen" = doc !! "last_seen" ∧
    ∀ f, f ∉ record_fields → doc !! f = d !! f.
Proof.
  intros (l & Hl & Hsorted & Hsub & Hlab & [asin Hasin]) Hdid Hnf Hfind.
  destruct (process_deal_insert d w asin) as (w' & Hrun & Hcoll & _);
    try done.
  eexists w', _. split; [done|]. split; [exact Hcoll|].
  rewrite (reconciled_labels_listing _ _ _ Hl Hsub), (left_id_L ∅ (∪)).
  unfold new_document. rewrite Hsorted.
  assert (Hfirst : ∀ t (m : deal),
            <["_id" := VOid (next_oid w)]> (<["first_seen" := VTime t]> m)
              !! "first_seen" = Some (VTime t)).
  { intros. rewrite lookup_insert_ne by done. apply lookup_insert_eq. }
  assert (Hlast : ∀ t (m : deal),
            <["_id" := VOid (next_oid w)]>
              (<["first_seen" := VTime t]> (<["last_seen" := VTime t]> m))
              !! "last_seen" = Some (VTime t)).
  { intros. rewrite !lookup_insert_ne by done. apply lookup_insert_eq. }
  split; [|split; [|split; [|split]]].
  - rewrite !lookup_insert_ne by done. by rewrite lookup_insert_eq, Hl.
  - apply Hfirst.
  - apply Hlast.
  - by rewrite Hfirst, Hlast.
  - intros f. unfold record_fields. rewrite !not_elem_of_cons.
    intros (?&?&?&?&_). by rewrite !lookup_insert_ne.
Qed.

Lemma first_sighting_creates_record_witness :
  ∃ w' doc,
    process_deal (Scenario.aggregated "X" "10.00" ["Beauty"; "Gaming"])
      (Scenario.world_with []) =
      (Ret (Some {| change_type := "New deal"; changed_fields := ∅ |}, true),
       w') ∧
    deals_coll w' = [doc] ∧
    doc !! "first_seen" = doc !! "last_seen".
Proof.
  destruct (first_sighting_creates_record
              (Scenario.aggregated "X" "10.00" ["Beauty"; "Gaming"])
              (Scenario.world_with []))
    as (w' & doc & Hrun & Hcoll & _ & _ & _ & Hseen & _).
  - exists ["Beauty"; "Gaming"].
    split; [reflexivity|]. split; [vm_compute; reflexivity|].
    split; [|split; [reflexivity|by eexists]].
    apply (bool_decide_unpack _). vm_compute. exact I.
  - reflexivity.
  - reflexivity.
  - reflexivity.
  - exists w', doc. split; [exact Hrun|]. split; [exact Hcoll|exact Hseen].
Defined.

(** ** Reasoning about runs *)

Lemma post_bind {A B} (m : M A) (k : A → M B) (w : world)
    (Q : outcome B → world → Prop) :
  post m w (λ o w1, match o with
                    | Ret a => post (k a) w1 Q
                    | Raise e => Q (Raise e) w1
                    end) →
  post (bind m k) w Q.
Proof. unfold post, bind. by destruct (m w) as [[a|e] w1]. Qed.

Lemma post_ret {A} (a : A) (w : world) (Q : outcome A → world → Prop) :
  Q (Ret a) w → post (ret a) w Q.
Proof. done. Qed.

Lemma post_raise {A} (e : exn) (w : world) (Q : outcome A → world → Prop) :
  Q (Raise e) w → post (raise e) w Q.
Proof. done. Qed.

Lemma post_lift {A} (o : outcome A) (w : world)
    (Q : outcome A → world → Prop) :
  Q o w → post (lift o) w Q.
Proof. done. Qed.

(** ** The store only grows *)

Lemma same_store_wf (w w' : world) : same_store w w' → store_wf w → store_wf w'.
Proof.
  intros [Hc Hn] (Hnd & Hdocs & Hfresh). unfold store_wf.
  rewrite Hc, Hn. done.
Qed.

Lemma same_store_grows (w w' : world) : same_store w w' → store_grows w w'.
Proof.
  intros Hs Hwf. split; [by eapply same_store_wf|].
  intros i doc Hi. exists doc. destruct Hs as [-> _]. done.
Qed.

Lemma store_grows_trans (w1 w2 w3 : world) :
  store_grows w1 w2 → store_grows w2 w3 → store_grows w1 w3.
Proof.
  intros H12 H23 Hwf. destruct (H12 Hwf) as [Hwf2 Hd12].
  destruct (H23 Hwf2) as [Hwf3 Hd23]. split; [done|].
  intros i doc Hi. destruct (Hd12 i doc Hi) as (doc2 & Hi2 & Hid2 & Hl2).
  destruct (Hd23 i doc2 Hi2) as (doc3 & Hi3 & Hid3 & Hl3).
  exists doc3. split; [done|]. split; [congruence|set_solver].
Qed.

Lemma store_grows_append (w w' : world) (doc : deal) (l : list string) :
  deals_coll w' = deals_coll w ++ [doc] →
  (next_oid w ≤ next_oid w')%nat →
  doc !! "_id" ∉ ((.!! "_id") <$> deals_coll w) →
  is_Some (doc !! "_id") →
  (∀ n, doc !! "_id" = Some (VOid n) → (n < next_oid w')%nat) →
  doc !! "categories" = Some (VList l) →
  store_grows w w'.
Proof.
  intros Hcoll Hnext Hnew Hid Hfresh Hcat (Hnd & Hdocs & Hbound).
  split.
  - unfold store_wf. rewrite Hcoll. split; [|split].
    + rewrite fmap_app. apply NoDup_app. split; [done|]. split.
      * intros x Hx. simpl. rewrite list_elem_of_singleton. by intros ->.
      * simpl. apply NoDup_singleton.
    + intros doc' [Hin| ->%list_elem_of_singleton]%elem_of_app; eauto.
    + intros doc' n [Hin| ->%list_elem_of_singleton]%elem_of_app Hn.
      * specialize (Hbound _ _ Hin Hn). lia.
      * by apply Hfresh.
  - intros i doc' Hi. exists doc'. rewrite Hcoll.
    split; [by apply lookup_app_l_Some|done].
Qed.

Lemma store_grows_update (w w' : world) (id : value) (upd existing : deal)
    (l : list string) :
  deals_coll w' = set_first id upd (deals_coll w) →
  next_oid w' = next_oid w →
  existing ∈ deals_coll w →
  existing !! "_id" = Some id →
  (upd !! "_id" = None ∨ upd !! "_id" = Some id) →
  upd !! "categories" = Some (VList l) →
  label_set existing ⊆ list_to_set l →
  store_grows w w'.
Proof.
  intros Hcoll Hnext Hin Hid Hupd Hcat Hsub Hwf.
  pose proof Hwf as (Hnd & Hdocs & Hbound).
  apply list_elem_of_lookup_1 in Hin as [j Hj].
  rewrite (set_first_at id upd _ j existing Hnd Hj Hid) in Hcoll.
  assert (Hnew_id : (upd ∪ existing) !! "_id" = Some id).
  { destruct Hupd as [Hu|Hu].
    - by rewrite lookup_union_r.
    - by apply lookup_union_Some_l. }
  assert (Hnew_cat : (upd ∪ existing) !! "categories" = Some (VList l)).
  { by apply lookup_union_Some_l. }
  assert (Hsame : ∀ k doc', <[j := upd ∪ existing]> (deals_coll w) !! k
                            = Some doc' →
            ∃ doc, deals_coll w !! k = Some doc ∧
                   doc' !! "_id" = doc !! "_id" ∧
                   label_set doc ⊆ label_set doc' ∧
                   ∃ l', doc' !! "categories" = Some (VList l')).
  { intros k doc' [(<- & <- & _)|[Hne Hk]]%list_lookup_insert_Some.
    - exists existing. split; [done|]. split; [congruence|].
      split; [|eauto]. unfold label_set at 2. by rewrite Hnew_cat.
    - exists doc'. split; [done|]. split; [done|]. split; [done|].
      by apply (Hdocs doc'), (list_elem_of_lookup_2 _ k). }
  split.
  - unfold store_wf. rewrite Hcoll, Hnext. split; [|split].
    + rewrite list_fmap_insert, Hnew_id, list_insert_id; [done|].
      by rewrite list_lookup_fmap, Hj, <- Hid.
    + intros doc' [k Hk]%list_elem_of_lookup_1.
      destruct (Hsame k doc' Hk) as (doc & Hdoc & Hids & _ & Hl').
      split; [|done]. rewrite Hids.
      by apply (Hdocs doc), (list_elem_of_lookup_2 _ k).
    + intros doc' n [k Hk]%list_elem_of_lookup_1 Hn.
      destruct (Hsame k doc' Hk) as (doc & Hdoc & Hids & _).
      apply (Hbound doc); [by apply (list_elem_of_lookup_2 _ k)|congruence].
  - intros i doc Hi. rewrite Hcoll.
    destruct (decide (j = i)) as [->|Hne].
    + exists (upd ∪ existing).
      rewrite list_lookup_insert_eq by (by eapply lookup_lt_Some).
      assert (doc = existing) as -> by congruence.
      split; [done|]. split; [congruence|].
      unfold label_set at 2. by rewrite Hnew_cat.
    + exists doc. by rewrite list_lookup_insert_ne.
Qed.

Lemma new_document_categories (d : deal) (labels : gset string) (t : Z) :
  new_document d labels t !! "categories" = Some (VList (py_sorted labels)).
Proof.
  unfold new_document. rewrite lookup_insert_ne by done.
  apply lookup_insert_eq.
Qed.

Lemma post_find_one (query : deal) (w : world)
    (Q : outcome (option deal) → world → Prop) :
  (let w1 := set_store_faults (tail (store_faults w)) w in
   Q (Raise StoreError) w1 ∧
   Q (Ret (List.find (matches query) (deals_coll w))) w1) →
  post (find_one query) w Q.
Proof.
  intros [Hr Hf]. unfold post, find_one, bind, store_call.
  by destruct (head (store_faults w)) as [[]|].
Qed.

Lemma store_call_cases (w : world) :
  let w1 := set_store_faults (tail (store_faults w)) w in
  store_call w = (Raise StoreError, w1) ∨ store_call w = (Ret tt, w1).
Proof.
  unfold store_call. destruct (head (store_faults w)) as [[]|]; auto.
Qed.

Lemma update_one_store (id : value) (upd : deal) (w : world) :
  same_store w (update_one id upd w).2 ∨
  (∃ existing, existing ∈ deals_coll w ∧ existing !! "_id" = Some id) ∧
  (upd !! "_id" = None ∨ upd !! "_id" = Some id) ∧
  deals_coll (update_one id upd w).2 = set_first id upd (deals_coll w) ∧
  next_oid (update_one id upd w).2 = next_oid w.
Proof.
  unfold update_one, bind.
  destruct (store_call_cases w) as [-> | ->]; [by left|]. simpl.
  destruct (existsb (has_id id) (deals_coll w)) eqn:Hex; [|by left].
  apply existsb_exists in Hex as (existing & Hin & Hid).
  apply list_elem_of_In in Hin. apply bool_decide_eq_true_1 in Hid.
  destruct (upd !! "_id") as [id'|].
  - destruct (decide (id' = id)) as [->|]; [|by left].
    right. split; [by exists existing|]. split; [by right|done].
  - right. split; [by exists existing|]. split; [by left|done].
Qed.

Lemma insert_one_store (doc : deal) (w : world) :
  store_wf w →
  same_store w (insert_one doc w).2 ∨
  ∃ doc', deals_coll (insert_one doc w).2 = deals_coll w ++ [doc'] ∧
          (next_oid w ≤ next_oid (insert_one doc w).2)%nat ∧
          (doc' !! "_id" ∉ (.!! "_id") <$> deals_coll w) ∧
          is_Some (doc' !! "_id") ∧
          (∀ n, doc' !! "_id" = Some (VOid n) →
                (n < next_oid (insert_one doc w).2)%nat) ∧
          doc' !! "categories" = doc !! "categories".
Proof.
  intros (_ & _ & Hbound). unfold insert_one, bind.
  destruct (store_call_cases w) as [-> | ->]; [by left|]. simpl.
  destruct (doc !! "_id") as [id|] eqn:Hdoc.
  - destruct (existsb (has_id id) (deals_coll w)) eqn:Hex; [by left|].
    right. exists doc. simpl. split; [done|]. split; [destruct id; lia|].
    split; [|split; [by rewrite Hdoc|split; [|done]]].
    + rewrite Hdoc. intros (doc' & Hid & Hin)%list_elem_of_fmap.
      apply not_true_iff_false in Hex. apply Hex, existsb_exists.
      exists doc'. split; [by apply list_elem_of_In|].
      by apply bool_decide_eq_true_2.
    + rewrite Hdoc. intros n [= ->]. lia.
  - right. eexists. simpl. split; [done|]. split; [lia|].
    rewrite lookup_insert_eq. split; [|split; [done|split]].
    + intros (doc' & Hid & Hin)%list_elem_of_fmap.
      symmetry in Hid. specialize (Hbound _ _ Hin Hid). lia.
    + intros n [= ->]. lia.
    + by rewrite lookup_insert_ne.
Qed.

Lemma post_direct_label (v : value) (labels : gset string) (w : world)
    (Q : outcome (gset string) → world → Prop) :
  (∀ labels', labels ⊆ labels' → Q (Ret labels') w) →
  Q (Raise TypeError) w →
  post (if truthy v then lift (add_label v labels) else ret labels) w Q.
Proof.
  intros Hret Hraise. destruct (truthy v); [|by apply post_ret, Hret].
  apply post_lift. destruct v; simpl; try done. apply Hret. set_solver.
Qed.

Lemma post_if_ret {A} (b : bool) (x y : A) (w : world)
    (Q : outcome A → world → Prop) :
  (∀ a, Q (Ret a) w) → post (if b then ret x else ret y) w Q.
Proof. intros H. destruct b; apply post_ret, H. Qed.

Lemma py_set_label_set (e : deal) (labels : gset string) :
  py_set (py_get_default e "categories" (VList [])) = Ret labels →
  label_set e ⊆ labels.
Proof.
  unfold py_get_default, label_set.
  destruct (e !! "categories") as [[]|]; simpl; intros [= <-]; set_solver.
Qed.

(** Whatever [process_deal] does, and however it ends, no stored document
    loses its place, its [_id] or a category. *)
Lemma process_deal_grows (d : deal) (w : world) :
  post (process_deal d) w (λ _ w', store_grows w w').
Proof.
  unfold process_deal. apply post_bind. unfold py_index.
  destruct (d !! "asin") as [asin|];
    [apply post_ret|by apply post_raise, same_store_grows].
  apply post_bind, post_find_one.
  set (w1 := set_store_faults (tail (store_faults w)) w).
  assert (Hw1 : same_store w w1) by done.
  split; [by apply same_store_grows|].
  apply post_bind. unfold post at 1, now. simpl fst. simpl snd. cbv iota.
  set (found := find _ (deals_coll w)).
  destruct (doc_truthy found) eqn:Htruthy.
  - destruct found as [existing|] eqn:Hfound; [|done]. simpl default.
    assert (Hin : existing ∈ deals_coll w).
    { apply list_elem_of_In. by eapply find_some. }
    apply post_bind, post_lift.
    destruct (py_set _) as [labels|e] eqn:Hset;
      [|by apply same_store_grows].
    apply py_set_label_set in Hset.
    apply post_bind, post_direct_label; [|by apply same_store_grows].
    intros labels' Hlabels'. rewrite extra_labels_step.
    simpl negb. cbv iota. apply post_bind.
    destruct (existing !! "_id") as [id|] eqn:Hid;
      [apply post_ret|by apply post_raise, same_store_grows].
    apply post_bind.
    set (upd := <["last_seen" := _]> _).
    assert (Hupd : upd = new_document d (labels' ∪ label_set d) (clock w))
      by done.
    assert (Hgrows : store_grows w (update_one id upd w1).2).
    { destruct (update_one_store id upd w1)
        as [Hsame|(_ & Hupd_id & Hcoll & Hnext)].
      - by apply same_store_grows.
      - eapply (store_grows_update _ _ id upd existing); try done.
        + rewrite Hupd. apply new_document_categories.
        + rewrite list_to_set_py_sorted. set_solver. }
    unfold post at 1.
    destruct (update_one id upd w1).1 as [[]|e]; [|done].
    by apply post_if_ret.
  - apply post_bind, post_ret.
    apply post_bind, post_direct_label; [|by apply same_store_grows].
    intros labels' _. rewrite extra_labels_step.
    simpl negb. cbv iota. apply post_bind.
    set (doc := <["first_seen" := _]> _).
    assert (Hdoc : ∃ l, doc !! "categories" = Some (VList l)).
    { eexists. unfold doc. rewrite !lookup_insert_ne by done.
      apply lookup_insert_eq. }
    destruct Hdoc as [l Hl].
    assert (Hgrows : store_grows w (insert_one doc w1).2).
    { intros Hwf.
      destruct (insert_one_store doc w1)
        as [Hsame|(doc' & Hcoll & Hnext & Hfresh & Hid & Hbound & Hcat)].
      - by eapply same_store_wf.
      - by apply same_store_grows.
      - eapply (store_grows_append w _ doc' l); try done.
        by rewrite Hcat. }
    unfold post at 1.
    destruct (insert_one doc w1).1 as [[]|e]; [|done].
    by apply post_ret.
Qed.

(** ** Which steps touch the store *)

Lemma same_store_trans (w1 w2 w3 : world) :
  same_store w1 w2 → same_store w2 w3 → same_store w1 w3.
Proof. intros [? ?] [? ?]. split; congruence. Qed.

Lemma keeps_ret {A} (a : A) : keeps_store (ret a).
Proof. by intros w. Qed.

Lemma keeps_raise {A} (e : exn) : keeps_store (@raise A e).
Proof. by intros w. Qed.

Lemma keeps_lift {A} (o : outcome A) : keeps_store (lift o).
Proof. by intros w. Qed.

Lemma keeps_log (m : log_msg) : keeps_store (log m).
Proof. by intros w. Qed.

Lemma keeps_sleep (ms : Z) : keeps_store (sleep ms).
Proof. by intros w. Qed.

Lemma keeps_channel_ready : keeps_store channel_ready.
Proof. by intros w. Qed.

Lemma keeps_send (e : embed) : keeps_store (send e).
Proof.
  intros w. unfold send. by destruct (head (send_faults w)) as [[]|].
Qed.

Lemma keeps_bind {A B} (m : M A) (k : A → M B) :
  keeps_store m → (∀ a, keeps_store (k a)) → keeps_store (bind m k).
Proof.
  intros Hm Hk w. unfold bind. specialize (Hm w).
  destruct (m w) as [[a|e] w1]; [|done].
  eapply same_store_trans; [exact Hm|apply Hk].
Qed.

Lemma keeps_try_except {A} (m : M A) (h : exn → M A) :
  keeps_store m → (∀ e, keeps_store (h e)) → keeps_store (try_except m h).
Proof.
  intros Hm Hh w. unfold try_except. specialize (Hm w).
  destruct (m w) as [[a|e] w1]; [done|].
  eapply same_store_trans; [exact Hm|apply Hh].
Qed.

Create HintDb keeps discriminated.
#[local] Hint Resolve keeps_ret keeps_raise keeps_lift keeps_log keeps_sleep
  keeps_channel_ready keeps_send : keeps.
#[local] Hint Extern 2 (keeps_store (bind _ _)) =>
  apply keeps_bind; [|intros ?] : keeps.
#[local] Hint Extern 2 (keeps_store (try_except _ _)) =>
  apply keeps_try_except; [|intros ?] : keeps.

Lemma keeps_notify_change (d : deal) (change : DealChange) :
  keeps_store (notify_change d change).
Proof.
  unfold notify_change. apply keeps_bind; [auto with keeps|].
  intros []; simpl; [|auto with keeps].
  apply keeps_bind; [|auto with keeps].
  apply keeps_try_except; [auto with keeps|].
  intros [| | |status|]; auto with keeps.
  destruct (decide (status = 429)); auto 6 with keeps.
Qed.

Lemma keeps_notify_all (ns : notifications_t) : keeps_store (notify_all ns).
Proof.
  induction ns as [|[d change] ns IH]; simpl; [auto with keeps|].
  apply keeps_bind; [apply keeps_notify_change|done].
Qed.

Lemma keeps_scrape_category web s category c :
  keeps_store (scrape_category web s category c).
Proof.
  unfold scrape_category. destruct (web _ _ _ _); auto 6 with keeps.
Qed.

Lemma keeps_scrape_categories web s cats c :
  keeps_store (scrape_categories web s cats c).
Proof.
  revert c. induction cats as [|category cats IH]; intros c; simpl;
    [auto with keeps|].
  apply keeps_bind; [apply keeps_scrape_category|done].
Qed.

Lemma keeps_scrape_site web s c : keeps_store (scrape_site web s c).
Proof.
  unfold scrape_site. destruct (site_categories s);
    [auto with keeps|apply keeps_scrape_categories].
Qed.

Lemma keeps_scrape_sites web sites c : keeps_store (scrape_sites web sites c).
Proof.
  revert c. induction sites as [|s sites IH]; intros c; simpl;
    [auto with keeps|].
  apply keeps_bind; [apply keeps_scrape_site|done].
Qed.

Lemma keeps_grows {A} (m : M A) : keeps_store m → grows_store m.
Proof. intros H w. apply same_store_grows, H. Qed.

Lemma grows_bind {A B} (m : M A) (k : A → M B) :
  grows_store m → (∀ a, grows_store (k a)) → grows_store (bind m k).
Proof.
  intros Hm Hk w. unfold bind. specialize (Hm w).
  destruct (m w) as [[a|e] w1]; [|done].
  eapply store_grows_trans; [exact Hm|apply Hk].
Qed.

Lemma grows_try_except {A} (m : M A) (h : exn → M A) :
  grows_store m → (∀ e, grows_store (h e)) → grows_store (try_except m h).
Proof.
  intros Hm Hh w. unfold try_except. specialize (Hm w).
  destruct (m w) as [[a|e] w1]; [done|].
  eapply store_grows_trans; [exact Hm|apply Hh].
Qed.

Lemma grows_process_deal (d : deal) : grows_store (process_deal d).
Proof. intros w. apply (process_deal_grows d w). Qed.

Lemma grows_process_deals (ds : list deal) (ns : notifications_t) :
  grows_store (process_deals ds ns).
Proof.
  revert ns. induction ds as [|d ds IH]; intros ns; simpl.
  - apply keeps_grows, keeps_ret.
  - apply grows_bind.
    + apply grows_try_except.
      * apply grows_bind; [apply grows_process_deal|].
        intros r. apply keeps_grows, keeps_ret.
      * intros e. apply keeps_grows. auto with keeps.
    + intros [[[ch|] is_new]|]; apply IH.
Qed.

Lemma grows_scrape_and_process web sites :
  grows_store (scrape_and_process web sites).
Proof.
  unfold scrape_and_process. destruct sites as [|s sites].
  - apply keeps_grows, keeps_log.
  - apply grows_bind; [apply keeps_grows, keeps_scrape_sites|].
    intros [|e c]; [apply keeps_grows, keeps_ret|].
    apply grows_bind; [apply grows_process_deals|].
    intros [|n ns]; [apply keeps_grows, keeps_ret|].
    apply keeps_grows, keeps_notify_all.
Qed.

Lemma after_cycles_grows (w w' : world) :
  after_cycles w w' → store_grows w w'.
Proof.
  induction 1 as [w|w w1 w2 sf nf ch t web sites r _ IH Hrun].
  - by apply same_store_grows.
  - eapply store_grows_trans; [exact IH|].
    eapply store_grows_trans; [by apply (same_store_grows w1 (rearm sf nf ch t w1))|].
    pose proof (grows_scrape_and_process web sites (rearm sf nf ch t w1)) as H.
    by rewrite Hrun in H.
Qed.

(** ** Reconciling a stored record *)

Lemma lookup_deal_found (d : deal) (w : world) (existing : deal) :
  lookup_deal d w = Some existing →
  ∃ i, deals_coll w !! i = Some existing.
Proof.
  unfold lookup_deal. destruct (d !! "asin"); [|done].
  intros (i & Hi & _)%find_lookup. eauto.
Qed.

Lemma reconcile_existing (d : deal) (w : world) (existing : deal) :
  store_wf w →
  aggregated_listing d →
  d !! "_id" = None →
  no_fault 2 w = true →
  lookup_deal d w = Some existing →
  ∃ w' i,
    process_deal d w = (Ret (detect_change existing d, false), w') ∧
    deals_coll w !! i = Some existing ∧
    deals_coll w' = <[i := reconciled d existing (clock w)]> (deals_coll w) ∧
    next_oid w' = next_oid w ∧
    same_outside_store w w'.
Proof.
  intros (Hnd & Hdocs & _) (l & Hl & _ & Hsub & Hlab & [asin Hasin])
    Hdid Hnf Hfind.
  destruct (lookup_deal_found _ _ _ Hfind) as [i Hi].
  destruct (Hdocs existing) as [[id Hid] [le Hle]];
    [by eapply list_elem_of_lookup_2|].
  destruct (process_deal_update d w asin id existing (label_set existing))
    as (w' & Hrun & Hcoll & Hnext & _ & Hout); try done.
  { by eapply py_set_labels. }
  { by left. }
  exists w', i. split; [done|]. split; [done|]. split; [|done].
  rewrite Hcoll, (set_first_at _ _ _ i existing) by done.
  unfold reconciled. do 3 f_equal.
  rewrite (reconciled_labels_listing _ _ _ Hl Hsub).
  unfold label_set at 3. by rewrite Hl.
Qed.

Lemma reconciled_categories (d existing : deal) (t : Z) :
  reconciled d existing t !! "categories" =
    Some (VList (py_sorted (label_set existing ∪ label_set d))).
Proof.
  unfold reconciled. apply lookup_union_Some_l, new_document_categories.
Qed.

Lemma reconciled_last_seen (d existing : deal) (t : Z) :
  reconciled d existing t !! "last_seen" = Some (VTime t).
Proof.
  unfold reconciled, new_document.
  apply lookup_union_Some_l, lookup_insert_eq.
Qed.

(** A field the deal carries is written; one it lacks is left as stored. *)
Lemma reconciled_field (d existing : deal) (t : Z) (f : string) :
  f ≠ "categories" → f ≠ "last_seen" →
  reconciled d existing t !! f =
    match d !! f with
    | Some v => Some v
    | None => existing !! f
    end.
Proof.
  intros Hc Hl. unfold reconciled, new_document.
  rewrite lookup_union, !lookup_insert_ne by done.
  destruct (d !! f), (existing !! f); done.
Qed.


(** The sample worlds are well-formed stores. *)
Lemma sample_store_wf (oid : nat) (asin price : string) (labels : list string) :
  (oid < 1)%nat →
  store_wf (Scenario.world_with [Scenario.stored oid asin price labels]).
Proof.
  intros Hoid. split; [|split].
  - apply NoDup_singleton.
  - intros doc ->%list_elem_of_singleton. split; [by eexists|].
    exists labels. reflexivity.
  - intros doc n ->%list_elem_of_singleton [= <-]. exact Hoid.
Qed.

Lemma sample_listing (asin price : string) (labels : list string) :
  py_sorted (list_to_set labels) = labels →
  "Beauty" ∈ labels →
  aggregated_listing (Scenario.aggregated asin price labels).
Proof.
  intros Hsorted Hin. exists labels. split; [reflexivity|].
  split; [done|]. split; [|split; [reflexivity|by eexists]].
  change (direct_labels _) with ({["Beauty"]} : gset string).
  set_solver.
Qed.


(** C6. Reconciling a deal whose record is in the store always writes the
    record, event or no event: [last_seen] becomes the current time,
    [first_seen] stays what it was, and when no watched field differs no
    event is returned. *)
Theorem reconciliation_always_persists (d : deal) (w : world)
    (existing : deal) :
  store_wf w →
  aggregated_listing d →
  d !! "_id" = None →
  d !! "first_seen" = None →
  no_fault 2 w = true →
  lookup_deal d w = Some existing →
  ∃ change w' i doc',
    process_deal d w = (Ret (change, false), w') ∧
    deals_coll w !! i = Some existing ∧
    deals_coll w' = <[i := doc']> (deals_coll w) ∧
    doc' !! "last_seen" = Some (VTime (clock w)) ∧
    doc' !! "first_seen" = existing !! "first_seen" ∧
    ((∀ f, f ∈ fields_to_watch → py_get existing f = py_get d f) →
     change = None).
Proof.
  intros Hwf Hd Hdid Hfirst Hnf Hfind.
  destruct (reconcile_existing d w existing)
    as (w' & i & Hrun & Hi & Hcoll & _); try done.
  exists (detect_change existing d), w', i, (reconciled d existing (clock w)).
  split; [done|]. split; [done|]. split; [done|].
  split; [apply reconciled_last_seen|]. split.
  - rewrite reconciled_field by done. by rewrite Hfirst.
  - intros Hsame. rewrite detect_change_price.
    rewrite decide_False; [done|]. intros Hne. apply Hne, Hsame.
    apply list_elem_of_here.
Qed.

Lemma reconciliation_always_persists_witness :
  ∃ w' doc',
    process_deal (Scenario.aggregated "X" "10.00" ["Beauty"])
      (Scenario.world_with [Scenario.stored 0 "X" "10.00" ["Beauty"]])
    = (Ret (None, false), w') ∧
    deals_coll w' = [doc'] ∧
    doc' !! "last_seen" = Some (VTime 1000) ∧
    doc' !! "first_seen" = Some (VTime 400).
Proof.
  destruct (reconciliation_always_persists
              (Scenario.aggregated "X" "10.00" ["Beauty"])
              (Scenario.world_with [Scenario.stored 0 "X" "10.00" ["Beauty"]])
              (Scenario.stored 0 "X" "10.00" ["Beauty"]))
    as (change & w' & i & doc' & Hrun & Hi & Hcoll & Hlast & Hfirst & Hnone).
  - apply sample_store_wf. lia.
  - apply sample_listing; [vm_compute; reflexivity|apply list_elem_of_here].
  - reflexivity.
  - reflexivity.
  - reflexivity.
  - vm_compute. reflexivity.
  - exists w', doc'. rewrite Hnone in Hrun.
    + split; [exact Hrun|]. destruct i as [|i]; [|discriminate Hi].
      split; [exact Hcoll|]. split; [exact Hlast|exact Hfirst].
    + intros f ->%list_elem_of_singleton. reflexivity.
Defined.

(** ** Absent values *)

(** C1 does not hold of the store reconciliation: a stored price of "10.00"
    is replaced by the placeholder when the aggregated deal carries "N/A". *)
Lemma absent_value_overwrites_stored :
  ¬ (∀ (d : deal) (w : world) (existing : deal) (f : string),
       store_wf w → aggregated_listing d → d !! "_id" = None →
       no_fault 2 w = true → lookup_deal d w = Some existing →
       d !! f = Some (VStr NA) →
       ∃ i doc', deals_coll w !! i = Some existing ∧
                 deals_coll (process_deal d w).2 !! i = Some doc' ∧
                 doc' !! f = existing !! f).
Proof.
  intros H.
  destruct (H (Scenario.aggregated "X" "N/A" ["Beauty"])
              (Scenario.world_with [Scenario.stored 0 "X" "10.00" ["Beauty"]])
              (Scenario.stored 0 "X" "10.00" ["Beauty"])
              "current_price")
    as (i & doc' & Hi & Hi' & Hf).
  - apply sample_store_wf. lia.
  - apply sample_listing; [vm_compute; reflexivity|apply list_elem_of_here].
  - reflexivity.
  - reflexivity.
  - vm_compute. reflexivity.
  - reflexivity.
  - destruct i as [|i]; [|discriminate Hi].
    vm_compute in Hi'. injection Hi' as <-.
    vm_compute in Hf. discriminate Hf.
Qed.

(** C1, as the code has it. In the in-cycle merge an absent value never overwrites a
    known one.  In the store reconciliation every field the aggregated deal
    carries is written over the stored one, the placeholder "N/A" included;
    only a field the deal does not carry keeps its stored value. *)
Theorem absent_value_precedence (d : deal) (w : world) (existing : deal) :
  store_wf w →
  aggregated_listing d →
  d !! "_id" = None →
  no_fault 2 w = true →
  lookup_deal d w = Some existing →
  (∀ m s b a (raw : raw_deal) (c : collected_t) (stored : deal) l f,
     raw !! "asin" = Some a → asin_missing (Some a) = false →
     alist_get (deal_key m s a) c = Some stored →
     stored !! "categories" = Some (VList l) →
     f ≠ "categories" →
     from_option present false (raw !! f) = false →
     ∃ stored',
       merge_listing m s b raw c = Ret (alist_set (deal_key m s a) stored' c) ∧
       stored' !! f = stored !! f)
  ∧ (∃ w' i doc',
       (process_deal d w).2 = w' ∧
       deals_coll w !! i = Some existing ∧
       deals_coll w' = <[i := doc']> (deals_coll w) ∧
       ∀ f, f ≠ "categories" → f ≠ "last_seen" →
            doc' !! f = match d !! f with
                        | Some v => Some v
                        | None => existing !! f
                        end).
Proof.
  intros Hwf Hd Hdid Hnf Hfind. split.
  - intros m s b a raw c stored l f Ha Hmiss Hget Hl Hf Habsent.
    unfold merge_listing. rewrite Ha, Hmiss. simpl. rewrite Hget.
    rewrite (doc_truthy_Some _ _ _ Hl). simpl.
    rewrite (py_set_labels _ _ Hl). eexists. split; [done|].
    rewrite refresh_fields_lookup, decide_False by done.
    rewrite lookup_insert_ne by done.
    destruct (raw !! f) as [v|]; [|done]. simpl in Habsent.
    by rewrite Habsent.
  - destruct (reconcile_existing d w existing)
      as (w' & i & Hrun & Hi & Hcoll & _); try done.
    exists w', i, (reconciled d existing (clock w)).
    split; [by rewrite Hrun|]. split; [done|]. split; [done|].
    intros f Hc Hl. by apply reconciled_field.
Qed.

Lemma absent_value_precedence_witness :
  ∃ w' doc',
    (process_deal (Scenario.aggregated "X" "N/A" ["Beauty"])
       (Scenario.world_with [Scenario.stored 0 "X" "10.00" ["Beauty"]])).2
    = w' ∧
    deals_coll w' = [doc'] ∧
    doc' !! "current_price" = Some (VStr "N/A") ∧
    doc' !! "first_seen" = Some (VTime 400).
Proof.
  destruct (absent_value_precedence
              (Scenario.aggregated "X" "N/A" ["Beauty"])
              (Scenario.world_with [Scenario.stored 0 "X" "10.00" ["Beauty"]])
              (Scenario.stored 0 "X" "10.00" ["Beauty"]))
    as [_ (w' & i & doc' & Hrun & Hi & Hcoll & Hfields)].
  - apply sample_store_wf. lia.
  - apply sample_listing; [vm_compute; reflexivity|apply list_elem_of_here].
  - reflexivity.
  - reflexivity.
  - vm_compute. reflexivity.
  - exists w', doc'. split; [exact Hrun|].
    destruct i as [|i]; [|discriminate Hi].
    split; [exact Hcoll|].
    split; rewrite Hfields by discriminate; reflexivity.
Defined.

(** ** The scrape phase feeds the accumulator *)

Lemma merge_deals_aggregate (s : site) (deals : list raw_deal)
    (c : collected_t) :
  merge_deals (marketplace_id s) (name s) (base_url s) deals c =
    aggregate
      ((λ d, {| obs_marketplace_id := marketplace_id s;
                obs_site_name := name s;
                obs_base_url := base_url s;
                obs_deal := d |}) <$> deals) c.
Proof.
  revert c. induction deals as [|d deals IH]; intros c; [done|].
  simpl. unfold observe. simpl.
  destruct (merge_listing _ _ _ d c); [apply IH|done].
Qed.

Lemma aggregate_app (obs1 obs2 : list observation) (c c1 : collected_t) :
  aggregate obs1 c = Ret c1 →
  aggregate (obs1 ++ obs2) c = aggregate obs2 c1.
Proof.
  revert c. induction obs1 as [|o obs1 IH]; intros c; simpl.
  - by intros [= ->].
  - destruct (observe o c); [apply IH|done].
Qed.

Lemma aggregate_total (obs : list observation) (c : collected_t) :
  agg_wf c → ∃ c', aggregate obs c = Ret c' ∧ agg_wf c'.
Proof.
  intros Hwf. destruct (aggregate_lookup obs c Hwf) as (c' & ? & ? & _).
  eauto.
Qed.

Lemma scrape_category_run web s category (c : collected_t) (w : world) :
  agg_wf c →
  ∃ c' w', scrape_category web s category c w = (Ret c', w') ∧
           aggregate (observed_category web s category) c = Ret c' ∧
           agg_wf c'.
Proof.
  intros Hwf. unfold scrape_category, observed_category.
  destruct (web _ _ _ _) as [deals|e].
  - rewrite merge_deals_aggregate.
    destruct (aggregate_total
                ((λ d, {| obs_marketplace_id := marketplace_id s;
                          obs_site_name := name s;
                          obs_base_url := base_url s;
                          obs_deal := d |}) <$> deals) c Hwf)
      as (c' & Hc' & Hwf').
    rewrite Hc'. by eexists c', _.
  - by eexists c, _.
Qed.

Lemma scrape_categories_run web s cats (c : collected_t) (w : world) :
  agg_wf c →
  ∃ c' w', scrape_categories web s cats c w = (Ret c', w') ∧
           aggregate (cats ≫= observed_category web s) c = Ret c' ∧
           agg_wf c'.
Proof.
  revert c w. induction cats as [|category cats IH]; intros c w Hwf.
  - by exists c, w.
  - destruct (scrape_category_run web s category c w Hwf)
      as (c1 & w1 & Hrun1 & Hagg1 & Hwf1).
    destruct (IH c1 w1 Hwf1) as (c2 & w2 & Hrun2 & Hagg2 & Hwf2).
    exists c2, w2. split; [|split; [|done]].
    + simpl. unfold bind. by rewrite Hrun1.
    + rewrite bind_cons. by rewrite (aggregate_app _ _ _ _ Hagg1).
Qed.

Lemma scrape_site_run web s (c : collected_t) (w : world) :
  agg_wf c →
  ∃ c' w', scrape_site web s c w = (Ret c', w') ∧
           aggregate (observed_site web s) c = Ret c' ∧
           agg_wf c'.
Proof.
  intros Hwf. unfold scrape_site, observed_site.
  destruct (site_categories s) as [|category cats] eqn:Hcats.
  - by eexists c, _.
  - by apply scrape_categories_run.
Qed.

(** The scrape phase never raises, and what it collects is the accumulation
    of the sightings of the scrapes that did not fail. *)
Lemma scrape_sites_run web sites (c : collected_t) (w : world) :
  agg_wf c →
  ∃ c' w', scrape_sites web sites c w = (Ret c', w') ∧
           aggregate (observed web sites) c = Ret c' ∧
           agg_wf c'.
Proof.
  revert c w. induction sites as [|s sites IH]; intros c w Hwf.
  - by exists c, w.
  - destruct (scrape_site_run web s c w Hwf)
      as (c1 & w1 & Hrun1 & Hagg1 & Hwf1).
    destruct (IH c1 w1 Hwf1) as (c2 & w2 & Hrun2 & Hagg2 & Hwf2).
    exists c2, w2. split; [|split; [|done]].
    + simpl. unfold bind. by rewrite Hrun1.
    + unfold observed. rewrite bind_cons.
      by rewrite (aggregate_app _ _ _ _ Hagg1).
Qed.

(** ** Failures in the reconciliation loop *)

Lemma update_one_raise (id : value) (upd : deal) (w : world) (e : exn) :
  (update_one id upd w).1 = Raise e → same_store w (update_one id upd w).2.
Proof.
  unfold update_one, bind.
  destruct (store_call_cases w) as [-> | ->]; [done|]. simpl.
  destruct (existsb _ _); [|done].
  destruct (upd !! "_id") as [id'|]; [|done].
  by destruct (decide (id' = id)).
Qed.

Lemma insert_one_raise (doc : deal) (w : world) (e : exn) :
  (insert_one doc w).1 = Raise e → same_store w (insert_one doc w).2.
Proof.
  unfold insert_one, bind.
  destruct (store_call_cases w) as [-> | ->]; [done|]. simpl.
  destruct (doc !! "_id") as [id|]; [|done].
  by destruct (existsb _ _).
Qed.

(** A reconciliation that raises has written nothing. *)
Lemma process_deal_raise (d : deal) (w : world) :
  post (process_deal d) w
    (λ o w', match o with Raise _ => same_store w w' | Ret _ => True end).
Proof.
  unfold process_deal. apply post_bind. unfold py_index.
  destruct (d !! "asin") as [asin|]; [apply post_ret|by apply post_raise].
  apply post_bind, post_find_one.
  set (w1 := set_store_faults (tail (store_faults w)) w).
  split; [done|].
  apply post_bind. unfold post at 1, now. simpl fst. simpl snd. cbv iota.
  set (found := find _ (deals_coll w)).
  destruct (doc_truthy found) eqn:Htruthy.
  - apply post_bind, post_lift. destruct (py_set _) as [labels|e]; [|done].
    apply post_bind, post_direct_label; [|done]. intros labels' _.
    simpl negb. cbv iota. apply post_bind.
    destruct (default ∅ found !! "_id") as [id|];
      [apply post_ret|by apply post_raise].
    apply post_bind. unfold post at 1.
    set (upd := <["last_seen" := _]> _).
    pose proof (update_one_raise id upd w1) as Hraise.
    destruct (update_one id upd w1).1 as [[]|e].
    + by apply post_if_ret.
    + by apply (Hraise e).
  - apply post_bind, post_ret.
    apply post_bind, post_direct_label; [|done]. intros labels' _.
    simpl negb. cbv iota. apply post_bind. unfold post at 1.
    set (doc := <["first_seen" := _]> _).
    pose proof (insert_one_raise doc w1) as Hraise.
    destruct (insert_one doc w1).1 as [[]|e]; [done|].
    by apply (Hraise e).
Qed.

Lemma process_deals_total (ds : list deal) (ns : notifications_t) (w : world) :
  ∃ ns' w', process_deals ds ns w = (Ret ns', w').
Proof.
  revert ns w. induction ds as [|d ds IH]; intros ns w; simpl.
  - by exists ns, w.
  - unfold bind at 1. unfold try_except, bind at 1.
    destruct (process_deal d w) as [[[[ch|] is_new]|e] w1]; simpl; apply IH.
Qed.

Lemma process_deals_failed (d : deal) (ds : list deal) (ns : notifications_t)
    (w w1 : world) (e : exn) :
  process_deal d w = (Raise e, w1) →
  process_deals (d :: ds) ns w =
    process_deals ds ns (add_event (Log (ProcessFailed (py_get d "asin") e)) w1).
Proof.
  intros H. simpl. unfold bind at 1. unfold try_except, bind at 1.
  by rewrite H.
Qed.

(** ** A cycle with a willing channel *)

Lemma kc_ret {A} (a : A) : keeps_channel (ret a).
Proof. by intros w. Qed.

Lemma kc_raise {A} (e : exn) : keeps_channel (@raise A e).
Proof. by intros w. Qed.

Lemma kc_lift {A} (o : outcome A) : keeps_channel (lift o).
Proof. by intros w. Qed.

Lemma kc_log (m : log_msg) : keeps_channel (log m).
Proof. by intros w. Qed.

Lemma kc_sleep (ms : Z) : keeps_channel (sleep ms).
Proof. by intros w. Qed.

Lemma kc_now : keeps_channel now.
Proof. by intros w. Qed.

Lemma kc_bind {A B} (m : M A) (k : A → M B) :
  keeps_channel m → (∀ a, keeps_channel (k a)) → keeps_channel (bind m k).
Proof.
  intros Hm Hk w. unfold bind. destruct (Hm w) as [Hs Hc].
  destruct (m w) as [[a|e] w1]; [|done].
  destruct (Hk a w1) as [Hs' Hc']. simpl in *. split; congruence.
Qed.

Lemma kc_try_except {A} (m : M A) (h : exn → M A) :
  keeps_channel m → (∀ e, keeps_channel (h e)) →
  keeps_channel (try_except m h).
Proof.
  intros Hm Hh w. unfold try_except. destruct (Hm w) as [Hs Hc].
  destruct (m w) as [[a|e] w1]; [done|].
  destruct (Hh e w1) as [Hs' Hc']. simpl in *. split; congruence.
Qed.

Lemma kc_store_call : keeps_channel store_call.
Proof.
  intros w. unfold store_call. by destruct (head (store_faults w)) as [[]|].
Qed.

Lemma kc_find_one (query : deal) : keeps_channel (find_one query).
Proof.
  unfold find_one. apply kc_bind; [apply kc_store_call|]. by intros _ w.
Qed.

Lemma kc_insert_one (doc : deal) : keeps_channel (insert_one doc).
Proof.
  unfold insert_one. apply kc_bind; [apply kc_store_call|]. intros _ w.
  destruct (doc !! "_id") as [id|]; [|done]. by destruct (existsb _ _).
Qed.

Lemma kc_update_one (id : value) (upd : deal) :
  keeps_channel (update_one id upd).
Proof.
  unfold update_one. apply kc_bind; [apply kc_store_call|]. intros _ w.
  destruct (existsb _ _); [|done].
  destruct (upd !! "_id") as [id'|]; [|done]. by destruct (decide _).
Qed.

Create HintDb kc discriminated.
#[local] Hint Resolve kc_ret kc_raise kc_lift kc_log kc_sleep kc_now
  kc_find_one kc_insert_one kc_update_one : kc.

Lemma kc_process_deal (d : deal) : keeps_channel (process_deal d).
Proof.
  unfold process_deal. apply kc_bind.
  { unfold py_index. destruct (d !! "asin"); auto with kc. }
  intros asin. apply kc_bind; [auto with kc|]. intros existing.
  apply kc_bind; [auto with kc|]. intros t.
  apply kc_bind. { destruct (doc_truthy existing); auto with kc. }
  intros labels. apply kc_bind. { destruct (truthy _); auto with kc. }
  intros labels'. destruct (negb (doc_truthy existing)).
  - apply kc_bind; auto with kc.
  - apply kc_bind.
    { unfold py_index. destruct (default ∅ existing !! "_id"); auto with kc. }
    intros id. apply kc_bind; [auto with kc|]. intros _.
    destruct (negb _); auto with kc.
Qed.

Lemma kc_process_deals (ds : list deal) (ns : notifications_t) :
  keeps_channel (process_deals ds ns).
Proof.
  revert ns. induction ds as [|d ds IH]; intros ns; simpl; [auto with kc|].
  apply kc_bind.
  - apply kc_try_except.
    + apply kc_bind; [apply kc_process_deal|auto with kc].
    + intros e. apply kc_bind; auto with kc.
  - intros [[[ch|] is_new]|]; apply IH.
Qed.

Lemma kc_scrape_sites web sites c : keeps_channel (scrape_sites web sites c).
Proof.
  revert c. induction sites as [|s sites IH]; intros c; simpl;
    [auto with kc|].
  apply kc_bind; [|done]. unfold scrape_site.
  destruct (site_categories s) as [|cat cats]; [apply kc_bind; auto with kc|].
  generalize (cat :: cats). clear. intros cats. revert c.
  induction cats as [|category cats IH]; intros c; simpl; [auto with kc|].
  apply kc_bind; [|done]. unfold scrape_category.
  destruct (web _ _ _ _); repeat (apply kc_bind; [|intros ?]); auto with kc.
Qed.

(** With no send failing, every notification is delivered or, the channel
    missing, dropped with a warning; nothing is raised. *)
Lemma notify_all_calm (ns : notifications_t) (w : world) :
  send_faults w = [] →
  ∃ w', notify_all ns w = (Ret tt, w') ∧ send_faults w' = [].
Proof.
  revert w. induction ns as [|[d change] ns IH]; intros w Hw; simpl.
  - by exists w.
  - assert (Hone : ∃ w1, notify_change d change w = (Ret tt, w1) ∧
                         send_faults w1 = []).
    { unfold notify_change, bind, channel_ready, try_except, send, log, sleep.
      destruct (deals_channel w); simpl.
      - rewrite Hw. simpl. by eexists.
      - by eexists. }
    destruct Hone as (w1 & Hrun & Hw1). unfold bind. rewrite Hrun.
    by apply IH.
Qed.

(** Whatever the scraper and the store do, a cycle whose sends all succeed
    ends normally. *)
Lemma cycle_survives web sites (w : world) :
  send_faults w = [] →
  ∃ w', scrape_and_process web sites w = (Ret tt, w').
Proof.
  intros Hw. unfold scrape_and_process. destruct sites as [|s sites].
  - by eexists.
  - destruct (scrape_sites_run web (s :: sites) [] w agg_wf_nil)
      as (c & w1 & Hrun & _).
    pose proof (kc_scrape_sites web (s :: sites) [] w) as [Hs1 _].
    unfold bind at 1. rewrite Hrun in *. simpl in Hs1.
    destruct c as [|e c]; [by eexists|].
    destruct (process_deals_total ((e :: c).*2) [] w1) as (ns & w2 & Hrun2).
    pose proof (kc_process_deals ((e :: c).*2) [] w1) as [Hs2 _].
    unfold bind. rewrite Hrun2 in *. simpl in Hs2.
    destruct ns as [|n ns]; [by eexists|].
    destruct (notify_all_calm (n :: ns) w2) as (w3 & Hrun3 & _);
      [congruence|].
    by exists w3.
Qed.



(** ** Delivery *)

(** C9. The first clause holds: a send answered with HTTP 429 is followed by
    one five-second wait and exactly one retry, and when the retry goes
    through every notification is delivered.  The second does not: when the
    retry fails too, its exception leaves [notify_change] and the loop over
    the notifications, so the second notification is never attempted. *)
Theorem failed_retry_aborts_notifications (d1 d2 : deal)
    (ch1 ch2 : DealChange) (e : exn) :
  let e1 := {| embed_deal := d1; embed_change := ch1 |} in
  let e2 := {| embed_deal := d2; embed_change := ch2 |} in
  (let run := notify_all [(d1, ch1); (d2, ch2)]
                (Cycle.world_faulty [] [Some (HTTPException 429)]) in
   run.1 = Ret tt ∧
   delivered run.2 = [e1; e2] ∧
   trace run.2 =
     [SendAttempt e1 (Some (HTTPException 429)); Log RateLimited; Sleep 5000;
      SendAttempt e1 None; Sleep 500; SendAttempt e2 None; Sleep 500])
  ∧ (let run := notify_all [(d1, ch1); (d2, ch2)]
                  (Cycle.world_faulty [] [Some (HTTPException 429); Some e]) in
     run.1 = Raise e ∧
     delivered run.2 = [] ∧
     trace run.2 =
       [SendAttempt e1 (Some (HTTPException 429)); Log RateLimited;
        Sleep 5000; SendAttempt e1 (Some e)])
  ∧ (let run := scrape_and_process Cycle.calm_web [Sample.spain]
                  (Cycle.world_faulty []
                     [Some (HTTPException 429); Some (HTTPException 429)]) in
     run.1 = Raise (HTTPException 429) ∧
     stored_asins run.2 = [VStr "A"; VStr "B"] ∧
     delivered_asins run.2 = []).
Proof.
  split; [|split].
  - vm_compute. done.
  - vm_compute. done.
  - vm_compute. done.
Qed.

(** ** Identity keys *)

Lemma colon_prefix_inj (m1 m2 r1 r2 : string) :
  no_colon m1 = true → no_colon m2 = true →
  m1 +:+ ":" +:+ r1 = m2 +:+ ":" +:+ r2 → m1 = m2 ∧ r1 = r2.
Proof.
  assert (Hnil : ∀ r, EmptyString +:+ ":" +:+ r = String ":" r) by done.
  assert (Hcons : ∀ c m r, String c m +:+ ":" +:+ r = String c (m +:+ ":" +:+ r))
    by done.
  revert m2. induction m1 as [|c1 m1 IH]; intros [|c2 m2];
    rewrite ?Hnil, ?Hcons; simpl no_colon.
  - by intros _ _ [= ->].
  - by intros _ [Hc _]%andb_true_iff [= <- _].
  - by intros [Hc _]%andb_true_iff _ [= -> _].
  - intros [_ H1]%andb_true_iff [_ H2]%andb_true_iff [= -> Heq].
    by destruct (IH m2 H1 H2 Heq) as [-> ->].
Qed.

(** Without colons in the marketplace id and the site name, the key tells
    the three parts apart. *)
Lemma deal_key_inj (m1 s1 a1 m2 s2 a2 : string) :
  no_colon m1 = true → no_colon s1 = true →
  no_colon m2 = true → no_colon s2 = true →
  deal_key m1 s1 a1 = deal_key m2 s2 a2 →
  m1 = m2 ∧ s1 = s2 ∧ a1 = a2.
Proof.
  intros Hm1 Hs1 Hm2 Hs2 Hkey. unfold deal_key in Hkey.
  destruct (colon_prefix_inj _ _ _ _ Hm1 Hm2 Hkey) as [-> Hrest].
  destruct (colon_prefix_inj _ _ _ _ Hs1 Hs2 Hrest) as [-> ->]. done.
Qed.

Lemma build_query_lookup (asin m s : value) (f : string) :
  build_query asin m s !! f =
    if decide (f = "site") then (if truthy s then Some s else None)
    else if decide (f = "marketplace_id")
         then (if truthy m then Some m else None)
    else if decide (f = "asin") then Some asin
    else None.
Proof.
  unfold build_query.
  destruct (decide (f = "site")) as [->|Hs].
  - destruct (truthy s); [by rewrite lookup_insert_eq|].
    destruct (truthy m); [rewrite lookup_insert_ne by done|];
      by rewrite lookup_singleton_ne.
  - destruct (decide (f = "marketplace_id")) as [->|Hm].
    + destruct (truthy s); [rewrite lookup_insert_ne by done|];
        (destruct (truthy m); [by rewrite lookup_insert_eq|
                               by rewrite lookup_singleton_ne]).
    + destruct (decide (f = "asin")) as [->|Ha].
      * destruct (truthy s); [rewrite lookup_insert_ne by done|];
          (destruct (truthy m); [rewrite lookup_insert_ne by done|];
           by rewrite lookup_singleton_eq).
      * destruct (truthy s); [rewrite lookup_insert_ne by done|];
          (destruct (truthy m); [rewrite lookup_insert_ne by done|];
           by rewrite lookup_singleton_ne).
Qed.

(** A document matches the query of a deal exactly when it has the deal's
    [asin] and its [marketplace_id] and [site] wherever these are truthy. *)
Lemma matches_deal_query (d doc : deal) (asin : value) :
  matches (deal_query d asin) doc = true ↔
    doc !! "asin" = Some asin ∧
    (truthy (py_get d "marketplace_id") = true →
     doc !! "marketplace_id" = Some (py_get d "marketplace_id")) ∧
    (truthy (py_get d "site") = true →
     doc !! "site" = Some (py_get d "site")).
Proof.
  unfold matches, deal_query. rewrite bool_decide_eq_true, map_subseteq_spec.
  split.
  - intros H. split; [|split].
    + apply H. by rewrite build_query_lookup.
    + intros Hm. apply H. by rewrite build_query_lookup, Hm.
    + intros Hs. apply H. by rewrite build_query_lookup, Hs.
  - intros (Ha & Hm & Hs) f v. rewrite build_query_lookup.
    destruct (decide (f = "site")) as [->|_].
    { destruct (truthy (py_get d "site")); [|done].
      intros [= <-]. by apply Hs. }
    destruct (decide (f = "marketplace_id")) as [->|_].
    { destruct (truthy (py_get d "marketplace_id")); [|done].
      intros [= <-]. by apply Hm. }
    destruct (decide (f = "asin")) as [->|_]; [|done].
    by intros [= <-].
Qed.

Lemma obs_key_Some (o : observation) (k : string) :
  obs_key o = Some k →
  ∃ a, obs_deal o !! "asin" = Some a ∧
       k = deal_key (obs_marketplace_id o) (obs_site_name o) a.
Proof.
  unfold obs_key. destruct (obs_deal o !! "asin") as [a|]; simpl; [|done].
  destruct (_ || _); [done|]. intros [= <-]. eauto.
Qed.

Lemma aggregate_two_keys (o1 o2 : observation) (k1 k2 : string) :
  obs_key o1 = Some k1 → obs_key o2 = Some k2 → k1 ≠ k2 →
  aggregate [o1; o2] [] =
    Ret [(k1, entry_merge None o1); (k2, entry_merge None o2)].
Proof.
  intros H1 H2 Hne.
  assert (Hwf1 : agg_wf [(k1, entry_merge None o1)]).
  { apply (agg_wf_set [] k1 _ _ agg_wf_nil (entry_merge_categories None o1)). }
  unfold aggregate. rewrite (observe_keyed o1 [] k1 agg_wf_nil H1).
  change (alist_set k1 (entry_merge (alist_get k1 []) o1) [])
    with [(k1, entry_merge None o1)].
  rewrite (observe_keyed o2 _ k2 Hwf1 H2).
  unfold alist_get, alist_set. by rewrite !decide_False.
Qed.




(** ** What the accumulator hands to the reconciliation *)

Lemma present_nonempty (v : string) : present v = true → String.eqb v EmptyString = false.
Proof. unfold present. destruct (String.eqb v EmptyString); [done|done]. Qed.

Lemma entry_merge_listing (stored : option deal) (o : observation)
    (k : string) :
  obs_key o = Some k →
  (∀ st, stored = Some st → aggregated_listing st) →
  aggregated_listing (entry_merge stored o).
Proof.
  intros (a & Ha & _)%obs_key_Some Hst.
  eexists. split; [apply entry_merge_sorted|].
  split; [by rewrite list_to_set_py_sorted|].
  rewrite list_to_set_py_sorted.
  destruct stored as [st|].
  - destruct (Hst st eq_refl) as (l & Hl & _ & Hsub & Hlab & Hasin).
    assert (Hlabels : opt_label_set (Some st) = list_to_set l).
    { simpl. unfold label_set. by rewrite Hl. }
    rewrite Hlabels.
    split; [|split].
    + unfold direct_labels, py_get at 1.
      rewrite entry_merge_field by done. unfold obs_category.
      destruct (obs_deal o !! "category") as [v|] eqn:Hv; simpl.
      * destruct (present v) eqn:Hp; simpl.
        -- rewrite (present_nonempty _ Hp). set_solver.
        -- fold (py_get st "category"). fold (direct_labels st). set_solver.
      * fold (py_get st "category"). fold (direct_labels st). set_solver.
    + unfold label_ok, py_get. rewrite entry_merge_field by done.
      destruct (obs_deal o !! "category") as [v|]; [|exact Hlab].
      destruct (present v); [done|exact Hlab].
    + rewrite entry_merge_field by done. rewrite Ha.
      destruct (present a); [by eexists|done].
  - simpl opt_label_set. simpl entry_merge.
    assert (Hcat : ∀ m s b c (d : raw_deal),
              deal_copy m s b c d !! "category" = VStr <$> d !! "category").
    { intros. apply deal_copy_field. unfold stamped_fields.
      rewrite !not_elem_of_cons. repeat split; try done. apply not_elem_of_nil. }
    assert (Hasin : ∀ m s b c (d : raw_deal),
              deal_copy m s b c d !! "asin" = VStr <$> d !! "asin").
    { intros. apply deal_copy_field. unfold stamped_fields.
      rewrite !not_elem_of_cons. repeat split; try done. apply not_elem_of_nil. }
    split; [|split].
    + unfold direct_labels, py_get. rewrite Hcat. unfold obs_category.
      destruct (obs_deal o !! "category") as [v|]; simpl; [|set_solver].
      destruct (String.eqb v EmptyString); set_solver.
    + unfold label_ok, py_get. rewrite Hcat.
      by destruct (obs_deal o !! "category").
    + rewrite Hasin, Ha. by eexists.
Qed.

Lemma alist_get_elem (k : string) (c : collected_t) (e : deal) :
  alist_get k c = Some e → e ∈ c.*2.
Proof.
  induction c as [|[k' e'] c IH]; simpl; [done|].
  destruct (decide (k' = k)).
  - intros [= ->]. apply list_elem_of_here.
  - intros H. apply list_elem_of_further, IH, H.
Qed.

Lemma alist_set_Forall (P : deal → Prop) (k : string) (v : deal)
    (c : collected_t) :
  P v → Forall P c.*2 → Forall P (alist_set k v c).*2.
Proof.
  intros Hv. induction c as [|[k' e'] c IH]; simpl.
  - intros _. by apply Forall_singleton.
  - intros [He' Hc]%Forall_cons. destruct (decide (k' = k)); simpl.
    + by apply Forall_cons.
    + apply Forall_cons. split; [done|by apply IH].
Qed.

Lemma listings_agg_wf (c : collected_t) :
  Forall aggregated_listing c.*2 → agg_wf c.
Proof.
  intros Hall k e Hget. apply alist_get_elem in Hget.
  rewrite Forall_forall in Hall. destruct (Hall e Hget) as (l & Hl & _).
  eauto.
Qed.

(** Every entry the accumulator holds is an aggregated listing. *)
Lemma aggregate_listings (obs : list observation) (c c' : collected_t) :
  Forall aggregated_listing c.*2 →
  aggregate obs c = Ret c' →
  Forall aggregated_listing c'.*2.
Proof.
  revert c. induction obs as [|o obs IH]; intros c Hall; simpl.
  - by intros [= <-].
  - destruct (obs_key o) as [k|] eqn:Hk.
    + rewrite (observe_keyed o c k (listings_agg_wf c Hall) Hk).
      apply IH, alist_set_Forall; [|done].
      apply (entry_merge_listing _ _ k Hk). intros st Hst.
      apply alist_get_elem in Hst. rewrite Forall_forall in Hall. auto.
    + rewrite (observe_keyless o c Hk). by apply IH.
Qed.

(** Every deal a cycle hands to [process_deal] is an aggregated listing. *)
Lemma collected_listings web sites (w w' : world) (c : collected_t) :
  scrape_sites web sites [] w = (Ret c, w') →
  Forall aggregated_listing c.*2.
Proof.
  intros Hrun.
  destruct (scrape_sites_run web sites [] w agg_wf_nil)
    as (c' & w'' & Hrun' & Hagg & _).
  rewrite Hrun in Hrun'. injection Hrun' as -> ->.
  apply (aggregate_listings (observed web sites) [] c'); [|done].
  apply Forall_nil_2.
Qed.

(** A field that no scraped deal carries and the cycle does not stamp is
    missing from every entry; so it is for [_id] and [first_seen]. *)
Lemma aggregate_lacks_field (f : string) (obs : list observation)
    (c c' : collected_t) :
  f ∉ stamped_fields →
  (∀ o, o ∈ obs → obs_deal o !! f = None) →
  agg_wf c →
  Forall (λ e : deal, e !! f = None) c.*2 →
  aggregate obs c = Ret c' →
  Forall (λ e : deal, e !! f = None) c'.*2.
Proof.
  intros Hf. revert c. induction obs as [|o obs IH]; intros c Hobs Hwf Hall.
  - by intros [= <-].
  - simpl. destruct (obs_key o) as [k|] eqn:Hk.
    + rewrite (observe_keyed o c k Hwf Hk).
      apply IH.
      * intros o' Ho'. apply Hobs. by apply list_elem_of_further.
      * eapply agg_wf_set; [done|apply entry_merge_categories].
      * apply alist_set_Forall; [|done].
        assert (Ho : obs_deal o !! f = None)
          by apply Hobs, list_elem_of_here.
        destruct (alist_get k c) as [st|] eqn:Hget.
        -- rewrite entry_merge_field, Ho.
           ++ apply alist_get_elem in Hget.
              rewrite Forall_forall in Hall. by apply Hall.
           ++ intros ->. apply Hf. apply list_elem_of_here.
        -- simpl. rewrite deal_copy_field by done. by rewrite Ho.
    + rewrite (observe_keyless o c Hk). apply IH; [|done|done].
      intros o' Ho'. apply Hobs. by apply list_elem_of_further.
Qed.

(** * Further properties *)

(** ** The configuration *)

Lemma site_literal_dom (a b c d e : json) :
  dom ({[ "name" := a; "base_url" := b; "marketplace_id" := c;
          "categories" := d; "scrape_all" := e ]} : gmap string json)
  = site_keys.
Proof.
  unfold site_keys. rewrite !dom_insert_L, dom_singleton_L. set_solver.
Qed.

Lemma normalize_site_is_site (m : gmap string json) :
  is_site (normalize_site m).
Proof. eexists. split; [reflexivity|]. apply site_literal_dom. Qed.

Lemma normalize_sites_are_sites (sites : list json) :
  Forall is_site (normalize_sites sites).
Proof.
  induction sites as [|site sites IH]; [constructor|].
  destruct site; try exact IH.
  apply Forall_cons. split; [apply normalize_site_is_site|exact IH].
Qed.

Lemma default_config_sites :
  ∃ site, DEFAULT_CONFIG = JObj {[ "sites" := JArr [site] ]} ∧ is_site site ∧
          named site.
Proof.
  eexists. split; [reflexivity|]. split.
  - eexists. split; [reflexivity|]. apply site_literal_dom.
  - eexists _, (JStr "Amazon Spain"). split; [reflexivity|]. by split.
Qed.

Lemma normalize_config_sites (data : json) :
  ∃ sites, normalize_config data = JObj {[ "sites" := JArr sites ]} ∧
           sites ≠ [] ∧ Forall is_site sites.
Proof.
  destruct default_config_sites as (dsite & Hdef & Hdsite & _).
  assert (Hdefault : ∃ sites, DEFAULT_CONFIG = JObj {[ "sites" := JArr sites ]}
                              ∧ sites ≠ [] ∧ Forall is_site sites).
  { exists [dsite]. split; [done|]. split; [done|]. by constructor. }
  assert (Hfallback : ∀ d, ∃ sites,
            JObj {[ "sites" := JArr [fallback_site d] ]} =
              JObj {[ "sites" := JArr sites ]} ∧
            sites ≠ [] ∧ Forall is_site sites).
  { intros d. eexists. split; [reflexivity|]. split; [done|].
    constructor; [|constructor]. eexists. split; [reflexivity|].
    apply site_literal_dom. }
  destruct data as [| | | | | |d]; try exact Hdefault. simpl.
  destruct (default JNull (d !! "sites")) as [| | | | |[|site sites]|];
    try apply Hfallback.
  pose proof (normalize_sites_are_sites (site :: sites)) as Hall.
  destruct (normalize_sites (site :: sites)) as [|n ns]; [exact Hdefault|].
  exists (n :: ns). done.
Qed.

Lemma sites_inj (a b : list json) :
  JObj {[ "sites" := JArr a ]} = JObj {[ "sites" := JArr b ]} → a = b.
Proof.
  intros Heq.
  apply (f_equal (λ j, match j with
                       | JObj m => m !! "sites"
                       | _ => None
                       end)) in Heq.
  rewrite !lookup_singleton_eq in Heq. congruence.
Qed.

Lemma normalize_sites_length (sites : list json) :
  (length (normalize_sites sites) ≤ length sites)%nat.
Proof.
  induction sites as [|site sites IH]; [done|].
  destruct site; simpl in *; lia.
Qed.

(** X1. Whatever was read from [config.json], [normalize_config] returns a
    dict whose ["sites"] is a non-empty list of dicts, each with exactly the
    keys name, base_url, marketplace_id, categories and scrape_all.  It
    never makes up sites: the list has one site when the configuration gave
    no non-empty list of sites, and otherwise at most as many as were
    given. *)
Theorem normalize_config_shape (data : json) :
  ∃ sites, normalize_config data = JObj {[ "sites" := JArr sites ]} ∧
           sites ≠ [] ∧ Forall is_site sites ∧
           (length sites ≤
              match data with
              | JObj d =>
                  match d !! "sites" with
                  | Some (JArr given) => Nat.max 1 (length given)
                  | _ => 1
                  end
              | _ => 1
              end)%nat.
Proof.
  destruct (normalize_config_sites data) as (sites & Hsites & Hne & Hall).
  exists sites. split; [exact Hsites|]. split; [exact Hne|].
  split; [exact Hall|].
  destruct default_config_sites as (dsite & Hdef & _).
  assert (Hdefault : normalize_config data = DEFAULT_CONFIG →
                     length sites = 1%nat).
  { rewrite Hsites, Hdef. by intros ->%sites_inj. }
  destruct data as [| | | | | |d]; try (by rewrite Hdefault).
  assert (Hfallback :
            normalize_config (JObj d) =
              JObj {[ "sites" := JArr [fallback_site d] ]} →
            length sites = 1%nat).
  { rewrite Hsites. by intros ->%sites_inj. }
  destruct (d !! "sites") as [given|] eqn:Hd;
    [|rewrite Hfallback; [done|]; unfold normalize_config; by rewrite Hd].
  destruct given as [| | | | |given|];
    try (rewrite Hfallback; [done|]; unfold normalize_config; by rewrite Hd).
  destruct given as [|site given].
  { rewrite Hfallback; [done|]. unfold normalize_config. by rewrite Hd. }
  assert (Hnc : normalize_config (JObj d) =
                match normalize_sites (site :: given) with
                | [] => DEFAULT_CONFIG
                | ns => JObj {[ "sites" := JArr ns ]}
                end).
  { unfold normalize_config. rewrite Hd. reflexivity. }
  pose proof (normalize_sites_length (site :: given)) as Hlen.
  destruct (normalize_sites (site :: given)) as [|n ns] eqn:Hn.
  - rewrite (Hdefault Hnc). simpl. lia.
  - rewrite Hnc in Hsites. apply sites_inj in Hsites as <-. lia.
Qed.

Lemma normalize_site_again (m : gmap string json) :
  dom m = site_keys → normalize_site m = rename_site (JObj m).
Proof.
  intros Hdom.
  assert (Hin : ∀ k, k ∈ site_keys → is_Some (m !! k)).
  { intros k Hk. apply elem_of_dom. by rewrite Hdom. }
  destruct (Hin "name") as [a Ha]; [unfold site_keys; set_solver|].
  destruct (Hin "base_url") as [b Hb]; [unfold site_keys; set_solver|].
  destruct (Hin "marketplace_id") as [c Hc]; [unfold site_keys; set_solver|].
  destruct (Hin "categories") as [d Hd]; [unfold site_keys; set_solver|].
  destruct (Hin "scrape_all") as [e He]; [unfold site_keys; set_solver|].
  unfold normalize_site, rename_site. rewrite Ha, Hb, Hc, Hd, He. simpl.
  f_equal. apply map_eq. intros i.
  destruct (decide (i = "name")) as [->|Hn];
    [by rewrite !lookup_insert_eq|].
  rewrite !(lookup_insert_ne _ "name") by done.
  destruct (decide (i = "base_url")) as [->|Hbu];
    [by rewrite lookup_insert_eq|].
  rewrite lookup_insert_ne by done.
  destruct (decide (i = "marketplace_id")) as [->|Hm];
    [by rewrite lookup_insert_eq|].
  rewrite lookup_insert_ne by done.
  destruct (decide (i = "categories")) as [->|Hca];
    [by rewrite lookup_insert_eq|].
  rewrite lookup_insert_ne by done.
  destruct (decide (i = "scrape_all")) as [->|Hsa];
    [by rewrite lookup_singleton_eq|].
  rewrite lookup_singleton_ne by done. symmetry.
  apply not_elem_of_dom. rewrite Hdom. unfold site_keys. set_solver.
Qed.

Lemma normalize_sites_again (sites : list json) :
  Forall is_site sites → normalize_sites sites = rename_site <$> sites.
Proof.
  induction 1 as [|site sites (m & -> & Hdom) _ IH]; [done|].
  change (normalize_sites (JObj m :: sites))
    with (normalize_site m :: normalize_sites sites).
  rewrite IH. simpl. f_equal. by apply normalize_site_again.
Qed.

Lemma rename_site_named (site : json) :
  is_site site → named (rename_site site) ∧ is_site (rename_site site).
Proof.
  intros (m & -> & Hdom). simpl. split.
  - eexists _, _. split; [reflexivity|]. rewrite lookup_insert_eq.
    split; [reflexivity|]. unfold py_or.
    by destruct (jtruthy (default JNull (m !! "name"))) eqn:E.
  - eexists. split; [reflexivity|]. rewrite dom_insert_L, Hdom.
    unfold site_keys. set_solver.
Qed.

Lemma rename_site_id (site : json) : named site → rename_site site = site.
Proof.
  intros (m & n & -> & Hn & Htruthy). simpl. rewrite Hn. simpl.
  unfold py_or. rewrite Htruthy. f_equal. by apply insert_id.
Qed.

Lemma normalize_config_of_sites (sites : list json) :
  sites ≠ [] → Forall is_site sites →
  normalize_config (JObj {[ "sites" := JArr sites ]}) =
    JObj {[ "sites" := JArr (rename_site <$> sites) ]}.
Proof.
  intros Hne Hall. simpl. rewrite lookup_singleton_eq. simpl.
  destruct sites as [|site sites]; [done|].
  rewrite (normalize_sites_again _ Hall). reflexivity.
Qed.


(** ** The environment *)

Lemma env_unset_false (value : option string) :
  env_unset value = false ↔ ∃ s, value = Some s ∧ s ≠ EmptyString.
Proof.
  destruct value as [[|c s]|]; simpl; split; try done.
  - by intros (s & [= <-] & ?).
  - intros _. by eexists.
  - by intros (s & ? & ?).
Qed.

(** X3. [ensure_env_vars] returns a tuple exactly when DISCORD_TOKEN,
    DISCORD_CHANNEL_ID and MONGODB_URI are all set to non-empty strings and
    the channel id reads as an integer; the tuple then holds those values as
    they are and MONGODB_DB, "amazon_deals" when that one is unset (an empty
    MONGODB_DB is passed on as it is).  The error is the one about the integer
    exactly when the three are set and the channel id does not read as one:
    a variable that is missing is reported first. *)
Theorem ensure_env_vars_accepts (py_int : string → option Z)
    (env : gmap string string) :
  (∀ token channel_id mongo_uri mongo_db,
     ensure_env_vars py_int env = inr (token, channel_id, mongo_uri, mongo_db)
     ↔ env !! "DISCORD_TOKEN" = Some token ∧ token ≠ EmptyString ∧
       (∃ raw, env !! "DISCORD_CHANNEL_ID" = Some raw ∧ raw ≠ EmptyString ∧
               py_int raw = Some channel_id) ∧
       env !! "MONGODB_URI" = Some mongo_uri ∧ mongo_uri ≠ EmptyString ∧
       mongo_db = default "amazon_deals" (env !! "MONGODB_DB")) ∧
  (ensure_env_vars py_int env = inl "DISCORD_CHANNEL_ID must be an integer"
   ↔ (∃ token, env !! "DISCORD_TOKEN" = Some token ∧ token ≠ EmptyString) ∧
     (∃ raw, env !! "DISCORD_CHANNEL_ID" = Some raw ∧ raw ≠ EmptyString ∧
             py_int raw = None) ∧
     (∃ mongo_uri, env !! "MONGODB_URI" = Some mongo_uri ∧
                   mongo_uri ≠ EmptyString)).
Proof.
  unfold ensure_env_vars.
  destruct (env !! "DISCORD_TOKEN") as [[|c1 s1]|];
    destruct (env !! "DISCORD_CHANNEL_ID") as [[|c2 s2]|];
    destruct (env !! "MONGODB_URI") as [[|c3 s3]|];
    simpl;
    try (split; [intros token channel_id mongo_uri mongo_db|];
         (split; [discriminate|naive_solver])).
  destruct (py_int (String c2 s2)) as [id|] eqn:Hint.
  - split; [intros token channel_id mongo_uri mongo_db|].
    + split.
      * intros [= <- <- <- <-]. repeat split; try done. by eexists.
      * intros (Ht & _ & (raw & Hraw & _ & Hid) & Hu & _ & ->).
        injection Ht as <-. injection Hraw as <-. injection Hu as <-.
        rewrite Hint in Hid. by injection Hid as <-.
    + split; [discriminate|].
      intros (_ & (raw & [= <-] & _ & Hnone) & _). congruence.
  - split; [intros token channel_id mongo_uri mongo_db|].
    + split; [discriminate|].
      intros (_ & _ & (raw & [= <-] & _ & Hid) & _). congruence.
    + split; [|done]. intros _. repeat split; by eexists.
Qed.

(** ** The hosts of a scraper *)

Lemma append_cons (c : ascii) (p s : string) :
  String c p +:+ s = String c (p +:+ s).
Proof. reflexivity. Qed.

Lemma prefix_nil (s : string) : String.prefix EmptyString s = true.
Proof. by destruct s. Qed.

Lemma prefix_append (p s : string) : String.prefix p (p +:+ s) = true.
Proof.
  induction p as [|c p IH].
  - by destruct s.
  - rewrite append_cons. simpl. by destruct (ascii_dec c c).
Qed.

Lemma prefix_split (p s : string) :
  String.prefix p s = true → s = p +:+ str_drop (String.length p) s.
Proof.
  revert s. induction p as [|c p IH]; intros s Hp; [done|].
  destruct s as [|c' s]; [done|]. simpl in Hp.
  destruct (ascii_dec c c') as [<-|]; [|done].
  rewrite append_cons. simpl. f_equal. by apply IH.
Qed.

Lemma str_or_nonempty (x : option string) (dflt : string) :
  dflt ≠ EmptyString → str_or x dflt ≠ EmptyString.
Proof.
  intros Hd. destruct x as [s|]; simpl; [|done].
  destruct (String.eqb_spec s EmptyString); done.
Qed.

Lemma api_host_data (host : string) :
  String.prefix "data." (api_host_of host) = true.
Proof.
  unfold api_host_of.
  destruct (String.prefix "data." host) eqn:Hd; [done|].
  destruct (String.prefix "www." host); apply prefix_append.
Qed.

Lemma domain_host_not_data (host : string) :
  String.prefix "data." (domain_host_of host) = false.
Proof.
  unfold domain_host_of.
  destruct (String.prefix "data." host) eqn:Hd; [|done]. simpl.
  destruct host as [|c host]; [done|].
  unfold replace_first. fold replace_first. rewrite Hd. reflexivity.
Qed.

Lemma api_host_of_domain (host : string) :
  api_host_of (domain_host_of host) = api_host_of host.
Proof.
  unfold domain_host_of.
  destruct (String.prefix "data." host) eqn:Hd; [|done]. simpl.
  destruct host as [|c host]; [done|].
  unfold replace_first. fold replace_first. rewrite Hd.
  unfold api_host_of at 2. rewrite Hd.
  rewrite (prefix_split _ _ Hd) at 2.
  generalize (str_drop (String.length "data.") (String c host)).
  intros rest. unfold api_host_of.
  change ("www." +:+ rest)
    with (String "w" (String "w" (String "w" (String "." rest)))).
  cbn. by rewrite prefix_nil.
Qed.

(** X4. Whatever base URL a scraper is made for, the host it builds product
    links on never starts with "data.", the API it listens to is served from
    the "data." host of that very domain, under the scraper's marketplace id,
    and neither the marketplace id nor the base URL is ever empty. *)
Theorem scraper_api_follows_domain (hostname : string → option string)
    (lower : string → string)
    (marketplace_id category base_url site_name : option string) :
  let self :=
    new_scraper hostname lower marketplace_id category base_url site_name in
  String.prefix "data." (sc_domain_host self) = false ∧
  String.prefix "data." (api_host_of (sc_domain_host self)) = true ∧
  sc_api_url self =
    "https://" +:+ api_host_of (sc_domain_host self) +:+ "/api/marketplaces/"
    +:+ sc_marketplace_id self +:+ "/promotions" ∧
  sc_marketplace_id self ≠ EmptyString ∧
  sc_base_url self ≠ EmptyString ∧
  sc_deals self = [].
Proof.
  simpl. split; [apply domain_host_not_data|].
  split; [apply api_host_data|].
  split; [by rewrite api_host_of_domain|].
  split; [|split; [|done]]; by apply str_or_nonempty.
Qed.

(** ** Parsed promotions *)

Ltac lookup_literal :=
  repeat (rewrite lookup_insert_ne by done);
  first [apply lookup_insert_eq | apply lookup_singleton_eq].

Ltac bind_cases H :=
  repeat match type of H with
         | (?x ≫= _) = Some _ =>
             let E := fresh "E" in
             destruct x eqn:E; [simpl in H|discriminate H]
         end.

Lemma is_na_true (v : json) : is_na v = true ↔ v = JStr NA.
Proof.
  destruct v; simpl; try (split; [discriminate|done]).
  rewrite String.eqb_eq. split; congruence.
Qed.

Lemma product_url_na (py_str : json → string) (self : scraper_state)
    (asin : json) :
  product_url_text py_str self asin = NA ↔ asin = JStr NA.
Proof.
  rewrite <- is_na_true. unfold product_url_text.
  generalize (str_or (Some (sc_domain_host self)) "www.amazon.es").
  intros host.
  destruct (is_na asin); simpl; [done|]. split; [|done].
  destruct (String.prefix "http" host) eqn:Hp; simpl.
  - rewrite (prefix_split _ _ Hp). discriminate.
  - discriminate.
Qed.

Lemma deal_literal_dom (a b c d e f g h i j k l m : json) :
  dom ({[ "title" := a; "asin" := b; "product_url" := c; "discount" := d;
          "current_price" := e; "original_price" := f; "deal_badge" := g;
          "category" := h; "brand_id" := i; "image_url" := j;
          "marketplace_id" := k; "site" := l; "base_url" := m ]}
       : gmap string json) = deal_keys.
Proof.
  unfold deal_keys. rewrite !dom_insert_L, dom_singleton_L. set_solver.
Qed.

Lemma parse_promotion_is_stamped (py_str : json → string)
    (self : scraper_state) (promo : json) (deal : gmap string json) :
  parse_promotion py_str self promo = Some deal → stamped self deal.
Proof.
  intros H. unfold parse_promotion in H. bind_cases H.
  injection H as <-.
  split; [apply deal_literal_dom|]. repeat split; lookup_literal.
Qed.

(** X5. Every deal [parse_promotion] returns has exactly the thirteen keys of
    a deal, carries the marketplace id, site name, base URL and category of
    the scraper that read it ("All Categories" when the scraper has none),
    has text for its prices, discount, image and product URL, and has the
    product URL "N/A" exactly when its asin is "N/A". *)
Theorem parse_promotion_stamped (py_str : json → string)
    (self : scraper_state) (promo : json) (deal : gmap string json) :
  parse_promotion py_str self promo = Some deal →
  stamped self deal ∧
  (∀ field, field ∈ ["product_url"; "discount"; "current_price";
                     "original_price"; "image_url"] →
            ∃ text, deal !! field = Some (JStr text)) ∧
  (deal !! "product_url" = Some (JStr NA) ↔ deal !! "asin" = Some (JStr NA)).
Proof.
  intros H. split; [by eapply parse_promotion_is_stamped|].
  unfold parse_promotion in H. bind_cases H.
  injection H as <-. split.
  - intros field Hfield.
    repeat (apply elem_of_cons in Hfield as [->|Hfield]);
      [..|by apply elem_of_nil in Hfield];
      eexists; lookup_literal.
  - match goal with
    | |- ?d !! _ = _ ↔ _ =>
        assert (d !! "product_url"
                = Some (JStr (product_url_text py_str self j1))) as ->
          by lookup_literal;
        assert (d !! "asin" = Some j1) as -> by lookup_literal
    end.
    split; intros [= Heq]; do 2 f_equal.
    + by apply product_url_na in Heq.
    + by apply product_url_na.
Qed.

Lemma parse_promotion_stamped_witness :
  parse_promotion Promo.py_str Promo.self Promo.priced
    = Some Promo.priced_deal ∧
  stamped Promo.self Promo.priced_deal.
Proof.
  assert (H : parse_promotion Promo.py_str Promo.self Promo.priced
              = Some Promo.priced_deal) by (vm_compute; reflexivity).
  split; [exact H|].
  exact (proj1 (parse_promotion_stamped _ _ _ _ H)).
Defined.

Lemma parse_productless (py_str : json → string) (self : scraper_state)
    (m : gmap string json) :
  m !! "product" = None →
  parse_promotion py_str self (JObj m) =
    Some {[ "title" := JStr NA; "asin" := JStr NA;
            "product_url" := JStr NA; "discount" := JStr NA;
            "current_price" := JStr NA; "original_price" := JStr NA;
            "deal_badge" := JStr NA;
            "category" := JStr (str_or (sc_category self) "All Categories");
            "brand_id" := default (JStr NA) (m !! "brandId");
            "image_url" := JStr NA;
            "marketplace_id" := JStr (sc_marketplace_id self);
            "site" := JStr (sc_site_name self);
            "base_url" := JStr (sc_base_url self) ]}.
Proof.
  intros Hm. unfold parse_promotion. simpl. rewrite Hm. simpl.
  rewrite !lookup_empty. simpl. rewrite !lookup_empty. reflexivity.
Qed.

(** X6. A promotion that names no product is not rejected by
    [parse_promotion]: it yields a deal whose asin, title, prices, discount,
    badge, image and product URL are all "N/A".  The bot's merge step leaves
    [collected] untouched for such a deal, whatever the site it is merged
    under. *)
Theorem productless_promotion_is_dropped (py_str : json → string)
    (self : scraper_state) (m : gmap string json) (raw : raw_deal)
    (marketplace_id site_name base_url : string) (collected : collected_t) :
  m !! "product" = None →
  parse_promotion py_str self (JObj m) = Some (JStr <$> raw) →
  (∀ field, field ∈ ["title"; "asin"; "product_url"; "discount";
                     "current_price"; "original_price"; "deal_badge";
                     "image_url"] →
            raw !! field = Some NA) ∧
  merge_listing marketplace_id site_name base_url raw collected
    = Ret collected.
Proof.
  intros Hm Hparse. rewrite (parse_productless _ _ _ Hm) in Hparse.
  injection Hparse as Hraw.
  assert (Hfields : ∀ field,
            field ∈ ["title"; "asin"; "product_url"; "discount";
                     "current_price"; "original_price"; "deal_badge";
                     "image_url"] → raw !! field = Some NA).
  { intros field Hfield.
    apply (f_equal (.!! field)) in Hraw. rewrite lookup_fmap in Hraw.
    assert (Hna : JStr <$> raw !! field = Some (JStr NA)).
    { rewrite <- Hraw.
      repeat (apply elem_of_cons in Hfield as [->|Hfield]);
        [..|by apply elem_of_nil in Hfield]; lookup_literal. }
    destruct (raw !! field) as [s|]; [|done].
    by injection Hna as ->. }
  split; [exact Hfields|].
  unfold merge_listing. rewrite (Hfields "asin"); [reflexivity|].
  set_solver.
Qed.

Lemma productless_promotion_is_dropped_witness :
  parse_promotion Promo.py_str Promo.self (JObj ∅)
    = Some (JStr <$> Promo.bare_deal) ∧
  merge_listing "A1RKKUPIHCS9HS" "Amazon Spain" "https://www.amazon.es"
    Promo.bare_deal [] = Ret [].
Proof.
  assert (H : parse_promotion Promo.py_str Promo.self (JObj ∅)
              = Some (JStr <$> Promo.bare_deal)) by (vm_compute; reflexivity).
  split; [exact H|].
  apply (productless_promotion_is_dropped Promo.py_str Promo.self ∅).
  - reflexivity.
  - exact H.
Defined.

(** ** Intercepted responses *)

Lemma with_deals_same (self : scraper_state) :
  with_deals self (sc_deals self ++ []) = self.
Proof. destruct self. unfold with_deals. simpl. by rewrite app_nil_r. Qed.

Lemma omap_parse_stamped (py_str : json → string) (self : scraper_state)
    (promos : list json) :
  Forall (stamped self) (omap (parse_promotion py_str self) promos).
Proof.
  induction promos as [|promo promos IH]; [constructor|]. simpl.
  destruct (parse_promotion py_str self promo) as [deal|] eqn:E; [|exact IH].
  apply Forall_cons. split; [|exact IH].
  apply (parse_promotion_is_stamped _ _ _ _ E).
Qed.

Lemma intercepted_Some (py_str : json → string) (self : scraper_state)
    (body : json) (new : list (gmap string json)) :
  intercepted py_str self body = Some new → new ≠ [] →
  ∃ data entity promotions promos,
    body = JObj data ∧ data !! "entity" = Some (JObj entity) ∧
    entity !! "rankedPromotions" = Some promotions ∧
    py_iter promotions = Some promos ∧
    new = omap (parse_promotion py_str self) promos.
Proof.
  unfold intercepted. intros H Hne.
  destruct (py_contains "entity" body) as [[]|] eqn:Hc;
    simpl in H; [|congruence|done].
  destruct (py_getitem body "entity") as [entity|] eqn:He;
    simpl in H; [|done].
  destruct (py_contains "rankedPromotions" entity) as [[]|] eqn:Hr;
    simpl in H; [|congruence|done].
  destruct (py_getitem entity "rankedPromotions") as [promotions|] eqn:Hp;
    simpl in H; [|done].
  destruct (py_iter promotions) as [promos|] eqn:Hi; simpl in H; [|done].
  injection H as <-.
  destruct body as [| | | | | |data]; try done.
  destruct entity as [| | | | | |entity]; try done.
  by exists data, entity, promotions, promos.
Qed.

Lemma intercepted_stamped (py_str : json → string) (self : scraper_state)
    (body : json) (new : list (gmap string json)) :
  intercepted py_str self body = Some new → Forall (stamped self) new.
Proof.
  unfold intercepted. intros Hnew.
  destruct (py_contains "entity" body) as [[]|]; simpl in Hnew;
    [|injection Hnew as <-; constructor|done].
  destruct (py_getitem body "entity") as [entity|]; simpl in Hnew; [|done].
  destruct (py_contains "rankedPromotions" entity) as [[]|]; simpl in Hnew;
    [|injection Hnew as <-; constructor|done].
  destruct (py_getitem entity "rankedPromotions") as [promotions|];
    simpl in Hnew; [|done].
  destruct (py_iter promotions) as [promos|]; simpl in Hnew; [|done].
  injection Hnew as <-. apply omap_parse_stamped.
Qed.

Lemma handle_response_grow (py_str : json → string) (self : scraper_state)
    (r : response) :
  ∃ new,
    handle_response py_str self r = with_deals self (sc_deals self ++ new) ∧
    Forall (stamped self) new.
Proof.
  unfold handle_response.
  destruct (_ && _); [|exists []; by rewrite with_deals_same].
  destruct (resp_body r ≫= intercepted py_str self) as [new|] eqn:Hnew;
    [|exists []; by rewrite with_deals_same].
  exists new. split; [done|].
  destruct (resp_body r) as [body|]; [|done].
  by eapply intercepted_stamped.
Qed.

(** X7. One response only ever appends to the deals of a scraper and leaves
    everything else of it alone; what it appends carries the scraper's
    identity; and it appends nothing unless the URL contains the scraper's
    API URL, the status is 200 and the body is a dict whose ["entity"] is a
    dict with ["rankedPromotions"]: then exactly the promotions that parse,
    in their order. *)
Theorem handle_response_appends (py_str : json → string)
    (self : scraper_state) (r : response) :
  ∃ new,
    handle_response py_str self r = with_deals self (sc_deals self ++ new) ∧
    Forall (stamped self) new ∧
    (new ≠ [] →
     contains (sc_api_url self) (resp_url r) = true ∧ resp_status r = 200 ∧
     ∃ data entity promotions promos,
       resp_body r = Some (JObj data) ∧
       data !! "entity" = Some (JObj entity) ∧
       entity !! "rankedPromotions" = Some promotions ∧
       py_iter promotions = Some promos ∧
       new = omap (parse_promotion py_str self) promos).
Proof.
  unfold handle_response.
  destruct (contains (sc_api_url self) (resp_url r)) eqn:Hurl; simpl;
    [|exists []; by rewrite with_deals_same].
  destruct (resp_status r =? 200) eqn:Hstatus;
    [|exists []; by rewrite with_deals_same].
  apply Z.eqb_eq in Hstatus.
  destruct (resp_body r) as [body|] eqn:Hbody; simpl;
    [|exists []; by rewrite with_deals_same].
  destruct (intercepted py_str self body) as [new|] eqn:Hnew;
    [|exists []; by rewrite with_deals_same].
  exists new. split; [done|]. split.
  - by eapply intercepted_stamped.
  - intros Hne. split; [done|]. split; [done|].
    destruct (intercepted_Some _ _ _ _ Hnew Hne)
      as (data & entity & promotions & promos & -> & ?).
    by exists data, entity, promotions, promos.
Qed.

Lemma handle_responses_grow (py_str : json → string) (rs : list response)
    (self : scraper_state) :
  Forall (stamped self) (sc_deals self) →
  ∃ new,
    handle_responses py_str self rs = with_deals self (sc_deals self ++ new) ∧
    Forall (stamped self) new.
Proof.
  revert self. induction rs as [|r rs IH]; intros self Hself.
  - exists []. split; [|constructor]. unfold handle_responses. simpl.
    by rewrite with_deals_same.
  - destruct (handle_response_grow py_str self r) as (new & Hr & Hnew).
    unfold handle_responses. simpl. rewrite Hr.
    destruct (IH (with_deals self (sc_deals self ++ new)))
      as (new' & Hrs & Hnew').
    { simpl. apply Forall_app. by split. }
    unfold handle_responses in Hrs. rewrite Hrs. simpl.
    exists (new ++ new'). split.
    + unfold with_deals. simpl. by rewrite app_assoc.
    + apply Forall_app. by split.
Qed.

(** X8. Over any sequence of responses, from a scraper as [__init__] leaves
    it: every deal gathered carries the scraper's marketplace id, site name,
    base URL and category under the thirteen keys of a deal, and the deals
    gathered after more responses extend, in place, those gathered before,
    so [len(self.deals)] never goes down. *)
Theorem gathered_deals_stamped (py_str : json → string)
    (hostname : string → option string) (lower : string → string)
    (marketplace_id category base_url site_name : option string)
    (rs more : list response) :
  let self :=
    new_scraper hostname lower marketplace_id category base_url site_name in
  Forall (stamped self) (sc_deals (handle_responses py_str self rs)) ∧
  sc_deals (handle_responses py_str self rs)
    `prefix_of` sc_deals (handle_responses py_str self (rs ++ more)) ∧
  (length (sc_deals (handle_responses py_str self rs))
   ≤ length (sc_deals (handle_responses py_str self (rs ++ more))))%nat.
Proof.
  intros self.
  destruct (handle_responses_grow py_str rs self) as (new & Hrs & Hnew);
    [constructor|].
  assert (Hprefix :
    sc_deals (handle_responses py_str self rs)
      `prefix_of` sc_deals (handle_responses py_str self (rs ++ more))).
  { unfold handle_responses at 2. rewrite foldl_app.
    fold (handle_responses py_str self rs).
    fold (handle_responses py_str (handle_responses py_str self rs) more).
    destruct (handle_responses_grow py_str more
                (handle_responses py_str self rs)) as (new' & Hmore & _).
    { rewrite Hrs. exact Hnew. }
    rewrite Hmore. simpl. by exists new'. }
  split; [|split; [exact Hprefix|by apply prefix_length]].
  rewrite Hrs. simpl. exact Hnew.
Qed.

(** ** The loading loop *)

Lemma scroll_step_same (max_pages : option Z) (s : scroll) :
  scroll_step max_pages (previous_count s) s =
    if (max_no_new_attempts <=? S (no_new_products_count s))%nat
    then inr {| page_num := page_num s; previous_count := previous_count s;
                no_new_products_count := S (no_new_products_count s) |}
    else
      let s' := {| page_num := S (page_num s);
                   previous_count := previous_count s;
                   no_new_products_count := S (no_new_products_count s) |} in
      if page_limit_hit max_pages (S (page_num s)) then inr s' else inl s'.
Proof. unfold scroll_step. by rewrite Nat.eqb_refl. Qed.

Lemma scroll_step_new (max_pages : option Z) (current : nat) (s : scroll) :
  current ≠ previous_count s →
  scroll_step max_pages current s =
    let s' := {| page_num := S (page_num s); previous_count := current;
                 no_new_products_count := 0%nat |} in
    if page_limit_hit max_pages (S (page_num s)) then inr s' else inl s'.
Proof.
  intros Hne. unfold scroll_step.
  by destruct (Nat.eqb_spec current (previous_count s)).
Qed.

Lemma scroll_step_inl (max_pages : option Z) (current : nat) (s s' : scroll) :
  scroll_step max_pages current s = inl s' →
  page_num s' = S (page_num s) ∧
  page_limit_hit max_pages (S (page_num s)) = false.
Proof.
  unfold scroll_step. intros H. repeat case_match; simplify_eq; done.
Qed.

Lemma scroll_step_inr (max_pages : option Z) (current : nat) (s s' : scroll) :
  scroll_step max_pages current s = inr s' →
  (page_num s' ≤ S (page_num s))%nat.
Proof.
  unfold scroll_step. intros H. repeat case_match; simplify_eq; simpl; lia.
Qed.

Lemma scroll_loop_ends (max_pages : option Z) (count_at : nat → nat)
    (bound : nat) :
  (∀ p, count_at p ≤ count_at (S p))%nat →
  (∀ p, count_at p ≤ bound)%nat →
  ∀ (n : nat) (s : scroll),
    (previous_count s ≤ count_at (page_num s))%nat →
    (no_new_products_count s < max_no_new_attempts)%nat →
    (3 * (bound - previous_count s)
     + (max_no_new_attempts - no_new_products_count s) ≤ n)%nat →
    ∃ fuel s',
      (fuel ≤ n)%nat ∧
      scroll_loop fuel max_pages count_at s = Some s' ∧
      (previous_count s ≤ previous_count s' ≤ bound)%nat ∧
      (page_limit_hit max_pages (page_num s') = true ∨
       no_new_products_count s' = max_no_new_attempts ∧
       count_at (page_num s') = previous_count s').
Proof.
  intros Hmono Hbound. unfold max_no_new_attempts.
  induction n as [|n IH]; intros s Hprev Hno Hn; [lia|].
  destruct (decide (count_at (page_num s) = previous_count s)) as [Heq|Hne].
  - destruct (decide (S (no_new_products_count s) = 3%nat)) as [Hlast|Hmore].
    + exists 1%nat. eexists. split; [lia|]. simpl.
      rewrite Heq, scroll_step_same. unfold max_no_new_attempts.
      rewrite Hlast. simpl. split; [reflexivity|]. simpl.
      split; [specialize (Hbound (page_num s)); lia|]. by right.
    + destruct (page_limit_hit max_pages (S (page_num s))) eqn:Hlimit.
      * exists 1%nat. eexists. split; [lia|]. simpl.
        rewrite Heq, scroll_step_same. unfold max_no_new_attempts.
        destruct (Nat.leb_spec 3 (S (no_new_products_count s))); [lia|].
        simpl. rewrite Hlimit. split; [reflexivity|]. simpl.
        split; [specialize (Hbound (page_num s)); lia|]. by left.
      * destruct (IH {| page_num := S (page_num s);
                        previous_count := previous_count s;
                        no_new_products_count :=
                          S (no_new_products_count s) |})
          as (fuel & s' & Hfuel & Hrun & Hcount & Hend); simpl.
        { specialize (Hmono (page_num s)). lia. }
        { lia. }
        { lia. }
        exists (S fuel), s'. split; [lia|]. simpl.
        rewrite Heq, scroll_step_same. unfold max_no_new_attempts.
        destruct (Nat.leb_spec 3 (S (no_new_products_count s))); [lia|].
        simpl. rewrite Hlimit. done.
  - destruct (page_limit_hit max_pages (S (page_num s))) eqn:Hlimit.
    + exists 1%nat. eexists. split; [lia|]. simpl.
      rewrite scroll_step_new by done. simpl. rewrite Hlimit.
      split; [reflexivity|]. simpl.
      split; [specialize (Hbound (page_num s)); lia|]. by left.
    + destruct (IH {| page_num := S (page_num s);
                      previous_count := count_at (page_num s);
                      no_new_products_count := 0%nat |})
        as (fuel & s' & Hfuel & Hrun & Hcount & Hend); simpl.
      { apply Hmono. }
      { lia. }
      { specialize (Hbound (page_num s)). lia. }
      exists (S fuel), s'. split; [lia|]. simpl.
      rewrite scroll_step_new by done. simpl. rewrite Hlimit.
      simpl in Hcount. split; [done|]. split; [lia|done].
Qed.

(** X9. The loading loop ends when the page runs out of deals: if the number
    of deals gathered never goes down and never exceeds [bound], the loop
    that starts with [n0] deals breaks after at most 3 * (bound - n0) + 3
    passes, whatever the page limit; and it breaks either on the page limit
    or after three passes in a row that found nothing new. *)
Theorem scroll_loop_terminates (max_pages : option Z) (count_at : nat → nat)
    (bound n0 : nat) :
  (∀ p, count_at p ≤ count_at (S p))%nat →
  (∀ p, count_at p ≤ bound)%nat →
  (n0 ≤ count_at 1)%nat →
  ∃ fuel s',
    (fuel ≤ 3 * (bound - n0) + 3)%nat ∧
    scroll_loop fuel max_pages count_at (scroll_start n0) = Some s' ∧
    (n0 ≤ previous_count s' ≤ bound)%nat ∧
    (page_limit_hit max_pages (page_num s') = true ∨
     no_new_products_count s' = max_no_new_attempts ∧
     count_at (page_num s') = previous_count s').
Proof.
  intros Hmono Hbound Hstart.
  apply (scroll_loop_ends max_pages count_at bound Hmono Hbound
           (3 * (bound - n0) + 3) (scroll_start n0)); simpl.
  - exact Hstart.
  - unfold max_no_new_attempts. lia.
  - unfold max_no_new_attempts. lia.
Qed.

Lemma scroll_loop_terminates_witness :
  ∃ fuel s',
    (fuel ≤ 3 * (2 - 0) + 3)%nat ∧
    scroll_loop fuel None (λ p, Nat.min p 2) (scroll_start 0) = Some s' ∧
    (0 ≤ previous_count s' ≤ 2)%nat.
Proof.
  destruct (scroll_loop_terminates None (λ p, Nat.min p 2) 2 0)
    as (fuel & s' & Hfuel & Hrun & Hcount & _).
  - intros p. lia.
  - intros p. lia.
  - simpl. lia.
  - by exists fuel, s'.
Defined.

Lemma page_limit_hit_spec (m : Z) (p : nat) :
  m ≠ 0 → page_limit_hit (Some m) p = true ↔ m < Z.of_nat p.
Proof.
  intros Hm. unfold page_limit_hit.
  destruct (Z.eqb_spec m 0); [done|]. simpl. apply Z.ltb_lt.
Qed.

Lemma scroll_loop_limited (m : Z) (count_at : nat → nat) :
  m ≠ 0 →
  ∀ (n : nat) (s : scroll),
    (1 ≤ page_num s)%nat →
    Z.of_nat (page_num s) ≤ Z.max m 1 →
    Z.max m 1 - Z.of_nat (page_num s) < Z.of_nat n →
    ∃ fuel s',
      (fuel ≤ n)%nat ∧
      scroll_loop fuel (Some m) count_at s = Some s' ∧
      Z.of_nat (page_num s') ≤ Z.max m 1 + 1.
Proof.
  intros Hm. induction n as [|n IH]; intros s Hpos Hp Hn; [lia|].
  destruct (scroll_step (Some m) (count_at (page_num s)) s)
    as [s1|s1] eqn:Hstep.
  - assert (Hs1 : page_num s1 = S (page_num s) ∧
                  page_limit_hit (Some m) (S (page_num s)) = false).
    { by apply scroll_step_inl in Hstep. }
    destruct Hs1 as [Hnum Hlimit].
    assert (¬ m < Z.of_nat (S (page_num s))).
    { rewrite <- page_limit_hit_spec by done. by rewrite Hlimit. }
    destruct (IH s1) as (fuel & s' & Hfuel & Hrun & Hpage); [lia..|].
    exists (S fuel), s'. split; [lia|]. simpl. by rewrite Hstep.
  - exists 1%nat, s1. split; [lia|]. simpl. rewrite Hstep.
    split; [done|]. apply scroll_step_inr in Hstep. lia.
Qed.

(** X10. A page limit other than 0 is kept whatever the page serves: with
    [max_pages = m] the loop breaks after at most [max m 1] passes.  A limit
    of 0 is no limit: the loop then runs as with [max_pages = None]. *)
Theorem scroll_loop_page_limit (m : Z) (count_at : nat → nat) (n0 : nat) :
  (m ≠ 0 →
   ∃ fuel s',
     (fuel ≤ Z.to_nat (Z.max m 1))%nat ∧
     scroll_loop fuel (Some m) count_at (scroll_start n0) = Some s' ∧
     Z.of_nat (page_num s') ≤ Z.max m 1 + 1) ∧
  (∀ fuel s, scroll_loop fuel (Some 0) count_at s
             = scroll_loop fuel None count_at s).
Proof.
  split.
  - intros Hm.
    apply (scroll_loop_limited m count_at Hm (Z.to_nat (Z.max m 1))
             (scroll_start n0)); simpl; lia.
  - induction fuel as [|fuel IH]; intros s; [done|]. simpl.
    assert (Hstep : ∀ c, scroll_step (Some 0) c s = scroll_step None c s)
      by done.
    rewrite Hstep. destruct (scroll_step None _ s); [apply IH|done].
Qed.

(** X11. Without a page limit the loop does not end while every pass finds
    new deals: if the number of deals gathered grows at every pass, no number
    of passes reaches a [break]. *)
Theorem scroll_loop_runs_on (count_at : nat → nat) (n0 fuel : nat) :
  (∀ p, count_at p < count_at (S p))%nat →
  (n0 < count_at 1)%nat →
  scroll_loop fuel None count_at (scroll_start n0) = None.
Proof.
  intros Hgrow Hstart.
  assert (H : ∀ s, (previous_count s < count_at (page_num s))%nat →
                   scroll_loop fuel None count_at s = None).
  { induction fuel as [|fuel IH]; intros s Hs; [done|]. simpl.
    rewrite scroll_step_new by lia. simpl. apply IH. simpl. apply Hgrow. }
  by apply H.
Qed.

Lemma scroll_loop_runs_on_witness :
  scroll_loop 50 None (λ p, p) (scroll_start 0) = None.
Proof.
  apply (scroll_loop_runs_on (λ p, p) 0 50).
  - intros p. lia.
  - lia.
Defined.

(** ** A stored deal is found again *)

Lemma find_app_last {A} (p : A → bool) (l : list A) (x : A) :
  List.find p l = None →
  List.find p (l ++ [x]) = if p x then Some x else None.
Proof.
  induction l as [|y l IH]; simpl; [done|].
  destruct (p y); [done|exact IH].
Qed.

Lemma rearm_store_wf (store_fs : list bool) (send_fs : list (option exn))
    (channel : bool) (t : Z) (w : world) :
  store_wf w → store_wf (rearm store_fs send_fs channel t w).
Proof. apply same_store_wf. by split. Qed.

Lemma py_get_truthy (d : deal) (f : string) :
  truthy (py_get d f) = true → d !! f = Some (py_get d f).
Proof. unfold py_get. by destruct (d !! f). Qed.


Lemma empty_store_wf : store_wf (Scenario.world_with []).
Proof.
  split; [constructor|]. split.
  - intros doc Hdoc. by apply elem_of_nil in Hdoc.
  - intros doc n Hdoc. by apply elem_of_nil in Hdoc.
Qed.


(** ** Delivery *)

(** X13. [notify_change] delivers an embed at most once and never touches
    the store.  It makes at most two attempts.  When it returns with the
    channel set, the embed was delivered exactly once, after 500 ms of
    pauses, or 5500 ms when the first attempt was rate limited; when it
    returns with no channel, nothing was attempted and the loss is logged
    once; when it raises, nothing was delivered. *)
Theorem notify_change_delivers_once (d : deal) (change : DealChange)
    (w : world) :
  let e := {| embed_deal := d; embed_change := change |} in
  let r := notify_change d change w in
  deals_coll r.2 = deals_coll w ∧
  (length (send_faults w) ≤ length (send_faults r.2) + 2)%nat ∧
  match r.1 with
  | Ret _ =>
      if deals_channel w
      then delivered r.2 = delivered w ++ [e] ∧
           (clock r.2 = clock w + 500 ∧
            head (send_faults w) ≠ Some (Some (HTTPException 429)) ∨
            clock r.2 = clock w + 5500 ∧
            head (send_faults w) = Some (Some (HTTPException 429)))
      else delivered r.2 = delivered w ∧ send_faults r.2 = send_faults w ∧
           clock r.2 = clock w ∧ trace r.2 = trace w ++ [Log ChannelNotReady]
  | Raise exc => deals_channel w = true ∧ delivered r.2 = delivered w
  end.
Proof.
  intros e r. subst r e.
  unfold notify_change, bind, try_except, channel_ready, send, log, sleep,
    raise, ret.
  destruct w as [coll oid sf [] fs del clk tr]; simpl.
  2: { repeat split. lia. }
  assert (Hlen : ∀ n : nat, (S n ≤ n + 2)%nat) by (intros; lia).
  assert (Hlen' : ∀ n : nat, (S (S n) ≤ n + 2)%nat) by (intros; lia).
  destruct fs as [|[exc|] fs]; simpl.
  - repeat split; [lia|]. left. split; [lia|done].
  - destruct exc as [| | |status|]; simpl; try (by repeat split).
    destruct (decide (status = 429)) as [->|Hstatus]; simpl;
      [|by repeat split].
    destruct fs as [|[err|] fs]; simpl.
    + repeat split; [lia|]. right. split; [lia|done].
    + by repeat split.
    + repeat split; [lia|]. right. split; [lia|done].
  - repeat split; [lia|]. left. split; [lia|done].
Qed.

(** ** The scrape phase *)

Lemma scrape_effect_refl (w : world) : scrape_effect 0 [] w w.
Proof.
  unfold scrape_effect. rewrite app_nil_r. repeat split. lia.
Qed.

Lemma scrape_effect_trans (n1 n2 : nat) (m1 m2 : list log_msg)
    (w w1 w2 : world) :
  scrape_effect n1 m1 w w1 → scrape_effect n2 m2 w1 w2 →
  scrape_effect (n1 + n2) (m1 ++ m2) w w2.
Proof.
  intros (Hc1 & Hl1 & ? & ? & ? & ? & ? & ?)
         (Hc2 & Hl2 & ? & ? & ? & ? & ? & ?).
  unfold scrape_effect. rewrite Hc2, Hc1, Hl2, Hl1, app_assoc.
  repeat split; try congruence. lia.
Qed.

Lemma logged_add_log (m : log_msg) (w : world) :
  logged (add_event (Log m) w) = logged w ++ [m].
Proof. unfold logged. simpl. by rewrite omap_app. Qed.

Lemma scrape_category_effect web s category (c : collected_t) (w : world) :
  agg_wf c →
  ∃ c' w',
    scrape_category web s category c w = (Ret c', w') ∧ agg_wf c' ∧
    scrape_effect
      (if scrape_failed web s category then 0 else 1)
      (if scrape_failed web s category
       then [ScrapeFailed (name s) category] else [])
      w w'.
Proof.
  intros Hwf. unfold scrape_category, scrape_failed.
  destruct (web category (marketplace_id s) (base_url s) (name s))
    as [deals|exc].
  - rewrite merge_deals_aggregate.
    destruct (aggregate_total
                ((λ d, {| obs_marketplace_id := marketplace_id s;
                          obs_site_name := name s;
                          obs_base_url := base_url s;
                          obs_deal := d |}) <$> deals) c Hwf)
      as (c' & Hc' & Hwf').
    exists c'. eexists. unfold bind, lift, sleep, ret. rewrite Hc'.
    split; [reflexivity|]. split; [exact Hwf'|].
    unfold scrape_effect, logged. simpl. rewrite omap_app, app_nil_r.
    simpl. rewrite app_nil_r. repeat split.
  - exists c. eexists. unfold bind, log, ret. split; [reflexivity|].
    split; [exact Hwf|].
    unfold scrape_effect. rewrite logged_add_log. simpl.
    repeat split. lia.
Qed.

Lemma scrape_categories_effect web s cats (c : collected_t) (w : world) :
  agg_wf c →
  ∃ c' w',
    scrape_categories web s cats c w = (Ret c', w') ∧ agg_wf c' ∧
    scrape_effect
      (length (filter (λ category, scrape_failed web s category = false)
                 cats))
      (ScrapeFailed (name s)
         <$> filter (λ category, scrape_failed web s category = true) cats)
      w w'.
Proof.
  revert c w. induction cats as [|category cats IH]; intros c w Hwf.
  - exists c, w. split; [reflexivity|]. split; [exact Hwf|].
    apply scrape_effect_refl.
  - destruct (scrape_category_effect web s category c w Hwf)
      as (c1 & w1 & Hrun1 & Hwf1 & Heff1).
    destruct (IH c1 w1 Hwf1) as (c2 & w2 & Hrun2 & Hwf2 & Heff2).
    exists c2, w2. split; [|split; [exact Hwf2|]].
    + simpl. unfold bind. by rewrite Hrun1.
    + pose proof (scrape_effect_trans _ _ _ _ _ _ _ Heff1 Heff2) as Heff.
      rewrite !filter_cons.
      destruct (scrape_failed web s category) eqn:Hfailed.
      * rewrite decide_False by done. rewrite decide_True by done.
        exact Heff.
      * rewrite decide_True by done. rewrite decide_False by done.
        exact Heff.
Qed.

Lemma scrape_site_effect web s (c : collected_t) (w : world) :
  agg_wf c →
  ∃ c' w',
    scrape_site web s c w = (Ret c', w') ∧ agg_wf c' ∧
    scrape_effect (site_pauses web s) (site_log web s) w w'.
Proof.
  intros Hwf. unfold scrape_site, site_pauses, site_log.
  destruct (site_categories s) as [|category cats] eqn:Hcats.
  - exists c. eexists. unfold bind, log, ret. split; [reflexivity|].
    split; [exact Hwf|].
    unfold scrape_effect. rewrite logged_add_log. simpl.
    repeat split. lia.
  - apply scrape_categories_effect, Hwf.
Qed.

Lemma scrape_sites_effect web sites (c : collected_t) (w : world) :
  agg_wf c →
  ∃ c' w',
    scrape_sites web sites c w = (Ret c', w') ∧ agg_wf c' ∧
    scrape_effect (sum_list (site_pauses web <$> sites))
      (sites ≫= site_log web) w w'.
Proof.
  revert c w. induction sites as [|s sites IH]; intros c w Hwf.
  - exists c, w. split; [reflexivity|]. split; [exact Hwf|].
    apply scrape_effect_refl.
  - destruct (scrape_site_effect web s c w Hwf)
      as (c1 & w1 & Hrun1 & Hwf1 & Heff1).
    destruct (IH c1 w1 Hwf1) as (c2 & w2 & Hrun2 & Hwf2 & Heff2).
    exists c2, w2. split; [|split; [exact Hwf2|]].
    + simpl. unfold bind. by rewrite Hrun1.
    + exact (scrape_effect_trans _ _ _ _ _ _ _ Heff1 Heff2).
Qed.


(** ** The keys of the accumulator *)

Lemma alist_set_keys (k : string) (v : deal) (c : collected_t) :
  (alist_set k v c).*1 = if decide (k ∈ c.*1) then c.*1 else c.*1 ++ [k].
Proof.
  induction c as [|[k' v'] c IH].
  - destruct (decide (k ∈ ([] : collected_t).*1)) as [Hin|_]; [|done].
    by apply elem_of_nil in Hin.
  - change (((k', v') :: c).*1) with (k' :: c.*1).
    change (alist_set k v ((k', v') :: c))
      with (if decide (k' = k) then (k', v) :: c
            else (k', v') :: alist_set k v c).
    destruct (decide (k' = k)) as [->|Hne].
    + destruct (decide (k ∈ k :: c.*1)) as [_|Hnotin]; [done|].
      exfalso. apply Hnotin, list_elem_of_here.
    + change (((k', v') :: alist_set k v c).*1)
        with (k' :: (alist_set k v c).*1).
      rewrite IH.
      destruct (decide (k ∈ c.*1)) as [Hin|Hnotin];
        destruct (decide (k ∈ k' :: c.*1)) as [Hin'|Hnotin']; try done.
      * exfalso. by apply Hnotin', list_elem_of_further.
      * apply elem_of_cons in Hin' as [->|Hin']; done.
Qed.

Lemma alist_set_NoDup (k : string) (v : deal) (c : collected_t) :
  NoDup c.*1 → NoDup (alist_set k v c).*1.
Proof.
  intros Hnd. rewrite alist_set_keys.
  destruct (decide (k ∈ c.*1)); [done|].
  apply NoDup_app. split; [done|]. split; [|apply NoDup_singleton].
  intros x Hx ->%list_elem_of_singleton. done.
Qed.

Lemma alist_get_is_Some (k : string) (c : collected_t) :
  is_Some (alist_get k c) ↔ k ∈ c.*1.
Proof.
  induction c as [|[k' v'] c IH]; simpl.
  - split; [by intros [? ?]|by intros ?%elem_of_nil].
  - rewrite elem_of_cons. destruct (decide (k' = k)) as [->|Hne].
    + split; [by left|by eexists].
    + rewrite IH. split; [by right|]. by intros [?|?].
Qed.

Lemma aggregate_NoDup (obs : list observation) (c c' : collected_t) :
  agg_wf c → NoDup c.*1 → aggregate obs c = Ret c' → NoDup c'.*1.
Proof.
  revert c. induction obs as [|o obs IH]; intros c Hwf Hnd; simpl.
  - by intros [= <-].
  - destruct (aggregate_total [o] c Hwf) as (c1 & Hc1 & Hwf1).
    simpl in Hc1. destruct (observe o c) as [c1'|] eqn:Ho; [|done].
    injection Hc1 as ->. apply IH; [done|].
    destruct (obs_key o) as [k|] eqn:Hk.
    + rewrite (observe_keyed o c k Hwf Hk) in Ho. injection Ho as <-.
      by apply alist_set_NoDup.
    + rewrite (observe_keyless o c Hk) in Ho. by injection Ho as <-.
Qed.

Lemma entry_fold_is_Some (e : option deal) (os : list observation) :
  is_Some (entry_fold e os) ↔ is_Some e ∨ os ≠ [].
Proof.
  unfold entry_fold. revert e. induction os as [|o os IH]; intros e; simpl.
  - split; [by left|]. by intros [?|?].
  - rewrite IH. split; [by right|]. intros _. left. by eexists.
Qed.

(** X15. The accumulator of a cycle holds every key once: after any run of
    sightings no two entries share a key, a key has an entry exactly when
    some sighting was filed under it, and a sighting whose asin is missing,
    empty or "N/A" is filed under no key. *)
Theorem collected_keys_unique (obs : list observation) :
  ∃ c, aggregate obs [] = Ret c ∧
       NoDup c.*1 ∧
       (∀ k, k ∈ c.*1 ↔ ∃ o, o ∈ obs ∧ obs_key o = Some k) ∧
       (∀ o, o ∈ obs → asin_missing (obs_deal o !! "asin") = true →
             obs_key o = None).
Proof.
  destruct (aggregate_lookup obs [] agg_wf_nil) as (c & Hc & _ & Hget).
  exists c. split; [exact Hc|]. split; [|split].
  - eapply aggregate_NoDup; [apply agg_wf_nil|constructor|exact Hc].
  - intros k. rewrite <- alist_get_is_Some, Hget, entry_fold_is_Some.
    simpl. unfold sightings. split.
    + intros [[? [=]]|Hne].
      destruct (filter (λ o, obs_key o = Some k) obs) as [|o os] eqn:Hf;
        [done|].
      assert (Ho : o ∈ filter (λ o, obs_key o = Some k) obs)
        by (rewrite Hf; apply list_elem_of_here).
      apply list_elem_of_filter in Ho as [Hk Ho]. by exists o.
    + intros (o & Ho & Hk). right. intros Hnil.
      assert (Hin : o ∈ filter (λ o, obs_key o = Some k) obs)
        by (by apply list_elem_of_filter).
      rewrite Hnil in Hin. by apply elem_of_nil in Hin.
  - intros o _ Hmissing. unfold obs_key. by rewrite Hmissing.
Qed.

(** ** What a cycle delivers *)

Lemma kd_ret {A} (a : A) : keeps_delivered (ret a).
Proof. by intros w. Qed.

Lemma kd_raise {A} (e : exn) : keeps_delivered (@raise A e).
Proof. by intros w. Qed.

Lemma kd_lift {A} (o : outcome A) : keeps_delivered (lift o).
Proof. by intros w. Qed.

Lemma kd_log (m : log_msg) : keeps_delivered (log m).
Proof. by intros w. Qed.

Lemma kd_now : keeps_delivered now.
Proof. by intros w. Qed.

Lemma kd_bind {A B} (m : M A) (k : A → M B) :
  keeps_delivered m → (∀ a, keeps_delivered (k a)) →
  keeps_delivered (bind m k).
Proof.
  intros Hm Hk w. unfold bind. specialize (Hm w).
  destruct (m w) as [[a|e] w1]; [|done].
  specialize (Hk a w1). simpl in *. congruence.
Qed.

Lemma kd_try_except {A} (m : M A) (h : exn → M A) :
  keeps_delivered m → (∀ e, keeps_delivered (h e)) →
  keeps_delivered (try_except m h).
Proof.
  intros Hm Hh w. unfold try_except. specialize (Hm w).
  destruct (m w) as [[a|e] w1]; [done|].
  specialize (Hh e w1). simpl in *. congruence.
Qed.

Lemma kd_store_call : keeps_delivered store_call.
Proof.
  intros w. unfold store_call. by destruct (head (store_faults w)) as [[]|].
Qed.

Lemma kd_find_one (query : deal) : keeps_delivered (find_one query).
Proof.
  unfold find_one. apply kd_bind; [apply kd_store_call|]. by intros _ w.
Qed.

Lemma kd_insert_one (doc : deal) : keeps_delivered (insert_one doc).
Proof.
  unfold insert_one. apply kd_bind; [apply kd_store_call|]. intros _ w.
  destruct (doc !! "_id") as [id|]; [|done]. by destruct (existsb _ _).
Qed.

Lemma kd_update_one (id : value) (upd : deal) :
  keeps_delivered (update_one id upd).
Proof.
  unfold update_one. apply kd_bind; [apply kd_store_call|]. intros _ w.
  destruct (existsb _ _); [|done].
  destruct (upd !! "_id") as [id'|]; [|done]. by destruct (decide _).
Qed.

Create HintDb kd discriminated.
#[local] Hint Resolve kd_ret kd_raise kd_lift kd_log kd_now
  kd_find_one kd_insert_one kd_update_one : kd.

Lemma kd_process_deal (d : deal) : keeps_delivered (process_deal d).
Proof.
  unfold process_deal. apply kd_bind.
  { unfold py_index. destruct (d !! "asin"); auto with kd. }
  intros asin. apply kd_bind; [auto with kd|]. intros existing.
  apply kd_bind; [auto with kd|]. intros t.
  apply kd_bind. { destruct (doc_truthy existing); auto with kd. }
  intros labels. apply kd_bind. { destruct (truthy _); auto with kd. }
  intros labels'. destruct (negb (doc_truthy existing)).
  - apply kd_bind; auto with kd.
  - apply kd_bind.
    { unfold py_index. destruct (default ∅ existing !! "_id"); auto with kd. }
    intros id. apply kd_bind; [auto with kd|]. intros _.
    destruct (negb _); auto with kd.
Qed.

Lemma process_deals_picks (ds : list deal) (ns : notifications_t)
    (w : world) :
  ∃ extra w',
    process_deals ds ns w = (Ret (ns ++ extra), w') ∧
    extra.*1 `sublist_of` ds ∧
    delivered w' = delivered w.
Proof.
  revert ns w. induction ds as [|d ds IH]; intros ns w.
  - exists [], w. simpl. by rewrite app_nil_r.
  - pose proof (kd_process_deal d w) as Hkeep.
    destruct (process_deal d w) as [[[change is_new]|e] w1] eqn:Hrun.
    + assert (Hstep : process_deals (d :: ds) ns w =
                match change with
                | Some ch => process_deals ds (ns ++ [(d, ch)]) w1
                | None => process_deals ds ns w1
                end).
      { simpl. unfold bind, try_except. rewrite Hrun. by destruct change. }
      rewrite Hstep. simpl in Hkeep. destruct change as [ch|].
      * destruct (IH (ns ++ [(d, ch)]) w1) as (extra & w' & Hds & Hsub & Hdel).
        exists ((d, ch) :: extra), w'. split; [|split].
        -- rewrite Hds. by rewrite <- app_assoc.
        -- simpl. by apply sublist_skip.
        -- congruence.
      * destruct (IH ns w1) as (extra & w' & Hds & Hsub & Hdel).
        exists extra, w'. split; [done|]. split; [|congruence].
        by apply sublist_cons.
    + rewrite (process_deals_failed d ds ns w w1 e Hrun).
      destruct (IH ns (add_event (Log (ProcessFailed (py_get d "asin") e)) w1))
        as (extra & w' & Hds & Hsub & Hdel).
      exists extra, w'. split; [done|]. split; [by apply sublist_cons|].
      simpl in *. congruence.
Qed.

Lemma notify_change_delivered (d : deal) (change : DealChange) (w : world) :
  delivered (notify_change d change w).2 = delivered w ∨
  delivered (notify_change d change w).2
    = delivered w ++ [embed_of (d, change)].
Proof.
  unfold notify_change, bind, try_except, channel_ready, send, log, sleep,
    raise, ret, embed_of.
  destruct w as [coll oid sf [] fs del clk tr]; simpl; [|by left].
  destruct fs as [|[exc|] fs]; simpl; [by right| |by right].
  destruct exc as [| | |status|]; simpl; try (by left).
  destruct (decide (status = 429)) as [->|Hstatus]; simpl; [|by left].
  destruct fs as [|[err|] fs]; simpl; [by right|by left|by right].
Qed.

Lemma notify_all_delivered (ns : notifications_t) (w : world) :
  ∃ new, delivered (notify_all ns w).2 = delivered w ++ new ∧
         new `sublist_of` (embed_of <$> ns).
Proof.
  revert w. induction ns as [|[d change] ns IH]; intros w.
  - exists []. simpl. by rewrite app_nil_r.
  - simpl. unfold bind.
    pose proof (notify_change_delivered d change w) as Hone.
    destruct (notify_change d change w) as [[[]|e] w1]; simpl in *.
    + destruct (IH w1) as (new & Hnew & Hsub). rewrite Hnew.
      destruct Hone as [->| ->].
      * exists new. split; [done|]. by apply sublist_cons.
      * exists (embed_of (d, change) :: new). split.
        -- by rewrite <- app_assoc.
        -- by apply sublist_skip.
    + destruct Hone as [->| ->].
      * exists []. split; [by rewrite app_nil_r|]. apply sublist_nil_l.
      * exists [embed_of (d, change)]. split; [done|].
        apply sublist_skip, sublist_nil_l.
Qed.

(** X16. A cycle notifies at most once per key, and only for what it
    collected: the embeds delivered by one run of [scrape_and_process], in
    order, are for a selection of the entries of the accumulator, each entry
    taken at most once and in the accumulator's order; and the accumulator
    holds every key once. *)
Theorem cycle_notifies_once_per_key (web : scraper) (sites : list site)
    (w : world) :
  ∃ c new,
    aggregate (observed web sites) [] = Ret c ∧
    NoDup c.*1 ∧
    delivered (scrape_and_process web sites w).2 = delivered w ++ new ∧
    (embed_deal <$> new) `sublist_of` c.*2.
Proof.
  destruct (scrape_sites_effect web sites [] w agg_wf_nil)
    as (c & w1 & Hrun & _ & _ & _ & _ & _ & _ & _ & _ & Hdel1).
  destruct (scrape_sites_run web sites [] w agg_wf_nil)
    as (c0 & w0 & Hrun0 & Hagg & _).
  rewrite Hrun in Hrun0. injection Hrun0 as <- <-.
  exists c.
  assert (Hnd : NoDup c.*1).
  { eapply aggregate_NoDup; [apply agg_wf_nil|constructor|exact Hagg]. }
  destruct sites as [|s sites].
  { exists []. simpl in Hagg. injection Hagg as <-.
    split; [done|]. split; [constructor|]. simpl. by rewrite app_nil_r. }
  unfold scrape_and_process, bind. rewrite Hrun.
  destruct c as [|entry c].
  { exists []. split; [done|]. split; [done|]. simpl.
    rewrite Hdel1. by rewrite app_nil_r. }
  destruct (process_deals_picks ((entry :: c).*2) [] w1)
    as (ns & w2 & Hns & Hsub & Hdel2).
  rewrite app_nil_l in Hns. rewrite Hns.
  assert (Hembeds : embed_deal <$> (embed_of <$> ns) = ns.*1).
  { rewrite <- list_fmap_compose. by apply list_fmap_ext. }
  destruct ns as [|n ns].
  { exists []. split; [done|]. split; [done|]. simpl.
    rewrite Hdel2, Hdel1, app_nil_r. split; [done|]. apply sublist_nil_l. }
  destruct (notify_all_delivered (n :: ns) w2) as (new & Hnew & Hsubnew).
  exists new. split; [done|]. split; [done|]. split.
  - change (delivered (notify_all (n :: ns) w2).2 = delivered w ++ new).
    rewrite Hnew. congruence.
  - etrans; [|exact Hsub]. rewrite <- Hembeds. by apply fmap_sublist.
Qed.

(** ** Keys and fields *)

Lemma scraped_by_stamped py_str hostname lower
    (category marketplace_id base_url site_name : string)
    (deals : list raw_deal) (d : raw_deal) :
  scraped_by py_str hostname lower category marketplace_id base_url site_name
    deals →
  present marketplace_id = true → present site_name = true →
  d ∈ deals →
  d !! "marketplace_id" = Some marketplace_id ∧ d !! "site" = Some site_name.
Proof.
  intros [rs Hrs] Hm Hs Hd.
  destruct (handle_responses_grow py_str rs
              (new_scraper hostname lower (Some marketplace_id)
                 (Some category) (Some base_url) (Some site_name)))
    as (new & Hrun & Hnew); [constructor|].
  rewrite Hrun in Hrs. simpl in Hrs. rewrite <- Hrs in Hnew.
  rewrite Forall_forall in Hnew.
  destruct (Hnew (as_json d)) as (_ & Hmid & Hsite & _).
  { apply list_elem_of_fmap. by exists d. }
  unfold as_json in Hmid, Hsite.
  rewrite lookup_fmap in Hmid, Hsite. simpl in Hmid, Hsite.
  rewrite (present_nonempty _ Hm) in Hmid.
  rewrite (present_nonempty _ Hs) in Hsite.
  destruct (d !! "marketplace_id") as [m|]; [|done].
  destruct (d !! "site") as [s|]; [|done].
  simpl in Hmid, Hsite. split; congruence.
Qed.

Lemma elem_of_observed web (sites : list site) (o : observation) :
  o ∈ observed web sites →
  ∃ s category deals,
    s ∈ sites ∧
    web category (marketplace_id s) (base_url s) (name s) = Ret deals ∧
    obs_deal o ∈ deals ∧
    obs_marketplace_id o = marketplace_id s ∧ obs_site_name o = name s.
Proof.
  unfold observed, observed_site. intros Ho.
  apply list_elem_of_bind in Ho as (s & Ho & Hs).
  apply list_elem_of_bind in Ho as (category & Ho & _).
  unfold observed_category in Ho.
  destruct (web category (marketplace_id s) (base_url s) (name s))
    as [deals|] eqn:Hweb; [|by apply elem_of_nil in Ho].
  apply list_elem_of_fmap in Ho as (d & -> & Hd).
  by exists s, category, deals.
Qed.

Lemma deal_copy_stamps (m s b cat : string) (d : raw_deal) :
  deal_copy m s b cat d !! "marketplace_id" = Some (VStr m) ∧
  deal_copy m s b cat d !! "site" = Some (VStr s).
Proof.
  unfold deal_copy. split.
  - rewrite !lookup_insert_ne by done. apply lookup_insert_eq.
  - rewrite lookup_insert_ne by done. apply lookup_insert_eq.
Qed.

Lemma entry_merge_keyed (stored : option deal) (o : observation)
    (k : string) :
  self_stamped o → obs_key o = Some k →
  keyed_by_fields k (entry_merge stored o).
Proof.
  intros (Hmid & Hsite & Hm & Hs) Hk.
  pose proof Hk as (a & Ha & ->)%obs_key_Some.
  assert (Hpa : present a = true).
  { unfold obs_key in Hk. rewrite Ha in Hk. simpl in Hk. unfold present.
    destruct (String.eqb a EmptyString); [done|].
    by destruct (String.eqb a NA). }
  exists (obs_marketplace_id o), (obs_site_name o), a.
  destruct stored as [st|].
  - rewrite !entry_merge_field by done.
    rewrite Hmid, Hsite, Ha, Hm, Hs, Hpa. done.
  - simpl.
    destruct (deal_copy_stamps (obs_marketplace_id o) (obs_site_name o)
                (obs_base_url o) (obs_category o) (obs_deal o)) as [-> ->].
    rewrite deal_copy_field, Ha; [done|]. unfold stamped_fields. set_solver.
Qed.

Lemma aggregate_keyed (obs : list observation) (c c' : collected_t) :
  Forall self_stamped obs →
  agg_wf c →
  (∀ k e, alist_get k c = Some e → keyed_by_fields k e) →
  aggregate obs c = Ret c' →
  ∀ k e, alist_get k c' = Some e → keyed_by_fields k e.
Proof.
  intros Hobs. revert c.
  induction Hobs as [|o obs Ho _ IH]; intros c Hwf Hc; simpl.
  - by intros [= <-].
  - destruct (aggregate_total [o] c Hwf) as (c1 & Hc1 & Hwf1).
    simpl in Hc1. destruct (observe o c) as [c1'|] eqn:Hobserve; [|done].
    injection Hc1 as ->. apply IH; [done|].
    destruct (obs_key o) as [k|] eqn:Hk.
    + rewrite (observe_keyed o c k Hwf Hk) in Hobserve.
      injection Hobserve as <-. intros k' e.
      destruct (decide (k = k')) as [<-|Hne].
      * rewrite alist_get_set_eq. intros [= <-].
        by apply entry_merge_keyed.
      * rewrite alist_get_set_ne by done. apply Hc.
    + rewrite (observe_keyless o c Hk) in Hobserve.
      by injection Hobserve as <-.
Qed.

(** X17. With the scraper of [main.py] behind the bot and sites whose name
    and marketplace id are set (not empty, not "N/A"), every entry a cycle
    collects is filed under the key of its own fields: the key is
    [marketplace_id:site:asin] for the [marketplace_id], [site] and [asin]
    the entry itself carries, and [process_deal] looks the record up by
    exactly these three. *)
Theorem collected_entries_keyed_by_fields (py_str : json → string)
    (hostname : string → option string) (lower : string → string)
    (web : scraper) (sites : list site) :
  (∀ category marketplace_id base_url site_name deals,
     web category marketplace_id base_url site_name = Ret deals →
     scraped_by py_str hostname lower category marketplace_id base_url
       site_name deals) →
  Forall (λ s, present (marketplace_id s) = true ∧ present (name s) = true)
    sites →
  ∃ c, aggregate (observed web sites) [] = Ret c ∧
       ∀ k e, alist_get k c = Some e →
         keyed_by_fields k e ∧
         ∀ asin doc, e !! "asin" = Some asin →
           (matches (deal_query e asin) doc = true ↔
            doc !! "asin" = e !! "asin" ∧
            doc !! "marketplace_id" = e !! "marketplace_id" ∧
            doc !! "site" = e !! "site").
Proof.
  intros Hweb Hsites.
  destruct (aggregate_total (observed web sites) [] agg_wf_nil)
    as (c & Hc & _).
  exists c. split; [exact Hc|]. intros k e He.
  assert (Hkeyed : keyed_by_fields k e).
  { eapply (aggregate_keyed (observed web sites) [] c);
      [|apply agg_wf_nil|done|exact Hc|exact He].
    apply Forall_forall. intros o Ho.
    apply elem_of_observed in Ho
      as (s & category & deals & Hs & Hdeals & Hd & Hmid & Hname).
    rewrite Forall_forall in Hsites. destruct (Hsites s Hs) as [Hpm Hpn].
    destruct (scraped_by_stamped _ _ _ _ _ _ _ _ _
                (Hweb _ _ _ _ _ Hdeals) Hpm Hpn Hd) as [Hm Hn].
    unfold self_stamped. rewrite Hmid, Hname. done. }
  split; [exact Hkeyed|].
  destruct Hkeyed as (m & s & a & Hm & Hs & Ha & Hpm & Hps & _ & _).
  intros asin doc Hasin. rewrite matches_deal_query.
  unfold py_get. rewrite Hm, Hs, Hasin. simpl.
  rewrite (present_nonempty _ Hpm), (present_nonempty _ Hps). simpl.
  split.
  - intros (? & Hdm & Hds). auto.
  - intros (? & ? & ?). auto.
Qed.

Lemma prefix_refl (s : string) : String.prefix s s = true.
Proof.
  induction s as [|c s IH]; [done|]. simpl.
  by destruct (ascii_dec c c).
Qed.

Lemma contains_refl (s : string) : contains s s = true.
Proof.
  destruct s as [|c s]; [done|].
  unfold contains. fold contains. by rewrite prefix_refl.
Qed.

Lemma served_intercepted (self : scraper_state) :
  intercepted Promo.py_str self
    (JObj {[ "entity" :=
               JObj {[ "rankedPromotions" := JArr [Promo.priced] ]} ]})
  = Some [as_json (Served.listing self)].
Proof.
  unfold as_json, Served.listing.
  rewrite !fmap_insert, map_fmap_singleton.
  unfold intercepted. vm_compute. reflexivity.
Qed.

Lemma served_scraped_by (category marketplace_id base_url site_name : string)
    (deals : list raw_deal) :
  Served.web category marketplace_id base_url site_name = Ret deals →
  scraped_by Promo.py_str Served.hostname id category marketplace_id base_url
    site_name deals.
Proof.
  intros [= <-].
  set (self := Served.scraper_for category marketplace_id base_url site_name).
  exists [Served.page self].
  change (new_scraper Served.hostname id (Some marketplace_id)
            (Some category) (Some base_url) (Some site_name)) with self.
  change (handle_responses Promo.py_str self [Served.page self])
    with (handle_response Promo.py_str self (Served.page self)).
  unfold handle_response.
  change (resp_url (Served.page self)) with (sc_api_url self).
  rewrite contains_refl.
  change (resp_status (Served.page self) =? 200) with true.
  change (resp_body (Served.page self) ≫= intercepted Promo.py_str self)
    with (intercepted Promo.py_str self
            (JObj {[ "entity" :=
                       JObj {[ "rankedPromotions" :=
                                 JArr [Promo.priced] ]} ]})).
  rewrite served_intercepted. reflexivity.
Qed.

Lemma collected_entries_keyed_by_fields_witness :
  ∃ c, aggregate (observed Served.web [Sample.spain]) [] = Ret c ∧
       ∀ k e, alist_get k c = Some e → keyed_by_fields k e.
Proof.
  destruct (collected_entries_keyed_by_fields Promo.py_str Served.hostname id
              Served.web [Sample.spain]) as (c & Hc & Hkeyed).
  - exact served_scraped_by.
  - repeat constructor.
  - exists c. split; [exact Hc|]. intros k e He. apply (Hkeyed k e He).
Defined.

(** ** New deals and new documents *)

Lemma set_first_length (id : value) (upd : deal) (docs : list deal) :
  length (set_first id upd docs) = length docs.
Proof.
  induction docs as [|doc docs IH]; simpl; [done|].
  destruct (has_id id doc); simpl; congruence.
Qed.

Lemma update_one_length (id : value) (upd : deal) (w : world) :
  length (deals_coll (update_one id upd w).2) = length (deals_coll w).
Proof.
  destruct (update_one_store id upd w) as [[-> _]|(_ & _ & -> & _)];
    [done|apply set_first_length].
Qed.

Lemma insert_one_length (doc : deal) (w : world) :
  length (deals_coll (insert_one doc w).2) =
    match (insert_one doc w).1 with
    | Ret _ => S (length (deals_coll w))
    | Raise _ => length (deals_coll w)
    end.
Proof.
  unfold insert_one, bind.
  destruct (store_call_cases w) as [-> | ->]; [done|]. simpl.
  destruct (doc !! "_id") as [id|]; simpl.
  - destruct (existsb (has_id id) (deals_coll w)); simpl; [done|].
    rewrite length_app. simpl. lia.
  - rewrite length_app. simpl. lia.
Qed.

(** However [process_deal] ends: it appends one document when it reports a
    new deal and none otherwise, and what it reports is well formed. *)
Lemma process_deal_count (d : deal) (w : world) :
  post (process_deal d) w
    (λ r w',
       match r with
       | Ret (Some ch, true) =>
           ch = {| change_type := "New deal"; changed_fields := ∅ |} ∧
           length (deals_coll w') = S (length (deals_coll w))
       | Ret (Some ch, false) =>
           change_type ch = "Updated deal" ∧ changed_fields ch ≠ ∅ ∧
           length (deals_coll w') = length (deals_coll w)
       | Ret (None, true) => False
       | Ret (None, false) | Raise _ =>
           length (deals_coll w') = length (deals_coll w)
       end).
Proof.
  unfold process_deal. apply post_bind. unfold py_index.
  destruct (d !! "asin") as [asin|]; [apply post_ret|by apply post_raise].
  apply post_bind, post_find_one.
  set (w1 := set_store_faults (tail (store_faults w)) w).
  split; [done|].
  apply post_bind. unfold post at 1, now. simpl fst. simpl snd. cbv iota.
  set (found := find _ (deals_coll w)).
  destruct (doc_truthy found) eqn:Htruthy.
  - destruct found as [existing|] eqn:Hfound; [|done]. simpl default.
    apply post_bind, post_lift.
    destruct (py_set _) as [labels|e]; [|done].
    apply post_bind, post_direct_label; [|done].
    intros labels' _. rewrite extra_labels_step.
    simpl negb. cbv iota. apply post_bind.
    destruct (existing !! "_id") as [id|];
      [apply post_ret|by apply post_raise].
    apply post_bind.
    set (upd := <["last_seen" := _]> _).
    pose proof (update_one_length id upd w1) as Hlen.
    unfold post at 1.
    destruct (update_one id upd w1) as [[[]|e] w2]; [|done].
    simpl in Hlen. simpl fst. simpl snd. cbv iota.
    destruct (negb (bool_decide (diff_watched existing d = ∅))) eqn:Hchanged;
      apply post_ret; [|done].
    split; [done|]. split; [|done]. simpl.
    apply negb_true_iff, bool_decide_eq_false in Hchanged. done.
  - apply post_bind, post_ret.
    apply post_bind, post_direct_label; [|done].
    intros labels' _. rewrite extra_labels_step.
    simpl negb. cbv iota. apply post_bind.
    set (doc := <["first_seen" := _]> _).
    pose proof (insert_one_length doc w1) as Hlen.
    unfold post at 1.
    destruct (insert_one doc w1) as [[[]|e] w2]; [|done].
    simpl in Hlen. by apply post_ret.
Qed.

Lemma process_deals_count (ds : list deal) (ns : notifications_t)
    (w : world) :
  ∃ extra w',
    process_deals ds ns w = (Ret (ns ++ extra), w') ∧
    length (deals_coll w')
      = (length (deals_coll w) + length (new_deals extra))%nat ∧
    Forall (λ n, well_formed_change n.2) extra.
Proof.
  revert ns w. induction ds as [|d ds IH]; intros ns w.
  - exists [], w. simpl. rewrite app_nil_r. split; [done|].
    split; [lia|constructor].
  - pose proof (process_deal_count d w) as Hcount. unfold post in Hcount.
    destruct (process_deal d w) as [[[change is_new]|e] w1] eqn:Hrun.
    + assert (Hstep : process_deals (d :: ds) ns w =
                match change with
                | Some ch => process_deals ds (ns ++ [(d, ch)]) w1
                | None => process_deals ds ns w1
                end).
      { simpl. unfold bind, try_except. rewrite Hrun. by destruct change. }
      rewrite Hstep. simpl in Hcount. destruct change as [ch|].
      * destruct (IH (ns ++ [(d, ch)]) w1) as (extra & w' & Hds & Hlen & Hwf).
        exists ((d, ch) :: extra), w'. split; [|split].
        -- rewrite Hds. by rewrite <- app_assoc.
        -- rewrite Hlen. unfold new_deals. destruct is_new.
           ++ destruct Hcount as [-> ->].
              rewrite filter_cons_True by done. simpl. lia.
           ++ destruct Hcount as (Htype & _ & ->).
              rewrite filter_cons_False; [done|]. simpl. by rewrite Htype.
        -- apply Forall_cons. split; [|exact Hwf]. simpl.
           destruct is_new; [left; apply Hcount|right].
           by destruct Hcount as (? & ? & _).
      * destruct is_new; [done|].
        destruct (IH ns w1) as (extra & w' & Hds & Hlen & Hwf).
        exists extra, w'. split; [done|]. split; [lia|done].
    + rewrite (process_deals_failed d ds ns w w1 e Hrun).
      destruct (IH ns (add_event (Log (ProcessFailed (py_get d "asin") e)) w1))
        as (extra & w' & Hds & Hlen & Hwf).
      exists extra, w'. split; [done|]. split; [|done].
      simpl in *. lia.
Qed.

(** X18. New deals and new documents go together: however the store
    behaves, processing the deals of a cycle appends exactly one document
    for every "New deal" notification it queues and none besides (an update
    or a failure appends nothing), and every notification queued is a
    "New deal" with no changed fields or an "Updated deal" that names at
    least one. *)
Theorem new_deals_are_stored (ds : list deal) (w : world) :
  ∃ ns w',
    process_deals ds [] w = (Ret ns, w') ∧
    length (deals_coll w')
      = (length (deals_coll w) + length (new_deals ns))%nat ∧
    Forall (λ n, well_formed_change n.2) ns ∧
    ns.*1 `sublist_of` ds.
Proof.
  destruct (process_deals_count ds [] w) as (ns & w' & Hrun & Hlen & Hwf).
  destruct (process_deals_picks ds [] w) as (ns0 & w0 & Hrun0 & Hsub & _).
  rewrite Hrun in Hrun0. injection Hrun0 as <- _.
  exists ns, w'. by rewrite app_nil_l in Hrun.
Qed.
